(** * clever-diagram: the Diagram controller of [src/Diagram.js]

    A shallow embedding of the [Diagram] class: the node/edge model, the
    request it builds for the layout engine (ELK), the callback that turns a
    layout into DOM elements through d3, and the pointer-interaction state
    (selection, highlight, click detection).

    The page is modelled as the list of its elements in tree order; every
    method of the class is a computation over the controller's fields, the
    page and the log of fired events, and may throw. *)

From Stdlib Require Import List String Ascii ZArith Lia Bool PeanoNat DecimalString Floats.
Import ListNotations.
Open Scope string_scope.

(* ================================================================= *)
(** ** JavaScript values *)

(** What a method can throw: a thrown string ([throw "..."]) or the
    [TypeError] of a property access on [undefined]/[null]. *)
Inductive Exn : Type :=
| Thrown (msg : string)
| TypeError.

Inductive Result (A : Type) : Type :=
| Ok (a : A)
| Throw (e : Exn).
Arguments Ok {A} a.
Arguments Throw {A} e.

Definition string_of_nat (n : nat) : string :=
  NilEmpty.string_of_uint (Nat.to_uint n).

Definition string_of_Z (z : Z) : string :=
  NilZero.string_of_int (Z.to_int z).

(** Numbers are IEEE 754 doubles: the primitive [float], with its
    rounding, its two zeros, its infinities and its [NaN]. *)
Definition is_positive_zero (f : float) : bool := is_zero f && negb (get_sign f).

Definition is_negative_zero (f : float) : bool := is_zero f && get_sign f.

(** One turn of the loop of [Math.max]: a [NaN] makes the result [NaN],
    [+0] is larger than [-0], and otherwise the larger number is kept. *)
Definition max_step (highest number : float) : float :=
  if is_nan highest then highest
  else if is_nan number then number
  else if is_positive_zero number && is_negative_zero highest then number
  else if (highest <? number)%float then number
  else highest.

(** [Math.max.apply(Math, l)]; [Math.max()] of no argument is [-Infinity]. *)
Definition Math_max (l : list float) : float :=
  fold_left max_step l neg_infinity.

(** The integer a double is, when it is one. *)
Definition integer_value (f : float) : option Z :=
  match Prim2SF f with
  | S754_zero _ => Some 0%Z
  | S754_finite s m e =>
      let z := if s then Z.neg m else Z.pos m in
      if (0 <=? e)%Z then Some (z * 2 ^ e)%Z
      else if (Z.pos m mod 2 ^ (- e) =? 0)%Z then Some (z / 2 ^ (- e))%Z
      else None
  | _ => None
  end.

(** The integers below [2^53] in absolute value, which are all doubles
    and which JavaScript prints digit for digit. *)
Definition safe_integer (f : float) : option Z :=
  match integer_value f with
  | Some z => if (Z.abs z <? 2 ^ 53)%Z then Some z else None
  | None => None
  end.

(** [Array.prototype.join] *)
Fixpoint join (sep : string) (l : list string) : string :=
  match l with
  | [] => ""
  | [s] => s
  | s :: rest => s ++ sep ++ join sep rest
  end.

(** [Array.prototype.map] with the [(element, index)] callback. *)
Fixpoint mapi_from {A B : Type} (i : nat) (f : A -> nat -> B) (l : list A) : list B :=
  match l with
  | [] => []
  | a :: rest => f a i :: mapi_from (S i) f rest
  end.

Definition mapi {A B : Type} (f : A -> nat -> B) (l : list A) : list B :=
  mapi_from 0 f l.

(** Own properties of a plain object, as an association list. *)
Fixpoint assoc_get {V : Type} (k : string) (l : list (string * V)) : option V :=
  match l with
  | [] => None
  | (k', v) :: rest => if k' =? k then Some v else assoc_get k rest
  end.

Fixpoint assoc_set {V : Type} (k : string) (v : V) (l : list (string * V)) : list (string * V) :=
  match l with
  | [] => [(k, v)]
  | (k', v') :: rest => if k' =? k then (k, v) :: rest else (k', v') :: assoc_set k v rest
  end.

(** The properties every plain object inherits from [Object.prototype]
    (on a page where no script has added to it or removed from it). *)
Definition object_prototype_members : list string :=
  ["constructor"; "__defineGetter__"; "__defineSetter__"; "hasOwnProperty";
   "__lookupGetter__"; "__lookupSetter__"; "isPrototypeOf"; "propertyIsEnumerable";
   "toString"; "valueOf"; "__proto__"; "toLocaleString"].

(** What [o[k]] finds on a plain object [o]: an own property, a member of
    [Object.prototype], or nothing ([undefined]). *)
Inductive Property (V : Type) : Type :=
| Own (v : V)
| Inherited (member : string)
| Missing.
Arguments Own {V} v.
Arguments Inherited {V} member.
Arguments Missing {V}.

Definition js_get {V : Type} (k : string) (o : list (string * V)) : Property V :=
  match assoc_get k o with
  | Some v => Own v
  | None => if existsb (String.eqb k) object_prototype_members
            then Inherited k
            else Missing
  end.

(** The names [n] for which ["#" + n] is an id selector: a CSS
    identifier, here one made of ASCII letters, digits, [_] and [-] that
    starts with a letter or [_], or with [-] and then a letter or [_]. *)
Definition is_letter (c : ascii) : bool :=
  let n := nat_of_ascii c in
  ((65 <=? n) && (n <=? 90) || (97 <=? n) && (n <=? 122) || (n =? 95))%nat.

Definition is_name_char (c : ascii) : bool :=
  let n := nat_of_ascii c in
  (is_letter c || (48 <=? n) && (n <=? 57) || (n =? 45))%nat.

Fixpoint all_chars (f : ascii -> bool) (s : string) : bool :=
  match s with
  | EmptyString => true
  | String c rest => f c && all_chars f rest
  end.

Definition css_identifier (s : string) : bool :=
  match s with
  | EmptyString => false
  | String c rest =>
      if (nat_of_ascii c =? 45)%nat
      then match rest with
           | EmptyString => false
           | String c' rest' => is_letter c' && all_chars is_name_char rest'
           end
      else is_letter c && all_chars is_name_char rest
  end.

(** The strings that the HTML parser turns into one text node holding
    the very string: no markup ([<]), no character reference ([&]), no
    carriage return and no NUL. *)
Definition plain_text (s : string) : bool :=
  all_chars (fun c => let n := nat_of_ascii c in
                      negb ((n =? 60) || (n =? 38) || (n =? 13) || (n =? 0))%nat) s.

(** Whitespace-separated tokens of a [class] attribute. *)
Definition is_space (c : ascii) : bool :=
  match nat_of_ascii c with
  | 32 | 9 | 10 | 12 | 13 => true
  | _ => false
  end.

Fixpoint tokens_aux (cur : string) (s : string) : list string :=
  match s with
  | EmptyString => if cur =? "" then [] else [cur]
  | String c rest =>
      if is_space c
      then (if cur =? "" then tokens_aux "" rest else cur :: tokens_aux "" rest)
      else tokens_aux (cur ++ String c "") rest
  end.

Definition class_tokens (s : string) : list string := tokens_aux "" s.

(* ================================================================= *)
(** ** The data model of the widget *)

Record Node : Type := {
  name : string;
  group : option string;
  icon : option string
}.

Record Edge : Type := {
  start : string;
  end_ : string;
  type : string
}.

(** The argument of [setData]: [data.nodes] and [data.edges] may be absent. *)
Record Data : Type := {
  nodes : option (list Node);
  edges : option (list Edge)
}.

(** The graph handed to [elk.layout]. *)
Record ElkChild : Type := {
  child_id : string;
  child_width : Z;
  child_height : Z
}.

Record ElkEdge : Type := {
  edge_id : string;
  sources : list string;
  targets : list string
}.

Record ElkGraph : Type := {
  graph_id : string;
  properties : list (string * string);
  children : list ElkChild;
  graph_edges : list ElkEdge
}.

(** What the layout engine answers. *)
Record Point : Type := { px : float; py : float }.

Record Section_ : Type := {
  startPoint : option Point;
  endPoint : option Point;
  bendPoints : option (list Point)
}.

Record LayoutChild : Type := { x : float; y : float; width : float; height : float }.

Record LayoutEdge : Type := { sections : list Section_ }.

Record Layout : Type := {
  layout_children : list LayoutChild;
  layout_edges : list LayoutEdge
}.

(** [getBoundingClientRect()].  The coordinates of a box are finite
    doubles, of which the widget only asks whether two are [==]: each is
    kept by an integer that is the same for two of them exactly when
    they are [==]. *)
Record Rect : Type := { top : Z; left : Z; rect_width : Z; rect_height : Z }.

(** The class names imported from [Diagram.css] (a CSS-modules table that
    is not part of the sources): a parameter of the model.  They are
    taken to be CSS identifiers, as such a table has them, so that
    ["." + c] is the selector of the class [c]. *)
Record StyleSheet : Type := {
  diagram : string;
  node : string;
  node_selected : string;
  node_highlighted : string;
  node_text : string;
  icon_class : string
}.

(* ================================================================= *)
(** ** The page *)

(** The listeners [_renderNode] binds to a node element are closures over
    the node's name; they are kept as the call they make. *)
Inductive Listener : Type :=
| CallOnMouseDown (nodeName : string)
| CallOnMouseUp (nodeName : string)
| CallHighlightNode (nodeName : string) (highlighted : bool).

Module Dom.

(** An element of the page.  [key] is the identity of the element,
    [depth] its depth in the tree; the page lists its elements in tree
    order, so the descendants of an element are the elements that follow
    it for as long as their depth is larger.  [attrs] holds the
    attributes other than [class], [classes] the class tokens, [styles]
    the properties that [.style(n, v)] has set, [html]
    the string last given to [.html(s)], and [listeners] what [.on]
    bound. *)
Record Element : Type := {
  key : nat;
  depth : nat;
  tag : string;
  attrs : list (string * string);
  classes : list string;
  styles : list (string * string);
  html : string;
  listeners : list (string * Listener)
}.

Definition Document : Type := list Element.

(** A d3 selection made by [d3.select] or [append]: one element or none. *)
Definition Selection : Type := option nat.

Definition create (k d : nat) (t : string) : Element :=
  {| key := k; depth := d; tag := t; attrs := []; classes := [];
     styles := []; html := ""; listeners := [] |}.

(** The changes d3 makes to a selected element. *)
Inductive Edit : Type :=
| SetAttr (n v : string)          (* .attr(n, v), n other than "class" *)
| SetClassAttr (v : string)       (* .attr("class", v) *)
| SetStyle (n v : string)         (* .style(n, v) *)
| Classed (c : string) (flag : bool) (* .classed(c, flag) *)
| SetHtml (s : string)            (* the string given to .html(s) *)
| On (ev : string) (l : Listener). (* .on(ev, listener) *)

Definition has_class (c : string) (e : Element) : bool :=
  existsb (String.eqb c) (classes e).

Definition apply_edit (ed : Edit) (e : Element) : Element :=
  match ed with
  | SetAttr n v =>
      {| key := key e; depth := depth e; tag := tag e;
         attrs := assoc_set n v (attrs e); classes := classes e;
         styles := styles e; html := html e; listeners := listeners e |}
  | SetClassAttr v =>
      {| key := key e; depth := depth e; tag := tag e;
         attrs := attrs e; classes := class_tokens v;
         styles := styles e; html := html e; listeners := listeners e |}
  | SetStyle n v =>
      {| key := key e; depth := depth e; tag := tag e;
         attrs := attrs e; classes := classes e;
         styles := assoc_set n v (styles e); html := html e;
         listeners := listeners e |}
  | Classed c flag =>
      {| key := key e; depth := depth e; tag := tag e;
         attrs := attrs e;
         classes := (if flag
                     then (if has_class c e then classes e else (classes e ++ [c])%list)
                     else filter (fun c' => negb (c =? c')) (classes e));
         styles := styles e; html := html e; listeners := listeners e |}
  | SetHtml s =>
      {| key := key e; depth := depth e; tag := tag e;
         attrs := attrs e; classes := classes e;
         styles := styles e; html := s; listeners := listeners e |}
  | On ev l =>
      {| key := key e; depth := depth e; tag := tag e;
         attrs := attrs e; classes := classes e;
         styles := styles e; html := html e;
         listeners := assoc_set ev l (listeners e) |}
  end.

Definition lookup (k : nat) (doc : Document) : option Element :=
  find (fun e => key e =? k)%nat doc.

Definition present (k : nat) (doc : Document) : bool :=
  existsb (fun e => key e =? k)%nat doc.

(** The identity of a newly created element: different from every
    element of the page. *)
Definition fresh (doc : Document) : nat :=
  S (list_max (map key doc)).

(** Number of leading elements of [rest] that lie below depth [d]:
    the size of the subtree whose root (of depth [d]) precedes [rest]. *)
Fixpoint subtree_len (d : nat) (rest : Document) : nat :=
  match rest with
  | [] => 0
  | e :: rest' => if (d <? depth e)%nat then S (subtree_len d rest') else 0
  end.

(** An element put at depth [d]. *)
Definition place (d : nat) (e : Element) : Element :=
  {| key := key e; depth := d; tag := tag e; attrs := attrs e;
     classes := classes e; styles := styles e; html := html e;
     listeners := listeners e |}.

(** [parent.appendChild(c)]: [c] becomes the last child of the first
    element whose key is [p]. *)
Fixpoint insert_child (p : nat) (c : Element) (doc : Document) : Document :=
  match doc with
  | [] => []
  | e :: rest =>
      if (key e =? p)%nat
      then let n := subtree_len (depth e) rest in
           e :: (firstn n rest ++ place (S (depth e)) c :: skipn n rest)%list
      else e :: insert_child p c rest
  end.

(** [selection.append(tag)]: on an empty selection, or on an element
    that is not in the page, nothing is added to the page. *)
Definition append (sel : Selection) (t : string) (doc : Document) : Selection * Document :=
  match sel with
  | None => (None, doc)
  | Some p =>
      if present p doc
      then let k := fresh doc in (Some k, insert_child p (create k 0 t) doc)
      else (None, doc)
  end.

(** An edit of the element whose key is [k] (the first one, as everywhere). *)
Fixpoint update_key (k : nat) (f : Element -> Element) (doc : Document) : Document :=
  match doc with
  | [] => []
  | e :: rest =>
      if (key e =? k)%nat then f e :: rest else e :: update_key k f rest
  end.

Definition update (sel : Selection) (ed : Edit) (doc : Document) : Document :=
  match sel with
  | None => doc
  | Some k => update_key k (apply_edit ed) doc
  end.

(** [selection.html("")]: the element loses its descendants. *)
Fixpoint clear_children (k : nat) (doc : Document) : Document :=
  match doc with
  | [] => []
  | e :: rest =>
      if (key e =? k)%nat
      then e :: skipn (subtree_len (depth e) rest) rest
      else e :: clear_children k rest
  end.

Definition empty (sel : Selection) (doc : Document) : Document :=
  match sel with
  | None => doc
  | Some k => clear_children k doc
  end.

(** The elements that the HTML parser makes of a string, in tree order:
    each comes with the index of its parent among those made before it,
    [0] standing for the element whose content is being set. *)
Definition Markup : Type := list (nat * Element).

(** An element made by the HTML parser, under the identity [k]: it has
    what the markup gives it, and no d3 listener. *)
Definition parsed (k : nat) (t : Element) : Element :=
  {| key := k; depth := 0; tag := tag t; attrs := attrs t; classes := classes t;
     styles := styles t; html := html t; listeners := [] |}.

(** The elements of [m] are put in the page below [root], each as the
    last child of its parent. *)
Fixpoint graft (made : list nat) (root : nat) (m : Markup) (doc : Document) : Document :=
  match m with
  | [] => doc
  | (i, t) :: rest =>
      let p := nth i (root :: made) root in
      let k := fresh doc in
      graft (made ++ [k])%list root rest (insert_child p (parsed k t) doc)
  end.

(** [element.innerHTML = s], where the parser makes [m] of [s]: the
    element loses its descendants and gets the parsed ones. *)
Definition set_html (sel : Selection) (s : string) (m : Markup) (doc : Document) : Document :=
  match sel with
  | None => doc
  | Some k => graft [] k m (update_key k (apply_edit (SetHtml s)) (clear_children k doc))
  end.

(** [selection.remove()]: the element leaves the page with its subtree. *)
Fixpoint remove_subtree (k : nat) (doc : Document) : Document :=
  match doc with
  | [] => []
  | e :: rest =>
      if (key e =? k)%nat
      then skipn (subtree_len (depth e) rest) rest
      else e :: remove_subtree k rest
  end.

Definition remove (sel : Selection) (doc : Document) : Document :=
  match sel with
  | None => doc
  | Some k => remove_subtree k doc
  end.

(** The children of the first element whose key is [k], in order. *)
Fixpoint child_elements (k : nat) (doc : Document) : list Element :=
  match doc with
  | [] => []
  | e :: rest =>
      if (key e =? k)%nat
      then filter (fun c => depth c =? S (depth e))%nat
                  (firstn (subtree_len (depth e) rest) rest)
      else child_elements k rest
  end.

Definition id_of (e : Element) : option string := assoc_get "id" (attrs e).

Definition has_id (i : string) (e : Element) : bool :=
  match id_of e with
  | Some i' => i' =? i
  | None => false
  end.

(** [document.getElementById(i)]: the first element, in tree order,
    whose id is [i]; an empty [id] attribute gives an element no id. *)
Definition getElementById (i : string) (doc : Document) : Selection :=
  if i =? "" then None
  else option_map key (find (has_id i) doc).

(** [document.querySelector("#" + i)], for a name [i] that is a CSS
    identifier, so that the string is an id selector: the first element,
    in tree order, whose id is [i].  (As everywhere, the page is taken
    to be in no-quirks mode, where ids and classes match exactly.) *)
Definition select_id (i : string) (doc : Document) : Selection :=
  option_map key (find (has_id i) doc).

(** [d3.select("." + c)], for a class name [c] that is a CSS identifier:
    the first element, in tree order, that carries the class. *)
Definition select_class (c : string) (doc : Document) : Selection :=
  option_map key (find (has_class c) doc).



End Dom.

(* ================================================================= *)
(** ** The event registry *)

Module Observable.

(** A handler is known by its reference. *)
Definition Handler : Type := nat.

(** Modelled from the spec: the class [Observable] of
    [src/utils/Observable.js] is not part of the sources.  It is "an
    explicit mapping from event-name enum to ordered list of handler
    references, with on/off/fire as its only operations and destroy
    clearing the mapping". *)
Record t : Type := { registry : list (string * list Handler) }.

Definition create (events : list string) : t :=
  {| registry := map (fun ev => (ev, [])) events |}.

Definition on (ev : string) (h : Handler) (o : t) : t :=
  match assoc_get ev (registry o) with
  | Some hs => {| registry := assoc_set ev (hs ++ [h])%list (registry o) |}
  | None => o
  end.

Definition off (ev : string) (h : Handler) (o : t) : t :=
  match assoc_get ev (registry o) with
  | Some hs =>
      {| registry := assoc_set ev (filter (fun h' => negb (h' =? h)%nat) hs) (registry o) |}
  | None => o
  end.

(** The handlers [fire] calls, in order. *)
Definition fire (ev : string) (o : t) : list Handler :=
  match assoc_get ev (registry o) with
  | Some hs => hs
  | None => []
  end.

Definition destroy (o : t) : t := {| registry := [] |}.

End Observable.

(** An argument of a fired event. *)
Inductive Arg : Type :=
| AString (s : string)
| ABool (b : bool).

(** One call of [fire]: the event, its arguments, the handlers notified. *)
Record Fired : Type := {
  event : string;
  args : list Arg;
  notified : list Observable.Handler
}.

(* ================================================================= *)
(** ** The controller and its world *)

Record Options : Type := {
  elkWorkerUrl : option string;
  groupColors : option (list (string * string))
}.

(** The fields of a [Diagram] instance.  A field that is [undefined]
    until some method assigns it is an [option]; [_container] is [null]
    until [render]. *)
Record Diagram : Type := {
  _observable : Observable.t;
  _options : Options;
  _groupColors : list (string * string);
  _container : option Dom.Selection;
  _svg : option Dom.Selection;
  _group : option Dom.Selection;
  _el : option Dom.Selection;
  _nodes : option (list Node);
  _edges : option (list Edge);
  _selectedNodeName : option string;
  _dragging : option bool;
  _mouseDownBB : option Rect
}.

(** [d3.event] while a listener runs; the related target is kept by its
    [tagName]. *)
Record PointerEvent : Type := { relatedTarget : option string }.

(** What the browser does beyond the part of its behaviour that is
    written out here.  [select_css] is [document.querySelector] (which
    may throw) on the selectors that are not ["#"] and a CSS identifier;
    [float_text] is the string of a number that is neither an integer
    below [2^53] nor [NaN] nor infinite; [member_text] is the string of a
    member of [Object.prototype]; [parse_html] is what the HTML parser
    makes of a string that is not plain text. *)
Record Engine : Type := {
  select_css : string -> Dom.Document -> Result Dom.Selection;
  float_text : float -> string;
  member_text : string -> string;
  parse_html : string -> Dom.Markup
}.

(** [String(n)] and [n + ""] for a number [n]. *)
Definition number_text (eng : Engine) (f : float) : string :=
  if is_nan f then "NaN"
  else match safe_integer f with
       | Some z => string_of_Z z
       | None =>
           if (f =? infinity)%float then "Infinity"
           else if (f =? neg_infinity)%float then "-Infinity"
           else float_text eng f
       end.

(** What the HTML parser makes of a string: plain text has no element. *)
Definition markup_of (eng : Engine) (s : string) : Dom.Markup :=
  if plain_text s then [] else parse_html eng s.

(** Everything a method can read or change: the instance, the page, the
    boxes the browser currently gives the elements, [d3.event], and the
    events fired so far; and the browser it runs in. *)
Record World : Type := {
  this : Diagram;
  document : Dom.Document;
  client_rects : nat -> Rect;
  d3_event : option PointerEvent;
  fired : list Fired;
  engine : Engine
}.

Definition with_this (d : Diagram) (w : World) : World :=
  {| this := d; document := document w; client_rects := client_rects w;
     d3_event := d3_event w; fired := fired w; engine := engine w |}.

Definition with_document (doc : Dom.Document) (w : World) : World :=
  {| this := this w; document := doc; client_rects := client_rects w;
     d3_event := d3_event w; fired := fired w; engine := engine w |}.

Definition with_d3_event (ev : option PointerEvent) (w : World) : World :=
  {| this := this w; document := document w; client_rects := client_rects w;
     d3_event := ev; fired := fired w; engine := engine w |}.

Definition with_fired (l : list Fired) (w : World) : World :=
  {| this := this w; document := document w; client_rects := client_rects w;
     d3_event := d3_event w; fired := l; engine := engine w |}.

(** The browser lays the page out again, or a script other than the
    widget changes it: the page and the boxes change, the instance and
    the log do not. *)
Definition browser_update (doc : Dom.Document) (rects : nat -> Rect) (w : World) : World :=
  {| this := this w; document := doc; client_rects := rects;
     d3_event := d3_event w; fired := fired w; engine := engine w |}.

(** A method: it ends normally or throws, and leaves a world either way. *)
Definition M (A : Type) : Type := World -> Result A * World.

Definition ret {A : Type} (a : A) : M A := fun w => (Ok a, w).

Definition throw {A : Type} (e : Exn) : M A := fun w => (Throw e, w).

Definition bind {A B : Type} (m : M A) (k : A -> M B) : M B :=
  fun w => match m w with
           | (Ok a, w') => k a w'
           | (Throw e, w') => (Throw e, w')
           end.

Notation "x <- m ;; k" := (bind m (fun x => k))
  (at level 61, m at next level, right associativity).
Notation "m ;; k" := (bind m (fun _ => k))
  (at level 61, right associativity).

Definition get_this : M Diagram := fun w => (Ok (this w), w).

Definition get_engine : M Engine := fun w => (Ok (engine w), w).

Definition set_this (f : Diagram -> Diagram) : M unit :=
  fun w => (Ok tt, with_this (f (this w)) w).

(** Reading a field that holds an object: [undefined] makes the next
    property access a [TypeError]. *)
Definition defined {A : Type} (field : Diagram -> option A) : M A :=
  fun w => match field (this w) with
           | Some a => (Ok a, w)
           | None => (Throw TypeError, w)
           end.

(** [Array.prototype.forEach] with the [(element, index)] callback. *)
Fixpoint forEach_from {A : Type} (i : nat) (f : A -> nat -> M unit) (l : list A) : M unit :=
  match l with
  | [] => ret tt
  | a :: rest => f a i ;; forEach_from (S i) f rest
  end.

Definition forEach {A : Type} (l : list A) (f : A -> nat -> M unit) : M unit :=
  forEach_from 0 f l.

(** *** d3 on the page *)

Definition d3_append (sel : Dom.Selection) (t : string) : M Dom.Selection :=
  fun w => let (s, doc) := Dom.append sel t (document w) in (Ok s, with_document doc w).

Definition d3_edit (sel : Dom.Selection) (ed : Dom.Edit) : M unit :=
  fun w => (Ok tt, with_document (Dom.update sel ed (document w)) w).

(** [.attr(n, f)] with a function: [f] runs once for the selected
    element, and not at all on an empty selection. *)
Definition d3_attr_fn (sel : Dom.Selection) (n : string) (f : Engine -> Result string) :
    M unit :=
  match sel with
  | None => ret tt
  | Some _ =>
      fun w => match f (engine w) with
               | Ok v => d3_edit sel (Dom.SetAttr n v) w
               | Throw e => throw e w
               end
  end.

(** The numbers [n] for which [n + "px"] is a length that the browser
    takes for a width or a height: the finite ones that are not
    negative.  It refuses ["NaNpx"], ["Infinitypx"], ["-Infinitypx"] and
    negative lengths there. *)
Definition valid_length (f : float) : bool :=
  ((0 <=? f) && (f <? infinity))%float.

(** [selection.style(n, f + "px")] for the width and the height:
    [style.setProperty] leaves the style as it is when the value is not
    one the property can take. *)
Definition d3_style_length (sel : Dom.Selection) (n : string) (f : float) : M unit :=
  fun w =>
    if valid_length f
    then d3_edit sel (Dom.SetStyle n (number_text (engine w) f ++ "px")) w
    else (Ok tt, w).

(** [selection.html(s)] *)
Definition d3_html (sel : Dom.Selection) (s : string) : M unit :=
  fun w => (Ok tt,
            with_document (Dom.set_html sel s (markup_of (engine w) s) (document w)) w).

Definition d3_html_empty (sel : Dom.Selection) : M unit :=
  fun w => (Ok tt, with_document (Dom.empty sel (document w)) w).

Definition d3_remove (sel : Dom.Selection) : M unit :=
  fun w => (Ok tt, with_document (Dom.remove sel (document w)) w).

(** What [d3.select("#" + i)] gives: the element of id [i] when [i] is
    a CSS identifier, and otherwise whatever the selector engine makes of
    the string, which may well be no selector at all. *)
Definition selected_by_id (i : string) (w : World) : Result Dom.Selection :=
  if css_identifier i
  then Ok (Dom.select_id i (document w))
  else select_css (engine w) ("#" ++ i) (document w).

Definition d3_select_id (i : string) : M Dom.Selection :=
  fun w => (selected_by_id i w, w).

Definition d3_select_class (c : string) : M Dom.Selection :=
  fun w => (Ok (Dom.select_class c (document w)), w).

Definition document_getElementById (i : string) : M Dom.Selection :=
  fun w => (Ok (Dom.getElementById i (document w)), w).

(** [observable.fire(ev, ...args)] *)
Definition observable_fire (ev : string) (a : list Arg) : M unit :=
  fun w => (Ok tt,
            with_fired (fired w ++ [{| event := ev; args := a;
                                       notified := Observable.fire ev (_observable (this w)) |}])%list w).

(* ================================================================= *)
(** ** The methods of [Diagram] *)

(** How the embedder's selector resolves under [d3.select]: a string
    that is no selector makes [d3.select] throw, a selector can match
    nothing, or it designates an element of the page. *)
Inductive Target : Type :=
| BadSelector
| Unmatched
| Mount (k : nat).

(** The entries of [_getEdgeOverlay]'s table. *)
Record Overlay : Type := {
  overlay_name : string;
  overlay_location : Z;
  overlay_width : Z;
  overlay_length : Z
}.

Definition set_observable (o : Observable.t) (d : Diagram) : Diagram :=
  {| _observable := o; _options := _options d; _groupColors := _groupColors d;
     _container := _container d; _svg := _svg d; _group := _group d; _el := _el d;
     _nodes := _nodes d; _edges := _edges d;
     _selectedNodeName := _selectedNodeName d; _dragging := _dragging d;
     _mouseDownBB := _mouseDownBB d |}.

Definition set_container (s : Dom.Selection) (d : Diagram) : Diagram :=
  {| _observable := _observable d; _options := _options d; _groupColors := _groupColors d;
     _container := Some s; _svg := _svg d; _group := _group d; _el := _el d;
     _nodes := _nodes d; _edges := _edges d;
     _selectedNodeName := _selectedNodeName d; _dragging := _dragging d;
     _mouseDownBB := _mouseDownBB d |}.

Definition set_svg (s : Dom.Selection) (d : Diagram) : Diagram :=
  {| _observable := _observable d; _options := _options d; _groupColors := _groupColors d;
     _container := _container d; _svg := Some s; _group := _group d; _el := _el d;
     _nodes := _nodes d; _edges := _edges d;
     _selectedNodeName := _selectedNodeName d; _dragging := _dragging d;
     _mouseDownBB := _mouseDownBB d |}.

Definition set_group (s : Dom.Selection) (d : Diagram) : Diagram :=
  {| _observable := _observable d; _options := _options d; _groupColors := _groupColors d;
     _container := _container d; _svg := _svg d; _group := Some s; _el := _el d;
     _nodes := _nodes d; _edges := _edges d;
     _selectedNodeName := _selectedNodeName d; _dragging := _dragging d;
     _mouseDownBB := _mouseDownBB d |}.

Definition set_el (s : Dom.Selection) (d : Diagram) : Diagram :=
  {| _observable := _observable d; _options := _options d; _groupColors := _groupColors d;
     _container := _container d; _svg := _svg d; _group := _group d; _el := Some s;
     _nodes := _nodes d; _edges := _edges d;
     _selectedNodeName := _selectedNodeName d; _dragging := _dragging d;
     _mouseDownBB := _mouseDownBB d |}.

Definition set_nodes (l : list Node) (d : Diagram) : Diagram :=
  {| _observable := _observable d; _options := _options d; _groupColors := _groupColors d;
     _container := _container d; _svg := _svg d; _group := _group d; _el := _el d;
     _nodes := Some l; _edges := _edges d;
     _selectedNodeName := _selectedNodeName d; _dragging := _dragging d;
     _mouseDownBB := _mouseDownBB d |}.

Definition set_edges (l : list Edge) (d : Diagram) : Diagram :=
  {| _observable := _observable d; _options := _options d; _groupColors := _groupColors d;
     _container := _container d; _svg := _svg d; _group := _group d; _el := _el d;
     _nodes := _nodes d; _edges := Some l;
     _selectedNodeName := _selectedNodeName d; _dragging := _dragging d;
     _mouseDownBB := _mouseDownBB d |}.

Definition set_selectedNodeName (n : string) (d : Diagram) : Diagram :=
  {| _observable := _observable d; _options := _options d; _groupColors := _groupColors d;
     _container := _container d; _svg := _svg d; _group := _group d; _el := _el d;
     _nodes := _nodes d; _edges := _edges d;
     _selectedNodeName := Some n; _dragging := _dragging d;
     _mouseDownBB := _mouseDownBB d |}.

Definition set_dragging (b : bool) (d : Diagram) : Diagram :=
  {| _observable := _observable d; _options := _options d; _groupColors := _groupColors d;
     _container := _container d; _svg := _svg d; _group := _group d; _el := _el d;
     _nodes := _nodes d; _edges := _edges d;
     _selectedNodeName := _selectedNodeName d; _dragging := Some b;
     _mouseDownBB := _mouseDownBB d |}.

Definition set_mouseDownBB (r : Rect) (d : Diagram) : Diagram :=
  {| _observable := _observable d; _options := _options d; _groupColors := _groupColors d;
     _container := _container d; _svg := _svg d; _group := _group d; _el := _el d;
     _nodes := _nodes d; _edges := _edges d;
     _selectedNodeName := _selectedNodeName d; _dragging := _dragging d;
     _mouseDownBB := Some r |}.

(** [new Diagram(options)] *)
Definition constructor (options : option Options) : Result Diagram :=
  match options with
  | None => Throw TypeError
  | Some o =>
      match elkWorkerUrl o with
      | None => Throw (Thrown "ELK worker URL has to be specified")
      | Some url =>
          if url =? "" then Throw (Thrown "ELK worker URL has to be specified")
          else Ok {| _observable := Observable.create ["nodeClick"; "nodeHighlight"];
                     _options := o;
                     _groupColors := match groupColors o with
                                     | Some g => g
                                     | None => []
                                     end;
                     _container := None; _svg := None; _group := None; _el := None;
                     _nodes := None; _edges := None;
                     _selectedNodeName := None; _dragging := None;
                     _mouseDownBB := None |}
      end
  end.

Section Methods.

Variable style : StyleSheet.

Definition on (eventName : string) (handler : Observable.Handler) : M unit :=
  set_this (fun d => set_observable (Observable.on eventName handler (_observable d)) d).

Definition off (eventName : string) (handler : Observable.Handler) : M unit :=
  set_this (fun d => set_observable (Observable.off eventName handler (_observable d)) d).

Definition destroy : M unit :=
  set_this (fun d => set_observable (Observable.destroy (_observable d)) d) ;;
  el <- defined _el ;;
  d3_remove el ;;
  group <- defined _group ;;
  d3_remove group.

Definition d3_select (target : Target) : M Dom.Selection :=
  match target with
  | BadSelector => throw (Thrown "SyntaxError")
  | Unmatched => ret None
  | Mount k => ret (Some k)
  end.

Definition render (selector : Target) : M unit :=
  container <- d3_select selector ;;
  set_this (set_container container) ;;
  svg <- d3_append container "svg" ;;
  d3_edit svg (Dom.SetStyle "position" "absolute") ;;
  d3_edit svg (Dom.SetAttr "pointer-events" "none") ;;
  set_this (set_svg svg) ;;
  group <- d3_append svg "g" ;;
  set_this (set_group group) ;;
  defs <- d3_append group "defs" ;;
  marker <- d3_append defs "marker" ;;
  d3_edit marker (Dom.SetAttr "id" "end") ;;
  d3_edit marker (Dom.SetAttr "viewBox" "0 -5 10 10") ;;
  d3_edit marker (Dom.SetAttr "refX" "10") ;;
  d3_edit marker (Dom.SetAttr "refY" "0") ;;
  d3_edit marker (Dom.SetAttr "markerWidth" "4") ;;
  d3_edit marker (Dom.SetAttr "markerHeight" "4") ;;
  d3_edit marker (Dom.SetAttr "orient" "auto") ;;
  d3_edit marker (Dom.SetStyle "fill" "#546E7A") ;;
  d3_edit marker (Dom.SetStyle "stroke-opacity" "0.6") ;;
  path <- d3_append marker "path" ;;
  d3_edit path (Dom.SetAttr "d" "M0,-5L10,0L0,5") ;;
  el <- d3_append container "div" ;;
  d3_edit el (Dom.Classed (diagram style) true) ;;
  set_this (set_el el).

Definition _getRootProperties : list (string * string) :=
  [("algorithm", "layered"); ("direction", "RIGHT")].

Definition _getElkGraph : M ElkGraph :=
  ns <- defined _nodes ;;
  es <- defined _edges ;;
  ret {| graph_id := "root";
         properties := _getRootProperties;
         children := map (fun node => {| child_id := name node;
                                         child_width := 200;
                                         child_height := 50 |}) ns;
         graph_edges := mapi (fun edge index =>
                                {| edge_id := "edge_" ++ string_of_nat index;
                                   sources := [start edge];
                                   targets := [end_ edge] |}) es |}.

Definition _setGraphSize (ns : list LayoutChild) : M unit :=
  let maxHeight := Math_max (map (fun n => y n + height n)%float ns) in
  let maxWidth := Math_max (map (fun n => x n + width n)%float ns) in
  eng <- get_engine ;;
  el <- defined _el ;;
  d3_style_length el "width" maxWidth ;;
  d3_style_length el "height" maxHeight ;;
  svg <- defined _svg ;;
  d3_edit svg (Dom.SetAttr "width" (number_text eng maxWidth)) ;;
  d3_edit svg (Dom.SetAttr "height" (number_text eng maxHeight)).

(** [this._groupColors[node.group] || "#2196F3"], as the string it is in
    the style of the node: an own color that is not the empty string,
    the text of a member of [Object.prototype] when the group is named
    like one and has no color of its own, and the default otherwise. *)
Definition node_color (eng : Engine) (colors : list (string * string)) (n : Node) : string :=
  let k := match group n with
           | Some g => g
           | None => "undefined"
           end in
  match js_get k colors with
  | Own c => if c =? "" then "#2196F3" else c
  | Inherited member => member_text eng member
  | Missing => "#2196F3"
  end.

Definition _renderNode (n : Node) (styles : list (string * float)) : M unit :=
  d <- get_this ;;
  eng <- get_engine ;;
  let color := node_color eng (_groupColors d) n in
  let styleStr :=
    join ";" (map (fun kv => fst kv ++ ":" ++ number_text eng (snd kv) ++ "px") styles)
    ++ "; background-color:" ++ color in
  el <- defined _el ;;
  nodeEl <- d3_append el "div" ;;
  d3_edit nodeEl (Dom.SetAttr "style" styleStr) ;;
  d3_edit nodeEl (Dom.SetClassAttr (node style)) ;;
  d3_edit nodeEl (Dom.SetAttr "id" (name n)) ;;
  d3_edit nodeEl (Dom.On "mousedown" (CallOnMouseDown (name n))) ;;
  d3_edit nodeEl (Dom.On "mouseup" (CallOnMouseUp (name n))) ;;
  d3_edit nodeEl (Dom.On "mouseover" (CallHighlightNode (name n) true)) ;;
  d3_edit nodeEl (Dom.On "mouseout" (CallHighlightNode (name n) false)) ;;
  textEl <- d3_append nodeEl "div" ;;
  d3_edit textEl (Dom.SetClassAttr (node_text style)) ;;
  i <- d3_append textEl "i" ;;
  d3_edit i (Dom.SetClassAttr ("zmdi " ++ match icon n with
                                          | Some s => s
                                          | None => "undefined"
                                          end)) ;;
  d3_edit i (Dom.Classed (icon_class style) true) ;;
  span <- d3_append textEl "span" ;;
  d3_html span (name n).

(** The lookup of [edge.type] in the object literal of overlays. *)
Definition _getEdgeOverlay (e : Edge) : Property (list Overlay) :=
  js_get (type e)
    [("arrow", [{| overlay_name := "PlainArrow"; overlay_location := 1;
                   overlay_width := 10; overlay_length := 10 |}]);
     ("link", [])].

(** The function given to [.attr("d", ...)] for the edge of index [i]. *)
Definition edge_path (layout : Layout) (i : nat) (eng : Engine) : Result string :=
  match nth_error (layout_edges layout) i with
  | None => Throw TypeError
  | Some le =>
      match nth_error (sections le) 0 with
      | None => Throw TypeError
      | Some d =>
          match startPoint d, endPoint d with
          | Some s, Some e =>
              Ok ("M" ++ number_text eng (px s) ++ " " ++ number_text eng (py s) ++ " "
                  ++ String.concat "" (map (fun bp => "L" ++ number_text eng (px bp) ++ " "
                                            ++ number_text eng (py bp) ++ " ")
                                 (match bendPoints d with
                                  | Some bps => bps
                                  | None => []
                                  end))
                  ++ "L" ++ number_text eng (px e) ++ " " ++ number_text eng (py e) ++ " ")
          | _, _ => Ok ""
          end
      end
  end.

(** The callback [_renderEdges] gives to [forEach]. *)
Definition _renderEdges_each (layout : Layout) (edge : Edge) (i : nat) : M unit :=
  group <- defined _group ;;
  link <- d3_append group "path" ;;
  d3_edit link (Dom.SetClassAttr "link") ;;
  d3_edit link (Dom.SetAttr "stroke" "#546E7A") ;;
  d3_edit link (Dom.SetAttr "stroke-width" "2") ;;
  d3_edit link (Dom.SetAttr "fill" "transparent") ;;
  d3_attr_fn link "d" (edge_path layout i) ;;
  if type edge =? "arrow"
  then d3_edit link (Dom.SetAttr "marker-end" "url(#end)")
  else ret tt.

Definition _renderEdges (layout : Layout) : M unit :=
  es <- defined _edges ;;
  forEach es (_renderEdges_each layout).

(** [_renderNodes] builds the request and hands it to [elk.layout]; the
    value returned here is that request, whose answer is awaited. *)
Definition _renderNodes : M ElkGraph :=
  _getElkGraph.

(** The callback given to [forEach] in the [then] of [_renderNodes]. *)
Definition _renderNodes_each (layout : Layout) (n : Node) (i : nat) : M unit :=
  match nth_error (layout_children layout) i with
  | None => throw TypeError
  | Some c =>
      _renderNode n [("top", y c); ("left", x c);
                     ("width", width c); ("height", height c)]
  end.

(** The callback [_renderNodes] gives to [then]: it runs when the layout
    engine answers, on the instance as it is at that moment. *)
Definition _renderNodes_then (layout : Layout) : M unit :=
  ns <- defined _nodes ;;
  forEach ns (_renderNodes_each layout) ;;
  _renderEdges layout ;;
  _setGraphSize (layout_children layout).

Definition selectNode (nodeName : string) (selected : bool) : M unit :=
  el <- document_getElementById nodeName ;;
  match el with
  | None => throw (Thrown ("Node " ++ nodeName
                           ++ " doesn't exist or graph hasn't been rendered yet"))
  | Some _ =>
      let nodeEl := el in
      let selectedClass := node_selected style in
      if selected
      then
        cur <- d3_select_class selectedClass ;;
        d3_edit cur (Dom.Classed selectedClass false) ;;
        d3_edit nodeEl (Dom.Classed selectedClass true) ;;
        set_this (set_selectedNodeName nodeName)
      else
        cur <- d3_select_class selectedClass ;;
        d3_edit cur (Dom.Classed selectedClass false)
  end.

Definition truthy (b : option bool) : bool :=
  match b with
  | Some true => true
  | _ => false
  end.

(** The guard of [highlightNode]:
    [this._dragging && d3.event.relatedTarget
     && d3.event.relatedTarget.tagName == "path"]. *)
Definition highlight_suppressed : M bool :=
  fun w =>
    if truthy (_dragging (this w))
    then match d3_event w with
         | None => (Throw TypeError, w)
         | Some ev =>
             match relatedTarget ev with
             | None => (Ok false, w)
             | Some tagName => (Ok (tagName =? "path"), w)
             end
         end
    else (Ok false, w).

Definition highlightNode (nodeName : string) (highlighted : bool) : M unit :=
  nodeEl <- d3_select_id nodeName ;;
  let highlightedClass := node_highlighted style in
  suppressed <- highlight_suppressed ;;
  if suppressed then ret tt
  else if highlighted
  then
    cur <- d3_select_class highlightedClass ;;
    d3_edit cur (Dom.Classed highlightedClass false) ;;
    d3_edit nodeEl (Dom.Classed highlightedClass true) ;;
    observable_fire "nodeHighlight" [AString nodeName; ABool highlighted]
  else
    cur <- d3_select_class highlightedClass ;;
    d3_edit cur (Dom.Classed highlightedClass false) ;;
    observable_fire "nodeHighlight" [AString nodeName; ABool highlighted].

(** [document.getElementById(nodeName).getBoundingClientRect()] *)
Definition bounding_box (nodeName : string) : M Rect :=
  fun w => match Dom.getElementById nodeName (document w) with
           | Some k => (Ok (client_rects w k), w)
           | None => (Throw TypeError, w)
           end.

Definition _onMouseDown (nodeName : string) : M unit :=
  set_this (set_dragging true) ;;
  bb <- bounding_box nodeName ;;
  set_this (set_mouseDownBB bb).

Definition _onMouseUp (nodeName : string) : M unit :=
  bb <- bounding_box nodeName ;;
  d <- get_this ;;
  (match _mouseDownBB d with
   | Some down =>
       if ((top down =? top bb)%Z && (left down =? left bb)%Z)%bool
       then observable_fire "nodeClick" [AString nodeName]
       else ret tt
   | None => ret tt
   end) ;;
  set_this (set_dragging false).

Definition setData (data : Data) : M ElkGraph :=
  d <- get_this ;;
  match _container d with
  | None => throw (Thrown "Diagram is not rendered")
  | Some _ =>
      el <- defined _el ;;
      d3_html_empty el ;;
      set_this (set_nodes (match nodes data with
                           | Some l => l
                           | None => []
                           end)) ;;
      set_this (set_edges (match edges data with
                           | Some l => l
                           | None => []
                           end)) ;;
      _renderNodes
  end.

(** A pointer event reaches the listener an element carries for it;
    [d3.event] is the event while the listener runs. *)
Definition run_listener (l : Listener) : M unit :=
  match l with
  | CallOnMouseDown n => _onMouseDown n
  | CallOnMouseUp n => _onMouseUp n
  | CallHighlightNode n b => highlightNode n b
  end.

Definition dispatch (kind : string) (k : nat) (ev : PointerEvent) : M unit :=
  fun w =>
    match Dom.lookup k (document w) with
    | None => (Ok tt, w)
    | Some e =>
        match assoc_get kind (Dom.listeners e) with
        | None => (Ok tt, w)
        | Some l =>
            let (r, w') := run_listener l (with_d3_event (Some ev) w) in
            (r, with_d3_event (d3_event w) w')
        end
    end.

End Methods.

(* ================================================================= *)
(** ** A page, a style sheet and a run of the widget *)

(** Running a method for the world it leaves. *)
Definition exec {A : Type} (m : M A) (w : World) : World := snd (m w).

Definition outcome {A : Type} (m : M A) (w : World) : Result A := fst (m w).

(** Class names as a CSS-modules build without renaming gives them. *)
Definition plain_css : StyleSheet :=
  {| diagram := "diagram"; node := "node"; node_selected := "node-selected";
     node_highlighted := "node-highlighted"; node_text := "node-text";
     icon_class := "icon" |}.

(** A page whose only element is the mount point [<div id="app">]. *)
Definition app_page : Dom.Document :=
  [Dom.apply_edit (Dom.SetAttr "id" "app") (Dom.create 0 0 "div")].

Definition zero_rect : Rect := {| top := 0; left := 0; rect_width := 0; rect_height := 0 |}.

(** A browser for the runs below, which all stay within the behaviour
    that is written out: it takes no other string for a selector, prints
    no other number, and finds no element in markup. *)
Definition demo_engine : Engine :=
  {| select_css := fun _ _ => Throw (Thrown "SyntaxError");
     float_text := fun _ => "";
     member_text := fun m => "function " ++ m ++ "() { [native code] }";
     parse_html := fun _ => [] |}.

Definition new_world (d : Diagram) : World :=
  {| this := d; document := app_page; client_rects := fun _ => zero_rect;
     d3_event := None; fired := []; engine := demo_engine |}.

Definition some_options : Options :=
  {| elkWorkerUrl := Some "elk-worker.min.js"; groupColors := None |}.

(** The instance [new Diagram({elkWorkerUrl: "elk-worker.min.js"})]. *)
Definition new_diagram : Diagram :=
  match constructor (Some some_options) with
  | Ok d => d
  | Throw _ =>
      {| _observable := Observable.create []; _options := some_options;
         _groupColors := []; _container := None; _svg := None; _group := None;
         _el := None; _nodes := None; _edges := None; _selectedNodeName := None;
         _dragging := None; _mouseDownBB := None |}
  end.

(** The widget rendered into [#app], before any data. *)
Definition rendered_world : World :=
  exec (render plain_css (Mount 0)) (new_world new_diagram).

Definition node_named (n : string) : Node :=
  {| name := n; group := None; icon := None |}.

(** [{nodes: [{name: "A"}, {name: "B"}], edges: [{start: "A", end: "B", type: "arrow"}]}] *)
Definition data_AB : Data :=
  {| nodes := Some [node_named "A"; node_named "B"];
     edges := Some [{| start := "A"; end_ := "B"; type := "arrow" |}] |}.

(** A layout for [data_AB]: two boxes side by side and a straight route. *)
Definition layout_AB : Layout :=
  {| layout_children := [{| x := 12; y := 12; width := 200; height := 50 |};
                         {| x := 232; y := 12; width := 200; height := 50 |}];
     layout_edges := [{| sections := [{| startPoint := Some {| px := 212; py := 37 |};
                                         endPoint := Some {| px := 232; py := 37 |};
                                         bendPoints := None |}] |}] |}.

(** [setData(data)] followed by the answer of the layout engine. *)
Definition setData_resolved (css : StyleSheet) (data : Data) (layout : Layout) : M unit :=
  setData data ;; _renderNodes_then css layout.

(** The widget showing [data_AB], laid out by [layout_AB]. *)
Definition shown_world : World :=
  exec (setData_resolved plain_css data_AB layout_AB) rendered_world.

(** [{nodes: [{name: "A"}, {name: "end"}], edges: [{start: "A", end: "end", type: "arrow"}]}]:
    a node carries the name that [render] gave the arrowhead marker as
    its id. *)
Definition data_end : Data :=
  {| nodes := Some [node_named "A"; node_named "end"];
     edges := Some [{| start := "A"; end_ := "end"; type := "arrow" |}] |}.

Definition shown_end_world : World :=
  exec (setData_resolved plain_css data_end layout_AB) rendered_world.

(** The boxes once the visual of the node "end" (the element 11 of
    [shown_end_world]) has been moved; every other element is where it
    was. *)
Definition end_moved_rects : nat -> Rect :=
  fun k => if (k =? 11)%nat
           then {| top := 40; left := 300; rect_width := 200; rect_height := 50 |}
           else zero_rect.

(** [{nodes: [{name: ""}], edges: []}] and a layout for it. *)
Definition data_unnamed : Data :=
  {| nodes := Some [node_named ""]; edges := Some [] |}.

Definition layout_one : Layout :=
  {| layout_children := [{| x := 12; y := 12; width := 200; height := 50 |}];
     layout_edges := [] |}.

Definition shown_unnamed_world : World :=
  exec (setData_resolved plain_css data_unnamed layout_one) rendered_world.

(* ================================================================= *)
(** ** The vocabulary of the statements *)

(** The node visuals: the children of the diagram element [_el]. *)
Definition node_visuals (w : World) : list Dom.Element :=
  match _el (this w) with
  | Some (Some k) => Dom.child_elements k (document w)
  | _ => []
  end.

(** The edge visuals: the [path] children of the group [_group]. *)
Definition edge_visuals (w : World) : list Dom.Element :=
  match _group (this w) with
  | Some (Some k) => filter (fun e => Dom.tag e =? "path") (Dom.child_elements k (document w))
  | _ => []
  end.

(** The elements of the page that carry a class. *)
Definition with_class (c : string) (doc : Dom.Document) : list Dom.Element :=
  filter (Dom.has_class c) doc.

(** The shape the spec gives the layout request of a dataset. *)
Definition request_for (ns : list Node) (es : list Edge) (g : ElkGraph) : Prop :=
  assoc_get "algorithm" (properties g) = Some "layered" /\
  assoc_get "direction" (properties g) = Some "RIGHT" /\
  List.length (children g) = List.length ns /\
  (forall i n, nth_error ns i = Some n ->
     nth_error (children g) i
     = Some {| child_id := name n; child_width := 200; child_height := 50 |}) /\
  List.length (graph_edges g) = List.length es /\
  (forall i e, nth_error es i = Some e ->
     nth_error (graph_edges g) i
     = Some {| edge_id := "edge_" ++ string_of_nat i;
               sources := [start e]; targets := [end_ e] |}).

(** The [marker-end] attribute of an element. *)
Definition marker_end (el : Dom.Element) : option string :=
  assoc_get "marker-end" (Dom.attrs el).

(** How an edge shows: a [path] of class [link] that refers to the
    arrowhead at its end when the edge is an "arrow", and carries no
    marker when it is a "link" or of any other type. *)
Definition edge_shown (edge : Edge) (el : Dom.Element) : Prop :=
  Dom.tag el = "path" /\
  Dom.classes el = ["link"] /\
  (type edge = "arrow" -> marker_end el = Some "url(#end)") /\
  (type edge = "link" -> marker_end el = None) /\
  (type edge <> "arrow" -> type edge <> "link" -> marker_end el = None).

(** The layout routes the first [m] edges: each has a first section. *)
Definition routed (layout : Layout) (m : nat) : Prop :=
  forall i, i < m ->
    exists le s, nth_error (layout_edges layout) i = Some le /\
                 nth_error (sections le) 0 = Some s.



(** The path element [_renderEdges] builds for an edge whose route is
    the string [p], before it is put in the page. *)
Definition path_element (k : nat) (p : string) (edge : Edge) : Dom.Element :=
  let e := Dom.apply_edit (Dom.SetAttr "d" p)
             (Dom.apply_edit (Dom.SetAttr "fill" "transparent")
                (Dom.apply_edit (Dom.SetAttr "stroke-width" "2")
                   (Dom.apply_edit (Dom.SetAttr "stroke" "#546E7A")
                      (Dom.apply_edit (Dom.SetClassAttr "link")
                         (Dom.create k 0 "path"))))) in
  if type edge =? "arrow"
  then Dom.apply_edit (Dom.SetAttr "marker-end" "url(#end)") e
  else e.

(** A step that only builds: it leaves the instance and the log alone
    and takes no element out of the page. *)
Definition grows (w w' : World) : Prop :=
  this w' = this w /\
  fired w' = fired w /\
  forall k, Dom.present k (document w) = true -> Dom.present k (document w') = true.

Definition building {A : Type} (m : M A) : Prop :=
  forall w r w', m w = (r, w') -> grows w w'.

(** The elements of a page have identities of their own. *)
Definition distinct_keys (doc : Dom.Document) : Prop :=
  NoDup (map Dom.key doc).

(** The guard of [highlightNode] holds: a drag is under way and the
    pointer comes from, or goes to, a [path]. *)
Definition suppressed (w : World) : Prop :=
  truthy (_dragging (this w)) = true /\
  exists ev, d3_event w = Some ev /\ relatedTarget ev = Some "path".

(** The guard of [highlightNode] fails: no drag is under way, or the
    event has no related target, or one that is no [path]. *)
Definition unsuppressed (w : World) : Prop :=
  truthy (_dragging (this w)) = false \/
  exists ev, d3_event w = Some ev /\ relatedTarget ev <> Some "path".

(** [shown_world] while the pointer enters an element from the mount. *)
Definition hovering_world : World :=
  with_d3_event (Some {| relatedTarget := Some "DIV" |}) shown_world.

(** A dataset with an edge of each kind: an arrow, a link, and an edge
    whose type is neither. *)
Definition edges_mixed : list Edge :=
  [{| start := "A"; end_ := "B"; type := "arrow" |};
   {| start := "B"; end_ := "C"; type := "link" |};
   {| start := "A"; end_ := "C"; type := "dashed" |}].

Definition data_mixed : Data :=
  {| nodes := Some [node_named "A"; node_named "B"; node_named "C"];
     edges := Some edges_mixed |}.

Definition straight (x1 y1 x2 y2 : float) : LayoutEdge :=
  {| sections := [{| startPoint := Some {| px := x1; py := y1 |};
                     endPoint := Some {| px := x2; py := y2 |};
                     bendPoints := None |}] |}.

Definition layout_mixed : Layout :=
  {| layout_children := [{| x := 12; y := 12; width := 200; height := 50 |};
                         {| x := 232; y := 12; width := 200; height := 50 |};
                         {| x := 452; y := 12; width := 200; height := 50 |}];
     layout_edges := [straight 212 37 232 37; straight 432 37 452 37;
                      {| sections := [{| startPoint := Some {| px := 212; py := 27 |};
                                         endPoint := Some {| px := 452; py := 27 |};
                                         bendPoints := Some [{| px := 222; py := 5 |};
                                                             {| px := 442; py := 5 |}] |}] |}] |}.

(** The rendered widget once [setData(data_mixed)] has returned, its
    layout still awaited. *)
Definition awaiting_mixed_world : World :=
  exec (setData data_mixed) rendered_world.

(** The rendered widget once [setData(data_AB)] has returned. *)
Definition awaiting_AB_world : World :=
  exec (setData data_AB) rendered_world.

(** A step under which the elements keep identities of their own. *)
Definition tidy {A : Type} (m : M A) : Prop :=
  forall w r w', distinct_keys (document w) -> m w = (r, w') ->
                 distinct_keys (document w').

(** A step that ends normally, and leaves the instance alone, whenever
    the instance satisfies [P]. *)
Definition sure (P : Diagram -> Prop) {A : Type} (m : M A) : Prop :=
  forall w, P (this w) -> exists a w', m w = (Ok a, w') /\ this w' = this w.

(** The layout answers the dataset: a box for every node, a first
    section for every edge. *)
Definition answers (layout : Layout) (ns : list Node) (es : list Edge) : Prop :=
  List.length ns <= List.length (layout_children layout) /\
  routed layout (List.length es).

(** The tags of the children of an element. *)
Definition kids (k : nat) (doc : Dom.Document) : list string :=
  map Dom.tag (Dom.child_elements k doc).

(** What of an element the tree is made of. *)
Definition skeleton (e : Dom.Element) : nat * nat * string :=
  (Dom.key e, Dom.depth e, Dom.tag e).

(** The element [g] lies inside the subtree of the element [el]. *)
Fixpoint inside (g el : nat) (doc : Dom.Document) : bool :=
  match doc with
  | [] => false
  | e :: rest =>
      if (Dom.key e =? el)%nat
      then existsb (fun c => Dom.key c =? g)%nat
                   (firstn (Dom.subtree_len (Dom.depth e) rest) rest)
      else inside g el rest
  end.

(** From a world that satisfies [P], the step [m] ends normally, with a
    value and in a world that satisfy [Q]. *)
Definition hoare {A : Type} (P : World -> Prop) (m : M A) (Q : A -> World -> Prop) : Prop :=
  forall w, P w -> exists a w', m w = (Ok a, w') /\ Q a w'.

(** The instance is [d]; the diagram element [el] and the group [g] are
    in the page, with children of tags [nodes] and [paths]. *)
Definition shows (d : Diagram) (el g : nat) (nodes paths : list string) (w : World) : Prop :=
  this w = d /\
  Dom.present el (document w) = true /\
  Dom.present g (document w) = true /\
  kids el (document w) = nodes /\
  kids g (document w) = paths.

(** A selection that is neither the diagram element nor the group. *)
Definition apart (el g : nat) (sel : Dom.Selection) : Prop :=
  sel <> Some el /\ sel <> Some g.

(** The instance is [d], and the page and the log are as given. *)
Definition still (doc : Dom.Document) (log : list Fired) (d : Diagram) (w : World) : Prop :=
  document w = doc /\ fired w = log /\ this w = d.

(** The log entries of the two public events. *)
Definition nodeClick_of (w : World) (nodeName : string) : Fired :=
  {| event := "nodeClick"; args := [AString nodeName];
     notified := Observable.fire "nodeClick" (_observable (this w)) |}.

Definition nodeHighlight_of (w : World) (nodeName : string) (highlighted : bool) : Fired :=
  {| event := "nodeHighlight"; args := [AString nodeName; ABool highlighted];
     notified := Observable.fire "nodeHighlight" (_observable (this w)) |}.

(** The widget showing [data_AB] a second time: [setData] is called again
    once the first layout has been applied. *)
Definition shown_again_world : World :=
  exec (setData_resolved plain_css data_AB layout_AB) shown_world.

(** [shown_world] after [selectNode("A", true)]. *)
Definition selected_A_world : World :=
  exec (selectNode plain_css "A" true) shown_world.

(** The ids of the elements that carry a class. *)
Definition ids_with_class (c : string) (w : World) : list (option string) :=
  map Dom.id_of (with_class c (document w)).

Definition tags_with_class (c : string) (w : World) : list string :=
  map Dom.tag (with_class c (document w)).

(** *** What [_renderNode] builds *)

(** The style string of a node visual: the box of the layout, in the
    order [_renderNodes] lists it, and the color. *)
Definition node_style (eng : Engine) (top_ left_ width_ height_ : float) (color : string) :
    string :=
  "top:" ++ number_text eng top_ ++ "px;left:" ++ number_text eng left_
  ++ "px;width:" ++ number_text eng width_ ++ "px;height:" ++ number_text eng height_
  ++ "px; background-color:" ++ color.

(** The four elements [_renderNode] appends, as they are once all their
    attributes are set: the node, its text, its icon and its label. *)
Definition node_div (css : StyleSheet) (eng : Engine) (colors : list (string * string))
    (n : Node) (styles : list (string * float)) (k : nat) : Dom.Element :=
  Dom.apply_edit (Dom.On "mouseout" (CallHighlightNode (name n) false))
    (Dom.apply_edit (Dom.On "mouseover" (CallHighlightNode (name n) true))
       (Dom.apply_edit (Dom.On "mouseup" (CallOnMouseUp (name n)))
          (Dom.apply_edit (Dom.On "mousedown" (CallOnMouseDown (name n)))
             (Dom.apply_edit (Dom.SetAttr "id" (name n))
                (Dom.apply_edit (Dom.SetClassAttr (node css))
                   (Dom.apply_edit
                      (Dom.SetAttr "style"
                         (join ";" (map (fun kv => fst kv ++ ":"
                                                   ++ number_text eng (snd kv)
                                                   ++ "px") styles)
                          ++ "; background-color:" ++ node_color eng colors n))
                      (Dom.create k 0 "div"))))))).

Definition node_text_div (css : StyleSheet) (k : nat) : Dom.Element :=
  Dom.apply_edit (Dom.SetClassAttr (node_text css)) (Dom.create k 0 "div").

Definition node_icon (css : StyleSheet) (n : Node) (k : nat) : Dom.Element :=
  Dom.apply_edit (Dom.Classed (icon_class css) true)
    (Dom.apply_edit (Dom.SetClassAttr ("zmdi " ++ match icon n with
                                                  | Some s => s
                                                  | None => "undefined"
                                                  end))
       (Dom.create k 0 "i")).

Definition node_label (n : Node) (k : nat) : Dom.Element :=
  Dom.apply_edit (Dom.SetHtml (name n)) (Dom.create k 0 "span").

(** The page once [_renderNode] has appended a node under [el]: the
    four elements, and below the label what the HTML parser makes of the
    name of the node. *)
Definition page_with_node (css : StyleSheet) (eng : Engine) (colors : list (string * string))
    (n : Node) (styles : list (string * float)) (el : nat) (doc : Dom.Document) :
    Dom.Document :=
  let k1 := Dom.fresh doc in
  let doc1 := Dom.insert_child el (node_div css eng colors n styles k1) doc in
  let k2 := Dom.fresh doc1 in
  let doc2 := Dom.insert_child k1 (node_text_div css k2) doc1 in
  let k3 := Dom.fresh doc2 in
  let doc3 := Dom.insert_child k2 (node_icon css n k3) doc2 in
  let k4 := Dom.fresh doc3 in
  Dom.graft [] k4 (markup_of eng (name n)) (Dom.insert_child k2 (node_label n k4) doc3).

(** What shows of a node visual. *)
Record NodeView : Type := {
  view_tag : string;
  view_id : option string;
  view_style : option string;
  view_classes : list string;
  view_listeners : list (string * Listener)
}.

Definition node_view (e : Dom.Element) : NodeView :=
  {| view_tag := Dom.tag e;
     view_id := Dom.id_of e;
     view_style := assoc_get "style" (Dom.attrs e);
     view_classes := Dom.classes e;
     view_listeners := Dom.listeners e |}.

(** The node [n], laid out in the box [c], shows as [v]. *)
Definition node_shown (css : StyleSheet) (eng : Engine) (colors : list (string * string))
    (nc : Node * LayoutChild) (v : NodeView) : Prop :=
  view_tag v = "div" /\
  view_id v = Some (name (fst nc)) /\
  view_style v = Some (node_style eng (y (snd nc)) (x (snd nc)) (width (snd nc))
                         (height (snd nc)) (node_color eng colors (fst nc))) /\
  view_classes v = class_tokens (node css) /\
  assoc_get "mousedown" (view_listeners v) = Some (CallOnMouseDown (name (fst nc))) /\
  assoc_get "mouseup" (view_listeners v) = Some (CallOnMouseUp (name (fst nc))) /\
  assoc_get "mouseover" (view_listeners v) = Some (CallHighlightNode (name (fst nc)) true) /\
  assoc_get "mouseout" (view_listeners v) = Some (CallHighlightNode (name (fst nc)) false).

(** An element with its place in the tree and what shows of it. *)
Definition placed_view (e : Dom.Element) : nat * nat * NodeView :=
  (Dom.key e, Dom.depth e, node_view e).

(** *** What [render] builds *)

(** The elements [render] appends, as they are once their attributes
    are set. *)
Definition svg_element (k : nat) : Dom.Element :=
  Dom.apply_edit (Dom.SetAttr "pointer-events" "none")
    (Dom.apply_edit (Dom.SetStyle "position" "absolute") (Dom.create k 0 "svg")).

Definition marker_element (k : nat) : Dom.Element :=
  Dom.apply_edit (Dom.SetStyle "stroke-opacity" "0.6")
    (Dom.apply_edit (Dom.SetStyle "fill" "#546E7A")
       (Dom.apply_edit (Dom.SetAttr "orient" "auto")
          (Dom.apply_edit (Dom.SetAttr "markerHeight" "4")
             (Dom.apply_edit (Dom.SetAttr "markerWidth" "4")
                (Dom.apply_edit (Dom.SetAttr "refY" "0")
                   (Dom.apply_edit (Dom.SetAttr "refX" "10")
                      (Dom.apply_edit (Dom.SetAttr "viewBox" "0 -5 10 10")
                         (Dom.apply_edit (Dom.SetAttr "id" "end")
                            (Dom.create k 0 "marker"))))))))).

Definition marker_path (k : nat) : Dom.Element :=
  Dom.apply_edit (Dom.SetAttr "d" "M0,-5L10,0L0,5") (Dom.create k 0 "path").

Definition diagram_element (css : StyleSheet) (k : nat) : Dom.Element :=
  Dom.apply_edit (Dom.Classed (diagram css) true) (Dom.create k 0 "div").

(** The elements of the widget and the page that holds them. *)
Record Scaffold : Type := {
  svg_key : nat;
  group_key : nat;
  defs_key : nat;
  marker_key : nat;
  path_key : nat;
  el_key : nat;
  page : Dom.Document
}.

(** The page once [render] has built the widget under [mount]. *)
Definition scaffold (css : StyleSheet) (mount : nat) (doc : Dom.Document) : Scaffold :=
  let k1 := Dom.fresh doc in
  let doc1 := Dom.insert_child mount (svg_element k1) doc in
  let k2 := Dom.fresh doc1 in
  let doc2 := Dom.insert_child k1 (Dom.create k2 0 "g") doc1 in
  let k3 := Dom.fresh doc2 in
  let doc3 := Dom.insert_child k2 (Dom.create k3 0 "defs") doc2 in
  let k4 := Dom.fresh doc3 in
  let doc4 := Dom.insert_child k3 (marker_element k4) doc3 in
  let k5 := Dom.fresh doc4 in
  let doc5 := Dom.insert_child k4 (marker_path k5) doc4 in
  let k6 := Dom.fresh doc5 in
  {| svg_key := k1; group_key := k2; defs_key := k3; marker_key := k4;
     path_key := k5; el_key := k6;
     page := Dom.insert_child mount (diagram_element css k6) doc5 |}.

(* ================================================================= *)
(** ** Running the monad *)

Open Scope list_scope.

Lemma bind_ok {A B : Type} (m : M A) (k : A -> M B) (w w' : World) (a : A) :
  m w = (Ok a, w') -> bind m k w = k a w'.
Proof. intros H. unfold bind. now rewrite H. Qed.

Lemma defined_some {A : Type} (field : Diagram -> option A) (w : World) (a : A) :
  field (this w) = Some a -> defined field w = (Ok a, w).
Proof. intros H. unfold defined. now rewrite H. Qed.


(* ================================================================= *)
(** ** Facts about the page *)

Lemma apply_edit_key (ed : Dom.Edit) (e : Dom.Element) :
  Dom.key (Dom.apply_edit ed e) = Dom.key e.
Proof. destruct ed; reflexivity. Qed.

Lemma apply_edit_depth (ed : Dom.Edit) (e : Dom.Element) :
  Dom.depth (Dom.apply_edit ed e) = Dom.depth e.
Proof. destruct ed; reflexivity. Qed.

Lemma apply_edit_tag (ed : Dom.Edit) (e : Dom.Element) :
  Dom.tag (Dom.apply_edit ed e) = Dom.tag e.
Proof. destruct ed; reflexivity. Qed.

Lemma place_apply_edit (d : nat) (ed : Dom.Edit) (e : Dom.Element) :
  Dom.place d (Dom.apply_edit ed e) = Dom.apply_edit ed (Dom.place d e).
Proof. destruct ed; reflexivity. Qed.

Lemma present_true (k : nat) (doc : Dom.Document) :
  Dom.present k doc = true <-> exists e, In e doc /\ Dom.key e = k.
Proof.
  unfold Dom.present. rewrite existsb_exists.
  split; intros [e [Hin He]]; exists e; split; auto.
  - now apply Nat.eqb_eq.
  - now apply Nat.eqb_eq.
Qed.

Lemma fresh_above (doc : Dom.Document) (e : Dom.Element) :
  In e doc -> Dom.key e < Dom.fresh doc.
Proof.
  intros Hin. unfold Dom.fresh.
  assert (H : Forall (fun k => k <= list_max (map Dom.key doc)) (map Dom.key doc))
    by (apply list_max_le; apply Nat.le_refl).
  rewrite Forall_forall in H.
  specialize (H (Dom.key e) (in_map Dom.key doc e Hin)). lia.
Qed.

Lemma fresh_absent (doc : Dom.Document) (e : Dom.Element) :
  In e doc -> Dom.key e <> Dom.fresh doc.
Proof. intros Hin. pose proof (fresh_above doc e Hin). lia. Qed.

Lemma insert_child_keeps (p : nat) (c e : Dom.Element) (doc : Dom.Document) :
  In e doc -> In e (Dom.insert_child p c doc).
Proof.
  induction doc as [|e0 rest IH]; intros Hin; [contradiction|]. simpl.
  destruct (Dom.key e0 =? p)%nat.
  - destruct Hin as [->|Hin]; [now left|]. right.
    rewrite <- (firstn_skipn (Dom.subtree_len (Dom.depth e0) rest) rest) in Hin.
    apply in_app_or in Hin. apply in_or_app.
    destruct Hin as [H|H]; [now left | right; now right].
  - destruct Hin as [->|Hin]; [now left | right; auto].
Qed.

Lemma present_insert_child (k p : nat) (c : Dom.Element) (doc : Dom.Document) :
  Dom.present k doc = true -> Dom.present k (Dom.insert_child p c doc) = true.
Proof.
  rewrite !present_true. intros [e [Hin He]].
  exists e. split; [now apply insert_child_keeps | exact He].
Qed.

Lemma update_key_keys (k : nat) (ed : Dom.Edit) (doc : Dom.Document) :
  map Dom.key (Dom.update_key k (Dom.apply_edit ed) doc) = map Dom.key doc.
Proof.
  induction doc as [|e rest IH]; [reflexivity|]. simpl.
  destruct (Dom.key e =? k)%nat; simpl.
  - now rewrite apply_edit_key.
  - now rewrite IH.
Qed.

Lemma present_keys (k : nat) (doc : Dom.Document) :
  Dom.present k doc = existsb (fun n => n =? k)%nat (map Dom.key doc).
Proof.
  unfold Dom.present. induction doc as [|e rest IH]; [reflexivity|].
  simpl. now rewrite IH.
Qed.

Lemma present_update_key (k k' : nat) (ed : Dom.Edit) (doc : Dom.Document) :
  Dom.present k (Dom.update_key k' (Dom.apply_edit ed) doc) = Dom.present k doc.
Proof. now rewrite !present_keys, update_key_keys. Qed.


Lemma in_firstn_in {A : Type} (n : nat) (l : list A) (a : A) :
  In a (firstn n l) -> In a l.
Proof.
  intros H. rewrite <- (firstn_skipn n l). apply in_or_app. now left.
Qed.

Lemma update_key_middle (k : nat) (f : Dom.Element -> Dom.Element)
    (l1 l2 : Dom.Document) (c : Dom.Element) :
  (forall e, In e l1 -> Dom.key e <> k) ->
  Dom.key c = k ->
  Dom.update_key k f (l1 ++ c :: l2) = (l1 ++ f c :: l2)%list.
Proof.
  intros H Hc. induction l1 as [|e rest IH]; simpl.
  - now rewrite Hc, Nat.eqb_refl.
  - destruct (Dom.key e =? k)%nat eqn:E.
    + apply Nat.eqb_eq in E. exfalso. apply (H e); [now left | exact E].
    + f_equal. apply IH. intros e' Hin. apply H. now right.
Qed.

(** Editing an element that was just appended is appending the edited
    element. *)
Lemma update_insert_fresh (k p : nat) (ed : Dom.Edit) (c : Dom.Element) (doc : Dom.Document) :
  Dom.key c = k ->
  (forall e, In e doc -> Dom.key e <> k) ->
  Dom.update_key k (Dom.apply_edit ed) (Dom.insert_child p c doc)
  = Dom.insert_child p (Dom.apply_edit ed c) doc.
Proof.
  intros Hc. induction doc as [|e rest IH]; intros H; [reflexivity|]. simpl.
  assert (He : (Dom.key e =? k)%nat = false)
    by (apply Nat.eqb_neq; apply H; now left).
  destruct (Dom.key e =? p)%nat; simpl; rewrite He; f_equal.
  - rewrite update_key_middle.
    + now rewrite place_apply_edit.
    + intros e' Hin. apply H. right. eapply in_firstn_in. exact Hin.
    + exact Hc.
  - apply IH. intros e' Hin. apply H. now right.
Qed.

Lemma lookup_update_key (k k' : nat) (ed : Dom.Edit) (doc : Dom.Document) :
  Dom.lookup k (Dom.update_key k' (Dom.apply_edit ed) doc)
  = if (k =? k')%nat then option_map (Dom.apply_edit ed) (Dom.lookup k doc)
    else Dom.lookup k doc.
Proof.
  unfold Dom.lookup. induction doc as [|e rest IH]; simpl.
  - now destruct (k =? k')%nat.
  - destruct (Dom.key e =? k')%nat eqn:E'; simpl.
    + rewrite apply_edit_key. apply Nat.eqb_eq in E'.
      destruct (Dom.key e =? k)%nat eqn:E.
      * apply Nat.eqb_eq in E.
        assert (Hk : (k =? k')%nat = true) by (apply Nat.eqb_eq; congruence).
        now rewrite Hk.
      * assert (Hk : (k =? k')%nat = false)
          by (apply Nat.eqb_neq; apply Nat.eqb_neq in E; congruence).
        now rewrite Hk.
    + destruct (Dom.key e =? k)%nat eqn:E.
      * apply Nat.eqb_eq in E. apply Nat.eqb_neq in E'.
        assert (Hk : (k =? k')%nat = false) by (apply Nat.eqb_neq; congruence).
        now rewrite Hk.
      * exact IH.
Qed.

Lemma lookup_present (k : nat) (doc : Dom.Document) :
  Dom.present k doc = true -> exists e, Dom.lookup k doc = Some e.
Proof.
  unfold Dom.present, Dom.lookup.
  induction doc as [|e rest IH]; simpl; [discriminate|].
  destruct (Dom.key e =? k)%nat; simpl; [eauto | exact IH].
Qed.

Lemma subtree_len_insert (d : nat) (c : Dom.Element) (rest : Dom.Document) :
  d < Dom.depth c ->
  Dom.subtree_len d
    (firstn (Dom.subtree_len d rest) rest ++ c :: skipn (Dom.subtree_len d rest) rest)
  = S (Dom.subtree_len d rest).
Proof.
  intros Hc. induction rest as [|e rest IH]; simpl.
  - apply Nat.ltb_lt in Hc. now rewrite Hc.
  - destruct (d <? Dom.depth e)%nat eqn:E; simpl.
    + rewrite E. now rewrite IH.
    + apply Nat.ltb_lt in Hc. rewrite Hc. simpl. now rewrite E.
Qed.

Lemma subtree_len_le (d : nat) (rest : Dom.Document) :
  Dom.subtree_len d rest <= List.length rest.
Proof.
  induction rest as [|e rest IH]; simpl; [lia|].
  destruct (d <? Dom.depth e)%nat; simpl; lia.
Qed.

(** Appending under an element adds one child at the end of its children. *)
Lemma child_elements_insert (g : nat) (c e0 : Dom.Element) (doc : Dom.Document) :
  Dom.lookup g doc = Some e0 ->
  Dom.child_elements g (Dom.insert_child g c doc)
  = (Dom.child_elements g doc ++ [Dom.place (S (Dom.depth e0)) c])%list.
Proof.
  unfold Dom.lookup. induction doc as [|e rest IH]; simpl; [discriminate|].
  destruct (Dom.key e =? g)%nat eqn:E; simpl.
  - intros H. injection H as ->. rewrite E.
    set (n := Dom.subtree_len (Dom.depth e0) rest).
    unfold n at 1. rewrite subtree_len_insert by (simpl; lia). fold n.
    assert (Hn : List.length (firstn n rest) = n)
      by (apply firstn_length_le; apply subtree_len_le).
    replace (S n) with (List.length (firstn n rest) + 1) by lia.
    rewrite firstn_app_2. simpl. rewrite filter_app. simpl.
    now rewrite Nat.eqb_refl.
  - rewrite E. exact IH.
Qed.


Lemma assoc_get_set_other {V : Type} (k n : string) (v : V) (l : list (string * V)) :
  (n =? k) = false ->
  assoc_get k (assoc_set n v l) = assoc_get k l.
Proof.
  intros Hn. induction l as [|[k' v'] rest IH]; simpl.
  - now rewrite Hn.
  - destruct (k' =? n) eqn:E; simpl.
    + apply String.eqb_eq in E. subst k'. now rewrite Hn.
    + destruct (k' =? k); [reflexivity | exact IH].
Qed.

(* ================================================================= *)
(** ** The layout request (C5) *)

Lemma mapi_from_length {A B : Type} (f : A -> nat -> B) (l : list A) (i : nat) :
  List.length (mapi_from i f l) = List.length l.
Proof.
  revert i. induction l as [|a l IH]; intros i; simpl; [reflexivity|].
  now rewrite IH.
Qed.

Lemma mapi_from_nth {A B : Type} (f : A -> nat -> B) (l : list A) (i j : nat) (a : A) :
  nth_error l j = Some a ->
  nth_error (mapi_from i f l) j = Some (f a (i + j)).
Proof.
  revert i j. induction l as [|b l IH]; intros i j H.
  - destruct j; discriminate.
  - destruct j as [|j]; simpl in *.
    + injection H as ->. now rewrite Nat.add_0_r.
    + rewrite (IH (S i) j H). now rewrite Nat.add_succ_r.
Qed.

Lemma getElkGraph_request (w : World) (ns : list Node) (es : list Edge) :
  _nodes (this w) = Some ns ->
  _edges (this w) = Some es ->
  exists g, _getElkGraph w = (Ok g, w) /\ request_for ns es g.
Proof.
  intros Hn He. unfold _getElkGraph.
  rewrite (bind_ok _ _ w w ns (defined_some _nodes w ns Hn)).
  rewrite (bind_ok _ _ w w es (defined_some _edges w es He)).
  eexists. split; [reflexivity|].
  unfold request_for; simpl. repeat split.
  - now rewrite List.length_map.
  - intros i n Hi. now rewrite nth_error_map, Hi.
  - unfold mapi. now rewrite mapi_from_length.
  - intros i e Hi. unfold mapi. now rewrite (mapi_from_nth _ es 0 i e Hi).
Qed.

(** C5. On a rendered widget, the request [setData] hands to the layout
    engine has one 200x50 child per node, with the node's name as id, one
    edge per edge of the dataset, with id ["edge_" + index] and the edge's
    start and end as its only source and target, and the root properties
    algorithm = "layered" and direction = "RIGHT". *)
Theorem setData_layout_request (w : World) (data : Data) (c el : Dom.Selection) :
  _container (this w) = Some c ->
  _el (this w) = Some el ->
  exists g w',
    setData data w = (Ok g, w') /\
    request_for (match nodes data with Some l => l | None => [] end)
                (match edges data with Some l => l | None => [] end) g.
Proof.
  intros Hc Hel. unfold setData.
  unfold bind at 1. unfold get_this. rewrite Hc.
  rewrite (bind_ok _ _ w w el (defined_some _el w el Hel)).
  unfold bind at 1, d3_html_empty.
  unfold bind at 1, set_this.
  unfold bind at 1.
  unfold _renderNodes.
  match goal with |- exists g w', _getElkGraph ?W = _ /\ _ =>
    destruct (getElkGraph_request W _ _ eq_refl eq_refl) as [g [Hg Hr]];
    exists g, W
  end.
  split; assumption.
Qed.

Lemma setData_layout_request_witness :
  exists g w', setData data_AB rendered_world = (Ok g, w') /\
               request_for [node_named "A"; node_named "B"]
                           [{| start := "A"; end_ := "B"; type := "arrow" |}] g.
Proof.
  apply (setData_layout_request rendered_world data_AB (Some 0) (Some 6));
    reflexivity.
Defined.

(* ================================================================= *)
(** ** [setData] before [render] (C4) *)

(** [_container] is [null] from construction until [render] has got its
    selection: a [render] whose selector makes [d3.select] throw leaves
    everything as it was. *)
Lemma constructor_not_rendered (options : option Options) (d : Diagram) :
  constructor options = Ok d -> _container d = None.
Proof.
  unfold constructor. destruct options as [o|]; [|discriminate].
  destruct (elkWorkerUrl o) as [url|]; [|discriminate].
  destruct (url =? "")%string; [discriminate|].
  intros H. injection H as <-. reflexivity.
Qed.

Lemma render_bad_selector (css : StyleSheet) (w : World) :
  render css BadSelector w = (Throw (Thrown "SyntaxError"), w).
Proof. reflexivity. Qed.

Lemma render_sets_container (css : StyleSheet) (w : World) (target : Target) :
  target <> BadSelector ->
  outcome (render css target) w = Ok tt /\
  _container (this (exec (render css target) w)) <> None.
Proof.
  intros Ht. destruct target as [| |k]; [contradiction| |].
  - split; [reflexivity | discriminate].
  - unfold outcome, exec, render, bind, d3_select, ret, set_this, d3_append, d3_edit.
    cbn [this document with_this with_document].
    repeat match goal with
           | |- context [Dom.append ?s ?t ?d] => destruct (Dom.append s t d)
           end.
    split; [reflexivity | discriminate].
Qed.

(** C4. While [_container] is still [null], that is until a call of
    [render] has got past [d3.select], [setData] throws "Diagram is not
    rendered" and leaves the instance, the page and the log as they were. *)
Theorem setData_not_rendered (w : World) (data : Data) :
  _container (this w) = None ->
  setData data w = (Throw (Thrown "Diagram is not rendered"), w).
Proof.
  intros H. unfold setData, bind, get_this. now rewrite H.
Qed.

Lemma setData_not_rendered_witness :
  setData data_AB (new_world new_diagram)
  = (Throw (Thrown "Diagram is not rendered"), new_world new_diagram).
Proof.
  apply (setData_not_rendered (new_world new_diagram) data_AB). reflexivity.
Defined.

(* ================================================================= *)
(** ** Click detection (C2, C10) *)

Lemma bounding_box_found (w : World) (nodeName : string) (k : nat) :
  Dom.getElementById nodeName (document w) = Some k ->
  bounding_box nodeName w = (Ok (client_rects w k), w).
Proof. intros H. unfold bounding_box. now rewrite H. Qed.

Lemma onMouseDown_found (w : World) (nodeName : string) (k : nat) :
  Dom.getElementById nodeName (document w) = Some k ->
  _onMouseDown nodeName w
  = (Ok tt, with_this (set_mouseDownBB (client_rects w k)
                         (set_dragging true (this w))) w).
Proof.
  intros H. unfold _onMouseDown, bind, set_this; simpl.
  unfold bounding_box; simpl. now rewrite H.
Qed.

Lemma onMouseUp_found (w : World) (nodeName : string) (k : nat) :
  Dom.getElementById nodeName (document w) = Some k ->
  _onMouseUp nodeName w
  = (Ok tt,
     with_this (set_dragging false (this w))
       (match _mouseDownBB (this w) with
        | Some down =>
            if ((top down =? top (client_rects w k))%Z
                && (left down =? left (client_rects w k))%Z)%bool
            then with_fired (fired w ++ [nodeClick_of w nodeName])%list w
            else w
        | None => w
        end)).
Proof.
  intros H. unfold _onMouseUp.
  rewrite (bind_ok _ _ w w _ (bounding_box_found w nodeName k H)).
  unfold bind, get_this, set_this.
  destruct (_mouseDownBB (this w)) as [down|]; [|reflexivity].
  destruct ((top down =? top (client_rects w k))%Z
            && (left down =? left (client_rects w k))%Z)%bool; reflexivity.
Qed.

(** The two handlers one after the other, for a name that
    [document.getElementById] resolves at both events, the browser being
    free to move the elements in between: both handlers end normally,
    the dragging flag is false afterwards, and the pair fires exactly one
    [nodeClick] with the name when the box of the element that
    [getElementById] returns at mouseup has the top and left of the one
    it returned at mousedown, and nothing otherwise.  Whether that
    element is the visual of the node is another matter. *)
Lemma mouse_pair_click (w : World) (nodeName : string) (k1 k2 : nat)
    (doc2 : Dom.Document) (rects2 : nat -> Rect) :
  Dom.getElementById nodeName (document w) = Some k1 ->
  Dom.getElementById nodeName doc2 = Some k2 ->
  let down := client_rects w k1 in
  let up := rects2 k2 in
  let w1 := exec (_onMouseDown nodeName) w in
  let w2 := browser_update doc2 rects2 w1 in
  let w3 := exec (_onMouseUp nodeName) w2 in
  outcome (_onMouseDown nodeName) w = Ok tt /\
  outcome (_onMouseUp nodeName) w2 = Ok tt /\
  _dragging (this w3) = Some false /\
  (top down = top up /\ left down = left up ->
   fired w3 = (fired w ++ [nodeClick_of w nodeName])%list) /\
  (~ (top down = top up /\ left down = left up) -> fired w3 = fired w).
Proof.
  intros H1 H2 down up w1 w2 w3.
  assert (E1 : _onMouseDown nodeName w
               = (Ok tt, with_this (set_mouseDownBB down (set_dragging true (this w))) w))
    by (apply onMouseDown_found; exact H1).
  assert (Hw1 : w1 = with_this (set_mouseDownBB down (set_dragging true (this w))) w)
    by (unfold w1, exec; now rewrite E1).
  assert (E2 := onMouseUp_found w2 nodeName k2 H2).
  assert (Hbb : _mouseDownBB (this w2) = Some down)
    by (unfold w2; rewrite Hw1; reflexivity).
  rewrite Hbb in E2. change (client_rects w2 k2) with up in E2.
  assert (Hf : fired w2 = fired w) by (unfold w2; rewrite Hw1; reflexivity).
  assert (Hn : nodeClick_of w2 nodeName = nodeClick_of w nodeName)
    by (unfold w2; rewrite Hw1; reflexivity).
  assert (E3 : w3 = with_this (set_dragging false (this w2))
                       (if ((top down =? top up)%Z && (left down =? left up)%Z)%bool
                        then with_fired (fired w ++ [nodeClick_of w nodeName])%list w2
                        else w2))
    by (unfold w3, exec; rewrite E2, Hf, Hn; reflexivity).
  repeat split.
  - unfold outcome. now rewrite E1.
  - unfold outcome. now rewrite E2.
  - rewrite E3. reflexivity.
  - intros [Ht Hl]. rewrite E3.
    apply Z.eqb_eq in Ht, Hl. rewrite Ht, Hl. reflexivity.
  - intros Hne. rewrite E3.
    destruct (top down =? top up)%Z eqn:Et; simpl.
    + destruct (left down =? left up)%Z eqn:El; simpl.
      * exfalso. apply Hne. split; now apply Z.eqb_eq.
      * exact Hf.
    + exact Hf.
Qed.

Lemma mouse_pair_click_witness :
  fired (exec (_onMouseUp "A")
           (browser_update (document shown_world) (client_rects shown_world)
              (exec (_onMouseDown "A") shown_world)))
  = [nodeClick_of shown_world "A"].
Proof.
  destruct (mouse_pair_click shown_world "A" 7 7
              (document shown_world) (client_rects shown_world))
    as (_ & _ & _ & Hclick & _).
  - vm_compute. reflexivity.
  - vm_compute. reflexivity.
  - apply Hclick. split; reflexivity.
Defined.

(** C2 (the code at a failing input).  The widget shows the nodes "A" and
    "end"; the visual of "end" is the element 11, and the element that
    [getElementById("end")] returns is the arrowhead [marker] of
    [render], the element 4.  The mousedown listener of the node records
    the box of the marker.  The node is then moved (its top and left
    change); the marker is not.  The mouseup listener of the node
    compares the box of the marker with the recorded one and fires
    [nodeClick("end")], although the box of the node has changed between
    the two events. *)
Theorem mouse_pair_on_end_clicks_though_moved :
  let ev := {| relatedTarget := None |} in
  let w := shown_end_world in
  let w1 := exec (dispatch plain_css "mousedown" 11 ev) w in
  let w2 := browser_update (document w1) end_moved_rects w1 in
  let w3 := exec (dispatch plain_css "mouseup" 11 ev) w2 in
  map Dom.id_of (node_visuals w) = [Some "A"; Some "end"] /\
  map Dom.key (node_visuals w) = [7; 11] /\
  Dom.getElementById "end" (document w) = Some 4 /\
  option_map Dom.tag (Dom.lookup 4 (document w)) = Some "marker" /\
  outcome (dispatch plain_css "mousedown" 11 ev) w = Ok tt /\
  _mouseDownBB (this w1) = Some (client_rects w 4) /\
  top (client_rects w2 11) <> top (client_rects w1 11) /\
  left (client_rects w2 11) <> left (client_rects w1 11) /\
  outcome (dispatch plain_css "mouseup" 11 ev) w2 = Ok tt /\
  fired w3 = (fired w ++ [nodeClick_of w "end"])%list.
Proof.
  intros ev w w1 w2 w3.
  split; [vm_compute; reflexivity|].
  split; [vm_compute; reflexivity|].
  split; [vm_compute; reflexivity|].
  split; [vm_compute; reflexivity|].
  split; [vm_compute; reflexivity|].
  split; [vm_compute; reflexivity|].
  split; [vm_compute; discriminate|].
  split; [vm_compute; discriminate|].
  split; [vm_compute; reflexivity|].
  vm_compute; reflexivity.
Qed.

Lemma bounding_box_missing (w : World) (nodeName : string) :
  Dom.getElementById nodeName (document w) = None ->
  bounding_box nodeName w = (Throw TypeError, w).
Proof. intros H. unfold bounding_box. now rewrite H. Qed.

(** C10, as the code has it.  A mouseup on a node while no mousedown box
    is recorded fires no [nodeClick].  When the name of the node is the
    id of an element of the page, the handler ends normally and changes
    nothing but the dragging flag, which it sets to false; when
    [getElementById] finds no element for the name, the handler throws a
    [TypeError] and changes nothing, the dragging flag included. *)
Theorem mouseUp_without_mouseDown (w : World) (nodeName : string) :
  _mouseDownBB (this w) = None ->
  fired (exec (_onMouseUp nodeName) w) = fired w /\
  (forall k, Dom.getElementById nodeName (document w) = Some k ->
             _onMouseUp nodeName w
             = (Ok tt, with_this (set_dragging false (this w)) w)) /\
  (Dom.getElementById nodeName (document w) = None ->
   _onMouseUp nodeName w = (Throw TypeError, w)).
Proof.
  intros Hbb.
  assert (Hfound : forall k, Dom.getElementById nodeName (document w) = Some k ->
                             _onMouseUp nodeName w
                             = (Ok tt, with_this (set_dragging false (this w)) w)).
  { intros k Hk. now rewrite (onMouseUp_found w nodeName k Hk), Hbb. }
  assert (Hmissing : Dom.getElementById nodeName (document w) = None ->
                     _onMouseUp nodeName w = (Throw TypeError, w)).
  { intros Hk. unfold _onMouseUp, bind.
    now rewrite (bounding_box_missing w nodeName Hk). }
  split; [|split; assumption].
  unfold exec.
  destruct (Dom.getElementById nodeName (document w)) as [k|] eqn:Hk.
  - now rewrite (Hfound k eq_refl).
  - now rewrite (Hmissing eq_refl).
Qed.

Lemma mouseUp_without_mouseDown_witness :
  _onMouseUp "A" shown_world
  = (Ok tt, with_this (set_dragging false (this shown_world)) shown_world) /\
  fired (exec (_onMouseUp "A") shown_world) = fired shown_world.
Proof.
  destruct (mouseUp_without_mouseDown shown_world "A") as (Hfired & Hfound & _).
  - vm_compute. reflexivity.
  - split; [|exact Hfired].
    apply (Hfound 7). vm_compute. reflexivity.
Defined.

(** C10 (counterexample).  The widget shows one node, whose name is the
    empty string; its visual is the element 7, with the id [""], which
    [getElementById("")] does not return.  The mousedown listener of the
    node sets the dragging flag and then throws a [TypeError], so that no
    box is recorded.  The mouseup listener of the node then throws a
    [TypeError] as well, and the dragging flag is still set. *)
Lemma mouseUp_on_unnamed_node_faults :
  let ev := {| relatedTarget := None |} in
  let w := shown_unnamed_world in
  let w1 := exec (dispatch plain_css "mousedown" 7 ev) w in
  let w2 := exec (dispatch plain_css "mouseup" 7 ev) w1 in
  map Dom.id_of (node_visuals w) = [Some ""] /\
  map Dom.key (node_visuals w) = [7] /\
  option_map (fun e => assoc_get "mouseup" (Dom.listeners e)) (Dom.lookup 7 (document w))
  = Some (Some (CallOnMouseUp "")) /\
  _mouseDownBB (this w1) = None /\
  _dragging (this w1) = Some true /\
  outcome (dispatch plain_css "mouseup" 7 ev) w1 = Throw TypeError /\
  outcome (dispatch plain_css "mouseup" 7 ev) w1 <> Ok tt /\
  _dragging (this w2) = Some true /\
  _dragging (this w2) <> Some false.
Proof.
  intros ev w w1 w2.
  split; [vm_compute; reflexivity|].
  split; [vm_compute; reflexivity|].
  split; [vm_compute; reflexivity|].
  split; [vm_compute; reflexivity|].
  split; [vm_compute; reflexivity|].
  split; [vm_compute; reflexivity|].
  split; [vm_compute; discriminate|].
  split; [vm_compute; reflexivity|].
  vm_compute; discriminate.
Qed.

(* ================================================================= *)
(** ** Where the code departs from its specification (C1, C3, C9) *)

(** C1 (the code at a failing input).  [setData] is called on a widget
    that already shows two nodes and one edge, with the same dataset.
    The node visuals are replaced (two remain), but the edge visual of
    the first call is still there next to the new one: [setData] empties
    [_el] only, and the paths live in [_group]. *)
Theorem setData_again_keeps_old_edges :
  outcome (setData_resolved plain_css data_AB layout_AB) shown_world = Ok tt /\
  List.length (node_visuals shown_world) = 2 /\
  List.length (edge_visuals shown_world) = 1 /\
  List.length (node_visuals shown_again_world) = 2 /\
  List.length (edge_visuals shown_again_world) = 2.
Proof. repeat split; vm_compute; reflexivity. Qed.

(** C3 (the code at a failing input).  The widget shows the nodes A and
    B, and A is selected.  No node is named "end", yet
    [selectNode("end", true)] does not throw: [getElementById] finds the
    arrowhead [marker], to which [render] gave the id "end".  The call
    moves the selected class from A to the marker and records "end" as
    the selected node. *)
Theorem selectNode_end_selects_marker :
  map Dom.id_of (node_visuals selected_A_world) = [Some "A"; Some "B"] /\
  ids_with_class "node-selected" selected_A_world = [Some "A"] /\
  _selectedNodeName (this selected_A_world) = Some "A" /\
  outcome (selectNode plain_css "end" true) selected_A_world = Ok tt /\
  tags_with_class "node-selected"
    (exec (selectNode plain_css "end" true) selected_A_world) = ["marker"] /\
  _selectedNodeName (this (exec (selectNode plain_css "end" true) selected_A_world))
  = Some "end".
Proof. repeat split; vm_compute; reflexivity. Qed.

(** C9 (the code at a failing input).  [destroy] on the widget showing
    two nodes and one edge ends normally, empties the event registry and
    removes the diagram element and the group with all they contain; the
    [svg] element that [render] appended to the mount point stays in the
    page. *)
Theorem destroy_leaves_svg :
  outcome destroy shown_world = Ok tt /\
  Observable.registry (_observable (this (exec destroy shown_world))) = [] /\
  map Dom.tag (Dom.child_elements 0 (document shown_world)) = ["svg"; "div"] /\
  map Dom.tag (Dom.child_elements 0 (document (exec destroy shown_world))) = ["svg"] /\
  map Dom.key (document (exec destroy shown_world)) = [0; 1].
Proof. repeat split; vm_compute; reflexivity. Qed.

(* ================================================================= *)
(** ** Edge visuals and their markers (C7) *)

Lemma find_skip_middle {A : Type} (f : A -> bool) (l1 l2 : list A) (c : A) :
  f c = false -> find f (l1 ++ c :: l2) = find f (l1 ++ l2).
Proof.
  intros Hc. induction l1 as [|a rest IH]; simpl.
  - now rewrite Hc.
  - destruct (f a); [reflexivity | exact IH].
Qed.

Lemma lookup_insert_child (k p : nat) (c : Dom.Element) (doc : Dom.Document) :
  Dom.key c <> k ->
  Dom.lookup k (Dom.insert_child p c doc) = Dom.lookup k doc.
Proof.
  intros Hc. unfold Dom.lookup.
  induction doc as [|e rest IH]; [reflexivity|]. simpl.
  destruct (Dom.key e =? p)%nat; simpl.
  - destruct (Dom.key e =? k)%nat; [reflexivity|].
    rewrite find_skip_middle by (simpl; now apply Nat.eqb_neq).
    now rewrite firstn_skipn.
  - destruct (Dom.key e =? k)%nat; [reflexivity | exact IH].
Qed.

Lemma lookup_in (k : nat) (doc : Dom.Document) (e : Dom.Element) :
  Dom.lookup k doc = Some e -> In e doc /\ Dom.key e = k.
Proof.
  unfold Dom.lookup. intros H. apply find_some in H.
  destruct H as [Hin Hk]. split; [exact Hin | now apply Nat.eqb_eq].
Qed.

Lemma lookup_is_present (k : nat) (doc : Dom.Document) (e : Dom.Element) :
  Dom.lookup k doc = Some e -> Dom.present k doc = true.
Proof.
  intros H. apply present_true. exists e. now apply lookup_in.
Qed.

Lemma routed_edge_path (layout : Layout) (m i : nat) (eng : Engine) :
  routed layout m -> i < m -> exists p, edge_path layout i eng = Ok p.
Proof.
  intros Hr Hi. destruct (Hr i Hi) as (le & s & Hle & Hs).
  unfold edge_path. rewrite Hle, Hs.
  destruct (startPoint s), (endPoint s); eauto.
Qed.

(** [.attr(n, f)] when [f] returns a value. *)
Lemma attr_fn_ok {B : Type} (k : nat) (n v : string) (f : Engine -> Result string)
    (K : unit -> M B) (w : World) :
  f (engine w) = Ok v ->
  bind (d3_attr_fn (Some k) n f) K w = bind (d3_edit (Some k) (Dom.SetAttr n v)) K w.
Proof. intros H. unfold bind, d3_attr_fn. now rewrite H. Qed.

(** An edit of the element that was appended last. *)
Lemma edit_appended {B : Type} (p k : nat) (c : Dom.Element) (ed : Dom.Edit)
    (doc : Dom.Document) (w : World) (K : unit -> M B) :
  Dom.key c = k ->
  (forall e, In e doc -> Dom.key e <> k) ->
  bind (d3_edit (Some k) ed) K (with_document (Dom.insert_child p c doc) w)
  = K tt (with_document (Dom.insert_child p (Dom.apply_edit ed c) doc) w).
Proof.
  intros Hc Hfresh. unfold bind, d3_edit, Dom.update.
  cbn [document with_document].
  now rewrite (update_insert_fresh k p ed c doc Hc Hfresh).
Qed.

Lemma append_present (g : nat) (t : string) (w : World) :
  Dom.present g (document w) = true ->
  d3_append (Some g) t w
  = (Ok (Some (Dom.fresh (document w))),
     with_document
       (Dom.insert_child g (Dom.create (Dom.fresh (document w)) 0 t) (document w)) w).
Proof.
  intros H. unfold d3_append, Dom.append. now rewrite H.
Qed.

(** One turn of the loop of [_renderEdges]: the path element of the edge
    becomes the last child of the group. *)
Lemma renderEdges_each_run (layout : Layout) (edge : Edge) (i g : nat)
    (w : World) (e0 : Dom.Element) (p : string) :
  _group (this w) = Some (Some g) ->
  Dom.lookup g (document w) = Some e0 ->
  edge_path layout i (engine w) = Ok p ->
  _renderEdges_each layout edge i w
  = (Ok tt,
     with_document
       (Dom.insert_child g (path_element (Dom.fresh (document w)) p edge) (document w)) w).
Proof.
  intros Hg He0 Hp.
  assert (Hfresh : forall e, In e (document w) -> Dom.key e <> Dom.fresh (document w))
    by (intros e; apply fresh_absent).
  unfold _renderEdges_each.
  rewrite (bind_ok _ _ w w (Some g) (defined_some _group w (Some g) Hg)).
  rewrite (bind_ok _ _ _ _ _
             (append_present g "path" w (lookup_is_present g (document w) e0 He0))).
  rewrite !edit_appended by (try exact Hfresh; reflexivity).
  rewrite (attr_fn_ok _ "d" p) by exact Hp.
  rewrite !edit_appended by (try exact Hfresh; reflexivity).
  unfold path_element.
  destruct (type edge =? "arrow").
  - unfold d3_edit, Dom.update. cbn [document with_document].
    rewrite update_insert_fresh by (try exact Hfresh; reflexivity).
    reflexivity.
  - reflexivity.
Qed.

Lemma path_element_shown (k d : nat) (p : string) (edge : Edge) :
  edge_shown edge (Dom.place d (path_element k p edge)).
Proof.
  unfold edge_shown, path_element, marker_end.
  destruct (type edge =? "arrow") eqn:E.
  - apply String.eqb_eq in E. repeat split; try reflexivity.
    + intros H. rewrite E in H. discriminate.
    + intros H. contradiction.
  - apply String.eqb_neq in E. repeat split; try reflexivity.
    intros H. contradiction.
Qed.

Lemma renderEdges_loop (layout : Layout) (g : nat) (e0 : Dom.Element) (es : list Edge) :
  forall (i : nat) (w : World),
    _group (this w) = Some (Some g) ->
    Dom.lookup g (document w) = Some e0 ->
    (forall j, j < List.length es ->
               exists p, edge_path layout (i + j) (engine w) = Ok p) ->
    exists w' news,
      forEach_from i (_renderEdges_each layout) es w = (Ok tt, w') /\
      this w' = this w /\
      fired w' = fired w /\
      Dom.lookup g (document w') = Some e0 /\
      Dom.child_elements g (document w')
      = Dom.child_elements g (document w) ++ news /\
      Forall2 edge_shown es news.
Proof.
  induction es as [|edge rest IH]; intros i w Hg He0 Hroute.
  - exists w, []. simpl. rewrite app_nil_r. repeat split; auto.
  - destruct (Hroute 0) as [p Hp]; [simpl; lia|]. rewrite Nat.add_0_r in Hp.
    pose proof (renderEdges_each_run layout edge i g w e0 p Hg He0 Hp) as Hstep.
    set (c := path_element (Dom.fresh (document w)) p edge) in *.
    set (w1 := with_document (Dom.insert_child g c (document w)) w) in *.
    assert (Hck : Dom.key c <> g).
    { destruct (lookup_in g (document w) e0 He0) as [Hin Hk].
      pose proof (fresh_absent (document w) e0 Hin) as Hne.
      unfold c, path_element.
      destruct (type edge =? "arrow"); simpl; congruence. }
    destruct (IH (S i) w1) as (w' & news & Hrun & Hthis & Hfired & Hlook & Hkids & Hshown).
    + exact Hg.
    + unfold w1; simpl. rewrite lookup_insert_child by exact Hck. exact He0.
    + intros j Hj. replace (S i + j) with (i + S j) by lia.
      apply Hroute. simpl. lia.
    + exists w', (Dom.place (S (Dom.depth e0)) c :: news).
      simpl. rewrite (bind_ok _ _ w w1 tt Hstep).
      repeat split; auto.
      * rewrite Hkids. unfold w1; simpl.
        rewrite (child_elements_insert g c e0 (document w) He0).
        now rewrite <- app_assoc.
      * constructor; [apply path_element_shown | exact Hshown].
Qed.

Lemma edge_shown_is_path (es : list Edge) (news : list Dom.Element) :
  Forall2 edge_shown es news ->
  filter (fun e => Dom.tag e =? "path") news = news.
Proof.
  induction 1 as [|edge el es news Hs _ IH]; [reflexivity|]. simpl.
  destruct Hs as [Ht _]. rewrite Ht. simpl. now rewrite IH.
Qed.

(** The table of [_getEdgeOverlay], which no method calls, has entries
    of its own for "arrow" and "link" only; the lookup of another type
    finds nothing, or the member of [Object.prototype] of that name. *)
Lemma getEdgeOverlay_other_types (e : Edge) :
  type e <> "arrow" -> type e <> "link" ->
  _getEdgeOverlay e
  = if existsb (String.eqb (type e)) object_prototype_members
    then Inherited (type e)
    else Missing.
Proof.
  intros Ha Hl. unfold _getEdgeOverlay, js_get, assoc_get.
  apply String.eqb_neq in Ha, Hl.
  rewrite String.eqb_sym in Ha. rewrite String.eqb_sym in Hl.
  now rewrite Ha, Hl.
Qed.

(** C7. [_renderEdges] on a rendered widget whose layout routes every
    edge ends normally whatever the types of the edges, and adds one edge
    visual per edge, in order: a path that refers to the arrowhead marker
    ([marker-end = url(#end)]) when the type is "arrow", and that has no
    marker when the type is "link" or anything else. *)
Theorem renderEdges_marker_by_type (w : World) (layout : Layout)
    (es : list Edge) (g : nat) :
  _edges (this w) = Some es ->
  _group (this w) = Some (Some g) ->
  Dom.present g (document w) = true ->
  routed layout (List.length es) ->
  exists w' news,
    _renderEdges layout w = (Ok tt, w') /\
    edge_visuals w' = edge_visuals w ++ news /\
    Forall2 edge_shown es news.
Proof.
  intros Hes Hg Hpres Hroute.
  destruct (lookup_present g (document w) Hpres) as [e0 He0].
  destruct (renderEdges_loop layout g e0 es 0 w Hg He0)
    as (w' & news & Hrun & Hthis & _ & _ & Hkids & Hshown).
  { intros j Hj. simpl. now apply (routed_edge_path layout (List.length es)). }
  exists w', news. repeat split.
  - unfold _renderEdges.
    rewrite (bind_ok _ _ w w es (defined_some _edges w es Hes)). exact Hrun.
  - unfold edge_visuals. rewrite Hthis, Hg, Hkids, filter_app.
    now rewrite (edge_shown_is_path es news Hshown).
  - exact Hshown.
Qed.

Lemma routed_mixed : routed layout_mixed 3.
Proof.
  intros i Hi.
  destruct i as [|[|[|i]]]; [| | |lia]; simpl; eexists; eexists; split; reflexivity.
Qed.

Lemma renderEdges_marker_by_type_witness :
  exists w' news,
    _renderEdges layout_mixed awaiting_mixed_world = (Ok tt, w') /\
    edge_visuals w' = edge_visuals awaiting_mixed_world ++ news /\
    Forall2 edge_shown edges_mixed news.
Proof.
  apply (renderEdges_marker_by_type awaiting_mixed_world layout_mixed edges_mixed 2).
  - vm_compute. reflexivity.
  - vm_compute. reflexivity.
  - vm_compute. reflexivity.
  - exact routed_mixed.
Defined.

(* ================================================================= *)
(** ** Setting the content of an element *)

Lemma subtree_len_shallower (d d' : nat) (l : Dom.Document) :
  d <= d' -> Dom.subtree_len d l = 0 -> Dom.subtree_len d' l = 0.
Proof.
  intros Hd. destruct l as [|e rest]; simpl; [reflexivity|].
  destruct (d <? Dom.depth e)%nat eqn:E; [discriminate|]. intros _.
  apply Nat.ltb_ge in E.
  assert (E' : (d' <? Dom.depth e)%nat = false) by (apply Nat.ltb_ge; lia).
  now rewrite E'.
Qed.

Lemma subtree_len_rest (d : nat) (l : Dom.Document) :
  Dom.subtree_len d (skipn (Dom.subtree_len d l) l) = 0.
Proof.
  induction l as [|e rest IH]; simpl; [reflexivity|].
  destruct (d <? Dom.depth e)%nat eqn:E; simpl; [exact IH | now rewrite E].
Qed.

Lemma clear_children_past (k : nat) (l1 l2 : Dom.Document) :
  (forall e, In e l1 -> Dom.key e <> k) ->
  Dom.clear_children k (l1 ++ l2) = l1 ++ Dom.clear_children k l2.
Proof.
  induction l1 as [|e rest IH]; intros H; [reflexivity|]. simpl.
  destruct (Dom.key e =? k)%nat eqn:E.
  - apply Nat.eqb_eq in E. exfalso. apply (H e); [now left | exact E].
  - f_equal. apply IH. intros a Ha. apply H. now right.
Qed.

(** An element that was just appended has nothing to lose. *)
Lemma clear_children_new_leaf (p : nat) (c : Dom.Element) (doc : Dom.Document) :
  (forall e, In e doc -> Dom.key e <> Dom.key c) ->
  Dom.clear_children (Dom.key c) (Dom.insert_child p c doc) = Dom.insert_child p c doc.
Proof.
  induction doc as [|e rest IH]; intros H; [reflexivity|].
  assert (He : (Dom.key e =? Dom.key c)%nat = false)
    by (apply Nat.eqb_neq, H; now left).
  simpl. destruct (Dom.key e =? p)%nat.
  - simpl. rewrite He. f_equal.
    rewrite clear_children_past.
    + simpl. rewrite Nat.eqb_refl.
      rewrite (subtree_len_shallower (Dom.depth e) (S (Dom.depth e)));
        [reflexivity | lia | apply subtree_len_rest].
    + intros a Ha. apply H. right. eapply in_firstn_in. exact Ha.
  - simpl. rewrite He. f_equal. apply IH. intros a Ha. apply H. now right.
Qed.

Lemma graft_keeps (m : Dom.Markup) :
  forall (made : list nat) (root : nat) (doc : Dom.Document) (x : nat),
    Dom.present x doc = true -> Dom.present x (Dom.graft made root m doc) = true.
Proof.
  induction m as [|[i t] rest IH]; intros made root doc x Hx; [exact Hx|].
  simpl. apply IH. now apply present_insert_child.
Qed.

(** [append] and then [html] on a selected element that is in the page:
    the new element gets the string and what the parser makes of it. *)
Lemma append_html_present (p : nat) (t s : string) (w : World) :
  Dom.present p (document w) = true ->
  bind (d3_append (Some p) t) (fun span => d3_html span s) w
  = (Ok tt,
     with_document
       (Dom.graft [] (Dom.fresh (document w)) (markup_of (engine w) s)
          (Dom.insert_child p
             (Dom.apply_edit (Dom.SetHtml s) (Dom.create (Dom.fresh (document w)) 0 t))
             (document w))) w).
Proof.
  intros Hp. unfold bind, d3_append, Dom.append. rewrite Hp.
  unfold d3_html, Dom.set_html. cbn [document with_document engine].
  set (k := Dom.fresh (document w)).
  pose proof (clear_children_new_leaf p (Dom.create k 0 t) (document w)
                (fun e => fresh_absent (document w) e)) as E.
  cbn [Dom.key Dom.create] in E. rewrite E.
  rewrite update_insert_fresh by (try (intros e; apply fresh_absent); reflexivity).
  reflexivity.
Qed.

Lemma append_html_absent (sel : Dom.Selection) (t s : string) (w : World) :
  match sel with
  | Some p => Dom.present p (document w) = false
  | None => True
  end ->
  bind (d3_append sel t) (fun span => d3_html span s) w
  = (Ok tt, with_document (document w) (with_document (document w) w)).
Proof.
  intros H. unfold bind, d3_append, Dom.append.
  destruct sel as [p|]; [rewrite H|]; reflexivity.
Qed.

(* ================================================================= *)
(** ** The size of the diagram (C8) *)

Lemma grows_refl (w : World) : grows w w.
Proof. repeat split; auto. Qed.

Lemma grows_trans (w1 w2 w3 : World) : grows w1 w2 -> grows w2 w3 -> grows w1 w3.
Proof.
  intros (Ht1 & Hf1 & Hp1) (Ht2 & Hf2 & Hp2). repeat split.
  - congruence.
  - congruence.
  - auto.
Qed.

Lemma building_ret {A : Type} (a : A) : building (ret a).
Proof. intros w r w' H. injection H as _ <-. apply grows_refl. Qed.

Lemma building_throw {A : Type} (e : Exn) : building (@throw A e).
Proof. intros w r w' H. injection H as _ <-. apply grows_refl. Qed.

Lemma building_bind {A B : Type} (m : M A) (k : A -> M B) :
  building m -> (forall a, building (k a)) -> building (bind m k).
Proof.
  intros Hm Hk w r w' H. unfold bind in H.
  destruct (m w) as [[a|e] w1] eqn:E.
  - apply (grows_trans w w1 w'); [apply (Hm w _ w1 E) | apply (Hk a w1 r w' H)].
  - injection H as _ <-. apply (Hm w _ w1 E).
Qed.

Lemma building_defined {A : Type} (field : Diagram -> option A) : building (defined field).
Proof.
  intros w r w' H. unfold defined in H.
  destruct (field (this w)); injection H as _ <-; apply grows_refl.
Qed.

Lemma building_get_this : building get_this.
Proof. intros w r w' H. injection H as _ <-. apply grows_refl. Qed.

Lemma building_append (sel : Dom.Selection) (t : string) : building (d3_append sel t).
Proof.
  intros w r w' H. unfold d3_append in H.
  destruct (Dom.append sel t (document w)) as [s doc] eqn:E.
  injection H as _ <-. repeat split. simpl.
  intros k Hk. unfold Dom.append in E.
  destruct sel as [p|]; [|injection E as _ <-; exact Hk].
  destruct (Dom.present p (document w)); injection E as _ <-; [|exact Hk].
  now apply present_insert_child.
Qed.

Lemma building_edit (sel : Dom.Selection) (ed : Dom.Edit) : building (d3_edit sel ed).
Proof.
  intros w r w' H. injection H as _ <-. repeat split. simpl.
  intros k Hk. destruct sel as [k'|]; simpl; [|exact Hk].
  now rewrite present_update_key.
Qed.

Lemma building_get_engine : building get_engine.
Proof. intros w r w' H. injection H as _ <-. apply grows_refl. Qed.

Lemma building_attr_fn (sel : Dom.Selection) (n : string) (f : Engine -> Result string) :
  building (d3_attr_fn sel n f).
Proof.
  unfold d3_attr_fn. destruct sel; [|apply building_ret].
  intros w r w' H. destruct (f (engine w)).
  - exact (building_edit _ _ w r w' H).
  - exact (building_throw e w r w' H).
Qed.

(** [append] and then [html]: the new element had nothing to lose. *)
Lemma building_append_html (sel : Dom.Selection) (t s : string) :
  building (bind (d3_append sel t) (fun span => d3_html span s)).
Proof.
  intros w r w' H.
  destruct sel as [p|].
  - destruct (Dom.present p (document w)) eqn:Hp.
    + rewrite (append_html_present p t s w Hp) in H. injection H as _ <-.
      repeat split. cbn [document with_document]. intros k Hk.
      apply graft_keeps. now apply present_insert_child.
    + rewrite (append_html_absent (Some p) t s w Hp) in H. injection H as _ <-.
      repeat split. cbn [document with_document]. auto.
  - rewrite (append_html_absent None t s w I) in H. injection H as _ <-.
    repeat split. cbn [document with_document]. auto.
Qed.

Lemma building_forEach_from {A : Type} (f : A -> nat -> M unit) (l : list A) :
  (forall a i, building (f a i)) -> forall i, building (forEach_from i f l).
Proof.
  intros Hf. induction l as [|a rest IH]; intros i; simpl.
  - apply building_ret.
  - apply building_bind; [apply Hf | intros _; apply IH].
Qed.

Lemma building_style_length (sel : Dom.Selection) (n : string) (f : float) :
  building (d3_style_length sel n f).
Proof.
  intros w r w' H. unfold d3_style_length in H. destruct (valid_length f).
  - exact (building_edit _ _ w r w' H).
  - exact (building_ret tt w r w' H).
Qed.

Create HintDb building.
#[local] Hint Resolve building_ret building_throw building_defined building_get_this
  building_get_engine building_append building_edit building_attr_fn
  building_style_length building_append_html : building.

Ltac building_steps :=
  repeat (first [ apply building_append_html
                | apply building_bind; [|intro]
                | solve [auto with building] ]).

Lemma building_renderNode (css : StyleSheet) (n : Node) (styles : list (string * float)) :
  building (_renderNode css n styles).
Proof. unfold _renderNode. building_steps. Qed.

Lemma building_renderNodes_each (css : StyleSheet) (layout : Layout) (n : Node) (i : nat) :
  building (_renderNodes_each css layout n i).
Proof.
  unfold _renderNodes_each.
  destruct (nth_error (layout_children layout) i);
    [apply building_renderNode | apply building_throw].
Qed.

Lemma building_renderEdges_each (layout : Layout) (edge : Edge) (i : nat) :
  building (_renderEdges_each layout edge i).
Proof.
  unfold _renderEdges_each. building_steps.
  destruct (type edge =? "arrow"); auto with building.
Qed.

Lemma building_renderEdges (layout : Layout) : building (_renderEdges layout).
Proof.
  unfold _renderEdges. apply building_bind; [auto with building|].
  intros es. apply building_forEach_from. apply building_renderEdges_each.
Qed.

(** *** The order of the doubles *)




















Lemma lookup_update (k k' : nat) (ed : Dom.Edit) (doc : Dom.Document) (e : Dom.Element) :
  Dom.lookup k doc = Some e ->
  Dom.lookup k (Dom.update (Some k') ed doc)
  = Some (if (k =? k')%nat then Dom.apply_edit ed e else e).
Proof.
  intros H. unfold Dom.update. rewrite lookup_update_key, H.
  now destruct (k =? k')%nat.
Qed.








Lemma bind_inv_ok {A B : Type} (m : M A) (k : A -> M B) (w w' : World) (b : B) :
  bind m k w = (Ok b, w') ->
  exists a w1, m w = (Ok a, w1) /\ k a w1 = (Ok b, w').
Proof.
  unfold bind. destruct (m w) as [[a|e] w1]; intros H.
  - exists a, w1. split; [reflexivity | exact H].
  - discriminate.
Qed.





(* ================================================================= *)
(** ** The highlight (C6) *)

#[local] Arguments Dom.apply_edit : simpl never.

Lemma has_class_classed_off (c : string) (e : Dom.Element) :
  Dom.has_class c (Dom.apply_edit (Dom.Classed c false) e) = false.
Proof.
  unfold Dom.has_class. simpl.
  induction (Dom.classes e) as [|c' rest IH]; [reflexivity|]. simpl.
  destruct (c =? c')%string eqn:E; simpl; [exact IH | now rewrite E].
Qed.

Lemma has_class_classed_on (c : string) (e : Dom.Element) :
  Dom.has_class c (Dom.apply_edit (Dom.Classed c true) e) = true.
Proof.
  unfold Dom.has_class at 1. simpl.
  destruct (Dom.has_class c e) eqn:E; [exact E|].
  rewrite existsb_app. simpl. rewrite String.eqb_refl.
  now rewrite orb_true_r.
Qed.

Lemma find_none_filter {A : Type} (f : A -> bool) (l : list A) :
  find f l = None -> filter f l = [].
Proof.
  induction l as [|a rest IH]; [reflexivity|]. simpl.
  destruct (f a); [discriminate | exact IH].
Qed.

Lemma find_key_in (f : Dom.Element -> bool) (doc : Dom.Document) (k : nat) :
  option_map Dom.key (find f doc) = Some k ->
  exists e, In e doc /\ Dom.key e = k /\ f e = true.
Proof.
  destruct (find f doc) as [e|] eqn:E; [|discriminate].
  simpl. intros H. injection H as <-. apply find_some in E.
  exists e. tauto.
Qed.

(** [d3.select("." + c).classed(c, false)] leaves no element with the
    class when at most one had it. *)
Lemma classed_off_first (c : string) (doc : Dom.Document) :
  distinct_keys doc ->
  List.length (with_class c doc) <= 1 ->
  with_class c (Dom.update (Dom.select_class c doc) (Dom.Classed c false) doc) = [].
Proof.
  unfold with_class, Dom.select_class, distinct_keys.
  induction doc as [|e rest IH]; intros Hnd Hone; [reflexivity|].
  simpl in *. inversion Hnd as [|? ? Hnotin Hnd']; subst.
  destruct (Dom.has_class c e) eqn:E; simpl in *.
  - rewrite Nat.eqb_refl. simpl. rewrite has_class_classed_off.
    destruct (filter (Dom.has_class c) rest); [reflexivity | simpl in Hone; lia].
  - destruct (option_map Dom.key (find (Dom.has_class c) rest)) as [k|] eqn:F.
    + simpl. destruct (find_key_in _ _ _ F) as (e' & Hin & Hk & _).
      assert (Hne : (Dom.key e =? k)%nat = false).
      { apply Nat.eqb_neq. intros Heq. apply Hnotin.
        rewrite Heq, <- Hk. now apply in_map. }
      rewrite Hne. simpl. rewrite E.
      exact (IH Hnd' Hone).
    + simpl. rewrite E. apply find_none_filter.
      destruct (find (Dom.has_class c) rest); [discriminate | reflexivity].
Qed.

(** [.classed(c, true)] on an element of a page where no element has
    the class: that element is the only one to have it. *)
Lemma classed_on_only (c : string) (k : nat) (doc : Dom.Document) (e : Dom.Element) :
  with_class c doc = [] ->
  Dom.lookup k doc = Some e ->
  with_class c (Dom.update (Some k) (Dom.Classed c true) doc)
  = [Dom.apply_edit (Dom.Classed c true) e].
Proof.
  unfold with_class, Dom.lookup, Dom.update.
  induction doc as [|e0 rest IH]; simpl; [discriminate|].
  destruct (Dom.has_class c e0) eqn:E; [discriminate|]. intros Hnone.
  destruct (Dom.key e0 =? k)%nat; simpl.
  - intros H. injection H as ->. rewrite has_class_classed_on. now rewrite Hnone.
  - intros H. rewrite E. now apply IH.
Qed.

Lemma update_keeps_lookup (k : nat) (sel : Dom.Selection) (ed : Dom.Edit)
    (doc : Dom.Document) :
  Dom.present k doc = true ->
  exists e, Dom.lookup k (Dom.update sel ed doc) = Some e.
Proof.
  intros H. apply lookup_present. destruct sel as [k'|]; simpl; [|exact H].
  now rewrite present_update_key.
Qed.



Lemma unsuppressed_run (w : World) :
  unsuppressed w -> highlight_suppressed w = (Ok false, w).
Proof.
  unfold highlight_suppressed. intros [Hd|(ev & Hev & Hrt)].
  - now rewrite Hd.
  - rewrite Hev. destruct (truthy (_dragging (this w))); [|reflexivity].
    destruct (relatedTarget ev) as [t|]; [|reflexivity].
    destruct (t =? "path")%string eqn:E; [|reflexivity].
    apply String.eqb_eq in E. subst t. now contradiction Hrt.
Qed.



(** The run of [highlightNode] past its guard. *)
Lemma highlightNode_run (css : StyleSheet) (w : World) (nodeName : string)
    (highlighted : bool) (sel : Dom.Selection) :
  selected_by_id nodeName w = Ok sel ->
  unsuppressed w ->
  highlightNode css nodeName highlighted w
  = (Ok tt,
     with_fired (fired w ++ [nodeHighlight_of w nodeName highlighted])
       (with_document
          (let cleared := Dom.update (Dom.select_class (node_highlighted css) (document w))
                            (Dom.Classed (node_highlighted css) false) (document w) in
           if highlighted
           then Dom.update sel (Dom.Classed (node_highlighted css) true) cleared
           else cleared) w)).
Proof.
  intros Hsel Hu. unfold highlightNode.
  unfold bind at 1. unfold d3_select_id. rewrite Hsel.
  rewrite (bind_ok _ _ w w false (unsuppressed_run w Hu)).
  destruct highlighted; reflexivity.
Qed.


Lemma hovering_world_distinct_keys : distinct_keys (document hovering_world).
Proof.
  unfold distinct_keys. vm_compute.
  repeat constructor; simpl; intuition discriminate.
Qed.

Lemma hovering_world_unsuppressed : unsuppressed hovering_world.
Proof.
  right. exists {| relatedTarget := Some "DIV" |}.
  split; [vm_compute; reflexivity | discriminate].
Qed.



(* ================================================================= *)
(** ** The elements keep identities of their own *)

Lemma insert_child_keys (p : nat) (c : Dom.Element) (doc : Dom.Document) :
  Dom.present p doc = true ->
  exists l1 l2, map Dom.key doc = l1 ++ l2 /\
                map Dom.key (Dom.insert_child p c doc) = l1 ++ Dom.key c :: l2.
Proof.
  unfold Dom.present.
  induction doc as [|e rest IH]; simpl; [discriminate|].
  destruct (Dom.key e =? p)%nat; simpl.
  - intros _. set (n := Dom.subtree_len (Dom.depth e) rest).
    exists (Dom.key e :: map Dom.key (firstn n rest)), (map Dom.key (skipn n rest)).
    split.
    + simpl. now rewrite <- map_app, firstn_skipn.
    + simpl. now rewrite map_app.
  - intros H. destruct (IH H) as (l1 & l2 & H1 & H2).
    exists (Dom.key e :: l1), l2. simpl. now rewrite H1, H2.
Qed.

Lemma distinct_keys_append (sel : Dom.Selection) (t : string) (doc : Dom.Document) :
  distinct_keys doc -> distinct_keys (snd (Dom.append sel t doc)).
Proof.
  unfold distinct_keys, Dom.append. intros Hnd.
  destruct sel as [p|]; [|exact Hnd].
  destruct (Dom.present p doc) eqn:Hp; [|exact Hnd]. simpl.
  destruct (insert_child_keys p (Dom.create (Dom.fresh doc) 0 t) doc Hp)
    as (l1 & l2 & H1 & H2).
  rewrite H2. simpl. rewrite H1 in Hnd.
  apply (proj2 (NoDup_Add (Add_app (Dom.fresh doc) l1 l2))).
  split; [exact Hnd|]. rewrite <- H1. intros Hin.
  apply in_map_iff in Hin. destruct Hin as (e & Hk & Hin).
  exact (fresh_absent doc e Hin Hk).
Qed.

Lemma distinct_keys_update (sel : Dom.Selection) (ed : Dom.Edit) (doc : Dom.Document) :
  distinct_keys doc -> distinct_keys (Dom.update sel ed doc).
Proof.
  unfold distinct_keys. destruct sel as [k|]; simpl; [|auto].
  now rewrite update_key_keys.
Qed.

Lemma NoDup_skipn {A : Type} (n : nat) (l : list A) : NoDup l -> NoDup (skipn n l).
Proof.
  intros H. rewrite <- (firstn_skipn n l) in H.
  now apply NoDup_app_remove_l in H.
Qed.

Lemma distinct_keys_empty (sel : Dom.Selection) (doc : Dom.Document) :
  distinct_keys doc -> distinct_keys (Dom.empty sel doc).
Proof.
  unfold distinct_keys. destruct sel as [k|]; simpl; [|auto].
  induction doc as [|e rest IH]; simpl; [auto|]. intros Hnd.
  inversion Hnd as [|? ? Hnotin Hnd']; subst.
  destruct (Dom.key e =? k)%nat; simpl.
  - constructor.
    + intros Hin. apply Hnotin. rewrite <- skipn_map in Hin.
      rewrite <- (firstn_skipn (Dom.subtree_len (Dom.depth e) rest) (map Dom.key rest)).
      apply in_or_app. now right.
    + rewrite <- skipn_map. now apply NoDup_skipn.
  - constructor; [|now apply IH].
    intros Hin. apply Hnotin. clear - Hin.
    induction rest as [|e' rest' IH']; simpl in *; [contradiction|].
    destruct (Dom.key e' =? k)%nat; simpl in *.
    + destruct Hin as [Hin|Hin]; [now left|]. right.
      rewrite <- skipn_map in Hin.
      rewrite <- (firstn_skipn (Dom.subtree_len (Dom.depth e') rest') (map Dom.key rest')).
      apply in_or_app. now right.
    + destruct Hin as [Hin|Hin]; [now left | right; now apply IH'].
Qed.

Lemma remove_subtree_keys_in (k n : nat) (doc : Dom.Document) :
  In n (map Dom.key (Dom.remove_subtree k doc)) -> In n (map Dom.key doc).
Proof.
  induction doc as [|e rest IH]; simpl; [auto|].
  destruct (Dom.key e =? k)%nat; simpl.
  - intros Hin. right. rewrite <- skipn_map in Hin.
    rewrite <- (firstn_skipn (Dom.subtree_len (Dom.depth e) rest) (map Dom.key rest)).
    apply in_or_app. now right.
  - intros [Hin|Hin]; [now left | right; now apply IH].
Qed.

Lemma distinct_keys_remove (sel : Dom.Selection) (doc : Dom.Document) :
  distinct_keys doc -> distinct_keys (Dom.remove sel doc).
Proof.
  unfold distinct_keys. destruct sel as [k|]; simpl; [|auto].
  induction doc as [|e rest IH]; simpl; [auto|]. intros Hnd.
  inversion Hnd as [|? ? Hnotin Hnd']; subst.
  destruct (Dom.key e =? k)%nat; simpl.
  - rewrite <- skipn_map. now apply NoDup_skipn.
  - constructor; [|now apply IH].
    intros Hin. apply Hnotin. now apply (remove_subtree_keys_in k).
Qed.

Lemma insert_child_absent (p : nat) (c : Dom.Element) (doc : Dom.Document) :
  Dom.present p doc = false -> Dom.insert_child p c doc = doc.
Proof.
  unfold Dom.present. induction doc as [|e rest IH]; simpl; [reflexivity|].
  destruct (Dom.key e =? p)%nat; simpl; [discriminate|].
  intros H. now rewrite IH.
Qed.

Lemma distinct_keys_insert_fresh (p : nat) (c : Dom.Element) (doc : Dom.Document) :
  Dom.key c = Dom.fresh doc ->
  distinct_keys doc -> distinct_keys (Dom.insert_child p c doc).
Proof.
  intros Hc Hnd. destruct (Dom.present p doc) eqn:Hp;
    [|now rewrite insert_child_absent].
  unfold distinct_keys in *.
  destruct (insert_child_keys p c doc Hp) as (l1 & l2 & H1 & H2).
  rewrite H2, Hc. rewrite H1 in Hnd.
  apply (proj2 (NoDup_Add (Add_app (Dom.fresh doc) l1 l2))).
  split; [exact Hnd|]. rewrite <- H1. intros Hin.
  apply in_map_iff in Hin. destruct Hin as (e & Hk & Hin).
  exact (fresh_absent doc e Hin Hk).
Qed.

Lemma distinct_keys_graft (m : Dom.Markup) :
  forall (made : list nat) (root : nat) (doc : Dom.Document),
    distinct_keys doc -> distinct_keys (Dom.graft made root m doc).
Proof.
  induction m as [|[i t] rest IH]; intros made root doc Hnd; [exact Hnd|].
  simpl. apply IH. now apply distinct_keys_insert_fresh.
Qed.

Lemma distinct_keys_set_html (sel : Dom.Selection) (s : string) (m : Dom.Markup)
    (doc : Dom.Document) :
  distinct_keys doc -> distinct_keys (Dom.set_html sel s m doc).
Proof.
  intros Hnd. destruct sel as [k|]; [|exact Hnd]. unfold Dom.set_html.
  apply distinct_keys_graft.
  apply (distinct_keys_update (Some k) (Dom.SetHtml s)).
  now apply (distinct_keys_empty (Some k)).
Qed.

Lemma tidy_same_document {A : Type} (m : M A) :
  (forall w r w', m w = (r, w') -> document w' = document w) -> tidy m.
Proof. intros H w r w' Hd Hm. now rewrite (H w r w' Hm). Qed.

Lemma tidy_ret {A : Type} (a : A) : tidy (ret a).
Proof. apply tidy_same_document. intros w r w' H. now injection H as _ <-. Qed.

Lemma tidy_throw {A : Type} (e : Exn) : tidy (@throw A e).
Proof. apply tidy_same_document. intros w r w' H. now injection H as _ <-. Qed.

Lemma tidy_bind {A B : Type} (m : M A) (k : A -> M B) :
  tidy m -> (forall a, tidy (k a)) -> tidy (bind m k).
Proof.
  intros Hm Hk w r w' Hd H. unfold bind in H.
  destruct (m w) as [[a|e] w1] eqn:E.
  - apply (Hk a w1 r w'); [apply (Hm w _ w1 Hd E) | exact H].
  - injection H as _ <-. apply (Hm w _ w1 Hd E).
Qed.

Lemma tidy_defined {A : Type} (field : Diagram -> option A) : tidy (defined field).
Proof.
  apply tidy_same_document. intros w r w' H. unfold defined in H.
  destruct (field (this w)); now injection H as _ <-.
Qed.

Lemma tidy_get_this : tidy get_this.
Proof. apply tidy_same_document. intros w r w' H. now injection H as _ <-. Qed.

Lemma tidy_set_this (f : Diagram -> Diagram) : tidy (set_this f).
Proof. apply tidy_same_document. intros w r w' H. now injection H as _ <-. Qed.

Lemma tidy_fire (ev : string) (a : list Arg) : tidy (observable_fire ev a).
Proof. apply tidy_same_document. intros w r w' H. now injection H as _ <-. Qed.

Lemma tidy_get_engine : tidy get_engine.
Proof. apply tidy_same_document. intros w r w' H. now injection H as _ <-. Qed.

Lemma tidy_select_id (i : string) : tidy (d3_select_id i).
Proof. apply tidy_same_document. intros w r w' H. now injection H as _ <-. Qed.

Lemma tidy_select_class (c : string) : tidy (d3_select_class c).
Proof. apply tidy_same_document. intros w r w' H. now injection H as _ <-. Qed.

Lemma tidy_getElementById (i : string) : tidy (document_getElementById i).
Proof. apply tidy_same_document. intros w r w' H. now injection H as _ <-. Qed.

Lemma tidy_append (sel : Dom.Selection) (t : string) : tidy (d3_append sel t).
Proof.
  intros w r w' Hd H. unfold d3_append in H.
  pose proof (distinct_keys_append sel t (document w) Hd) as Hd'.
  destruct (Dom.append sel t (document w)) as [s doc].
  injection H as _ <-. exact Hd'.
Qed.

Lemma tidy_edit (sel : Dom.Selection) (ed : Dom.Edit) : tidy (d3_edit sel ed).
Proof.
  intros w r w' Hd H. injection H as _ <-. now apply distinct_keys_update.
Qed.

Lemma tidy_attr_fn (sel : Dom.Selection) (n : string) (f : Engine -> Result string) :
  tidy (d3_attr_fn sel n f).
Proof.
  unfold d3_attr_fn. destruct sel; [|apply tidy_ret].
  intros w r w' Hd H. destruct (f (engine w)).
  - exact (tidy_edit _ _ w r w' Hd H).
  - exact (tidy_throw _ w r w' Hd H).
Qed.

Lemma tidy_style_length (sel : Dom.Selection) (n : string) (f : float) :
  tidy (d3_style_length sel n f).
Proof.
  intros w r w' Hd H. unfold d3_style_length in H. destruct (valid_length f).
  - exact (tidy_edit _ _ w r w' Hd H).
  - exact (tidy_ret tt w r w' Hd H).
Qed.

Lemma tidy_html (sel : Dom.Selection) (s : string) : tidy (d3_html sel s).
Proof.
  intros w r w' Hd H. injection H as _ <-. now apply distinct_keys_set_html.
Qed.

Lemma tidy_html_empty (sel : Dom.Selection) : tidy (d3_html_empty sel).
Proof.
  intros w r w' Hd H. injection H as _ <-. now apply distinct_keys_empty.
Qed.

Lemma tidy_remove (sel : Dom.Selection) : tidy (d3_remove sel).
Proof.
  intros w r w' Hd H. injection H as _ <-. now apply distinct_keys_remove.
Qed.

Lemma tidy_forEach_from {A : Type} (f : A -> nat -> M unit) (l : list A) :
  (forall a i, tidy (f a i)) -> forall i, tidy (forEach_from i f l).
Proof.
  intros Hf. induction l as [|a rest IH]; intros i; simpl.
  - apply tidy_ret.
  - apply tidy_bind; [apply Hf | intros _; apply IH].
Qed.

Create HintDb tidy.
#[local] Hint Resolve tidy_ret tidy_throw tidy_defined tidy_get_this tidy_set_this
  tidy_get_engine tidy_fire tidy_select_id tidy_select_class tidy_getElementById
  tidy_append tidy_edit tidy_attr_fn tidy_style_length tidy_html tidy_html_empty
  tidy_remove : tidy.

Ltac tidy_steps :=
  repeat (first [ apply tidy_bind; [|intro] | solve [auto with tidy] ]).

Lemma tidy_render (css : StyleSheet) (target : Target) : tidy (render css target).
Proof.
  unfold render. apply tidy_bind.
  - destruct target; simpl; auto with tidy.
  - intro. tidy_steps.
Qed.

Lemma tidy_renderNodes_then (css : StyleSheet) (layout : Layout) :
  tidy (_renderNodes_then css layout).
Proof.
  unfold _renderNodes_then. apply tidy_bind; [auto with tidy | intro ns].
  apply tidy_bind.
  - apply tidy_forEach_from. intros n i. unfold _renderNodes_each.
    destruct (nth_error (layout_children layout) i); [|apply tidy_throw].
    unfold _renderNode. tidy_steps.
  - intros _. apply tidy_bind.
    + unfold _renderEdges. apply tidy_bind; [auto with tidy | intro es].
      apply tidy_forEach_from. intros e i. unfold _renderEdges_each. tidy_steps.
      destruct (type e =? "arrow")%string; auto with tidy.
    + intros _. unfold _setGraphSize. tidy_steps.
Qed.

Lemma tidy_setData (data : Data) : tidy (setData data).
Proof.
  unfold setData. apply tidy_bind; [auto with tidy | intro d].
  destruct (_container d); [|apply tidy_throw].
  unfold _renderNodes, _getElkGraph. tidy_steps.
Qed.

Lemma tidy_destroy : tidy destroy.
Proof. unfold destroy. tidy_steps. Qed.

Lemma tidy_selectNode (css : StyleSheet) (nodeName : string) (selected : bool) :
  tidy (selectNode css nodeName selected).
Proof.
  unfold selectNode. apply tidy_bind; [auto with tidy | intro el].
  destruct el; [|apply tidy_throw].
  destruct selected; tidy_steps.
Qed.

Lemma tidy_highlightNode (css : StyleSheet) (nodeName : string) (highlighted : bool) :
  tidy (highlightNode css nodeName highlighted).
Proof.
  unfold highlightNode. apply tidy_bind; [auto with tidy | intro nodeEl].
  apply tidy_bind.
  - apply tidy_same_document. intros w r w' H. unfold highlight_suppressed in H.
    destruct (truthy (_dragging (this w))); [|now injection H as _ <-].
    destruct (d3_event w) as [ev|]; [|now injection H as _ <-].
    destruct (relatedTarget ev); now injection H as _ <-.
  - intros suppressed. destruct suppressed; [apply tidy_ret|].
    destruct highlighted; tidy_steps.
Qed.

(** From a page whose elements are distinct, [render] and then any
    number of [setData] calls with their layouts leave them distinct. *)
Lemma shown_distinct_keys (css : StyleSheet) (w : World) (target : Target)
    (runs : list (Data * Layout)) :
  distinct_keys (document w) ->
  distinct_keys
    (document
       (fold_left (fun w' dl => exec (setData_resolved css (fst dl) (snd dl)) w')
          runs (exec (render css target) w))).
Proof.
  intros Hd.
  assert (H0 : distinct_keys (document (exec (render css target) w))).
  { unfold exec. destruct (render css target w) as [r w'] eqn:E.
    exact (tidy_render css target w r w' Hd E). }
  revert H0. generalize (exec (render css target) w).
  induction runs as [|[data layout] rest IH]; intros w0 H0; simpl; [exact H0|].
  apply IH. unfold exec, setData_resolved.
  destruct (bind (setData data) (fun _ => _renderNodes_then css layout) w0)
    as [r w'] eqn:E.
  refine (tidy_bind _ _ (tidy_setData data) _ w0 r w' H0 E).
  intros _. apply tidy_renderNodes_then.
Qed.

(* ================================================================= *)
(** ** What [selectNode] does keep of C3 *)

(** A name that designates no element of the page at all makes
    [selectNode] throw before it changes anything. *)
Lemma selectNode_unknown (css : StyleSheet) (w : World) (nodeName : string)
    (selected : bool) :
  Dom.getElementById nodeName (document w) = None ->
  selectNode css nodeName selected w
  = (Throw (Thrown ("Node " ++ nodeName
                    ++ " doesn't exist or graph hasn't been rendered yet")%string), w).
Proof.
  intros H. unfold selectNode, bind, document_getElementById. now rewrite H.
Qed.

Lemma getElementById_present (i : string) (doc : Dom.Document) (k : nat) :
  Dom.getElementById i doc = Some k -> Dom.present k doc = true.
Proof.
  unfold Dom.getElementById. destruct (i =? "")%string; [discriminate|].
  intros H. destruct (find_key_in _ _ _ H) as (e & Hin & Hk & _).
  apply present_true. eauto.
Qed.

(** With at most one element selected before, [selectNode(name, true)]
    leaves the element that [getElementById(name)] returns selected, and
    no other. *)
Lemma selectNode_moves_selection (css : StyleSheet) (w : World) (nodeName : string)
    (k : nat) :
  distinct_keys (document w) ->
  List.length (with_class (node_selected css) (document w)) <= 1 ->
  Dom.getElementById nodeName (document w) = Some k ->
  exists w',
    selectNode css nodeName true w = (Ok tt, w') /\
    map Dom.key (with_class (node_selected css) (document w')) = [k] /\
    _selectedNodeName (this w') = Some nodeName /\
    distinct_keys (document w').
Proof.
  intros Hnd Hone Hk.
  pose proof (classed_off_first (node_selected css) (document w) Hnd Hone) as Hoff.
  set (cleared := Dom.update (Dom.select_class (node_selected css) (document w))
                    (Dom.Classed (node_selected css) false) (document w)) in *.
  destruct (update_keeps_lookup k (Dom.select_class (node_selected css) (document w))
              (Dom.Classed (node_selected css) false) (document w)
              (getElementById_present nodeName (document w) k Hk)) as [e He].
  fold cleared in He.
  eexists. split.
  - unfold selectNode, bind, document_getElementById. rewrite Hk. reflexivity.
  - cbn [document this with_this with_document d3_select_class d3_edit set_this fst snd].
    fold cleared. repeat split.
    + rewrite (classed_on_only _ k cleared e Hoff He). simpl.
      f_equal. now apply lookup_in in He.
    + apply distinct_keys_update. now apply distinct_keys_update.
Qed.

Lemma getElementById_same (i : string) (doc doc' : Dom.Document) :
  map Dom.key doc = map Dom.key doc' ->
  map Dom.id_of doc = map Dom.id_of doc' ->
  Dom.getElementById i doc = Dom.getElementById i doc'.
Proof.
  unfold Dom.getElementById. destruct (i =? "")%string; [reflexivity|].
  revert doc'. induction doc as [|e rest IH]; intros [|e' rest'] Hk Hi;
    try discriminate; [reflexivity|].
  simpl in *. injection Hk as Hk Hk'. injection Hi as Hi Hi'.
  unfold Dom.has_id at 1 3. rewrite Hi.
  destruct (match Dom.id_of e' with
            | Some i' => (i' =? i)%string
            | None => false
            end); simpl; [now rewrite Hk | now apply IH].
Qed.

Lemma update_ids (sel : Dom.Selection) (c : string) (b : bool) (doc : Dom.Document) :
  map Dom.id_of (Dom.update sel (Dom.Classed c b) doc) = map Dom.id_of doc.
Proof.
  destruct sel as [k|]; simpl; [|reflexivity].
  induction doc as [|e rest IH]; simpl; [reflexivity|].
  destruct (Dom.key e =? k)%nat; simpl; [reflexivity | now rewrite IH].
Qed.

Lemma update_keys (sel : Dom.Selection) (ed : Dom.Edit) (doc : Dom.Document) :
  map Dom.key (Dom.update sel ed doc) = map Dom.key doc.
Proof.
  destruct sel as [k|]; simpl; [apply update_key_keys | reflexivity].
Qed.

(** X13. [selectNode(A, true)] then [selectNode(B, true)], for two names that
    [getElementById] resolves: the element of B is the only one selected. *)
Lemma selectNode_A_then_B (css : StyleSheet) (w : World) (A B : string) (kA kB : nat) :
  distinct_keys (document w) ->
  List.length (with_class (node_selected css) (document w)) <= 1 ->
  Dom.getElementById A (document w) = Some kA ->
  Dom.getElementById B (document w) = Some kB ->
  exists w1 w2,
    selectNode css A true w = (Ok tt, w1) /\
    selectNode css B true w1 = (Ok tt, w2) /\
    map Dom.key (with_class (node_selected css) (document w2)) = [kB] /\
    _selectedNodeName (this w2) = Some B.
Proof.
  intros Hnd Hone HA HB.
  destruct (selectNode_moves_selection css w A kA Hnd Hone HA)
    as (w1 & Hrun1 & Hsel1 & _ & Hnd1).
  assert (Hdoc1 : document w1
                  = Dom.update (Some kA) (Dom.Classed (node_selected css) true)
                      (Dom.update (Dom.select_class (node_selected css) (document w))
                         (Dom.Classed (node_selected css) false) (document w))).
  { unfold selectNode, bind, document_getElementById in Hrun1. rewrite HA in Hrun1.
    injection Hrun1 as <-. reflexivity. }
  assert (Hone1 : List.length (with_class (node_selected css) (document w1)) <= 1).
  { rewrite <- (length_map Dom.key), Hsel1. simpl. lia. }
  assert (HB1 : Dom.getElementById B (document w1) = Some kB).
  { rewrite <- HB, Hdoc1. apply getElementById_same.
    - now rewrite !update_keys.
    - now rewrite !update_ids. }
  destruct (selectNode_moves_selection css w1 B kB Hnd1 Hone1 HB1)
    as (w2 & Hrun2 & Hsel2 & Hname2 & _).
  exists w1, w2. repeat split; assumption.
Qed.

(* ================================================================= *)
(** ** The callback of the layout runs to its end *)

Section Sure.

Variable P : Diagram -> Prop.

Lemma sure_ret {A : Type} (a : A) : sure P (ret a).
Proof. intros w _. exists a, w. split; reflexivity. Qed.

Lemma sure_bind {A B : Type} (m : M A) (k : A -> M B) :
  sure P m -> (forall a, sure P (k a)) -> sure P (bind m k).
Proof.
  intros Hm Hk w Hw. destruct (Hm w Hw) as (a & w1 & Hrun & Hthis).
  destruct (Hk a w1) as (b & w2 & Hrun2 & Hthis2); [now rewrite Hthis|].
  exists b, w2. split; [|congruence].
  now rewrite (bind_ok m k w w1 a Hrun).
Qed.

Lemma sure_get_this : sure P get_this.
Proof. intros w _. exists (this w), w. split; reflexivity. Qed.

Lemma sure_defined {A : Type} (field : Diagram -> option A) :
  (forall d, P d -> exists a, field d = Some a) -> sure P (defined field).
Proof.
  intros H w Hw. destruct (H (this w) Hw) as [a Ha].
  exists a, w. split; [now apply defined_some | reflexivity].
Qed.

Lemma sure_append (sel : Dom.Selection) (t : string) : sure P (d3_append sel t).
Proof.
  intros w _. unfold d3_append.
  destruct (Dom.append sel t (document w)) as [s doc].
  eexists. eexists. split; reflexivity.
Qed.

Lemma sure_edit (sel : Dom.Selection) (ed : Dom.Edit) : sure P (d3_edit sel ed).
Proof. intros w _. eexists. eexists. split; reflexivity. Qed.

Lemma sure_get_engine : sure P get_engine.
Proof. intros w _. exists (engine w), w. split; reflexivity. Qed.

Lemma sure_style_length (sel : Dom.Selection) (n : string) (f : float) :
  sure P (d3_style_length sel n f).
Proof.
  intros w Hw. unfold d3_style_length. destruct (valid_length f).
  - now apply sure_edit.
  - now apply (sure_ret tt).
Qed.

Lemma sure_html (sel : Dom.Selection) (s : string) : sure P (d3_html sel s).
Proof. intros w _. eexists. eexists. split; reflexivity. Qed.

Lemma sure_attr_fn (sel : Dom.Selection) (n : string) (f : Engine -> Result string) :
  (forall eng, exists v, f eng = Ok v) ->
  sure P (d3_attr_fn sel n f).
Proof.
  intros Hf. unfold d3_attr_fn. destruct sel; [|apply sure_ret].
  intros w Hw. destruct (Hf (engine w)) as [v Hv]. rewrite Hv.
  now apply sure_edit.
Qed.

Lemma sure_forEach_from {A : Type} (f : A -> nat -> M unit) (l : list A) :
  forall i, (forall j a, nth_error l j = Some a -> sure P (f a (i + j))) ->
            sure P (forEach_from i f l).
Proof.
  induction l as [|a rest IH]; intros i Hf; simpl.
  - apply sure_ret.
  - apply sure_bind.
    + specialize (Hf 0 a eq_refl). now rewrite Nat.add_0_r in Hf.
    + intros _. apply IH. intros j b Hj.
      replace (S i + j) with (i + S j) by lia. now apply Hf.
Qed.

End Sure.

Lemma renderNodes_then_succeeds (css : StyleSheet) (w : World) (layout : Layout)
    (ns : list Node) (es : list Edge) (el svg group : Dom.Selection) :
  _nodes (this w) = Some ns ->
  _edges (this w) = Some es ->
  _el (this w) = Some el ->
  _svg (this w) = Some svg ->
  _group (this w) = Some group ->
  answers layout ns es ->
  exists w', _renderNodes_then css layout w = (Ok tt, w').
Proof.
  intros Hns Hes Hel Hsvg Hgroup [Hfit Hroute].
  set (P := fun d : Diagram =>
              _edges d = Some es /\ _el d = Some el /\
              _svg d = Some svg /\ _group d = Some group).
  assert (Sel : sure P (defined _el))
    by (apply sure_defined; intros d (_ & H & _); eauto).
  assert (Ssvg : sure P (defined _svg))
    by (apply sure_defined; intros d (_ & _ & H & _); eauto).
  assert (Sgroup : sure P (defined _group))
    by (apply sure_defined; intros d (_ & _ & _ & H); eauto).
  assert (Snodes : sure P (forEach ns (_renderNodes_each css layout))).
  { apply sure_forEach_from. intros j n Hj. simpl. unfold _renderNodes_each.
    assert (Hlt : j < List.length ns) by (apply nth_error_Some; congruence).
    destruct (nth_error (layout_children layout) j) as [c|] eqn:Ec;
      [|apply nth_error_None in Ec; lia].
    unfold _renderNode.
    repeat (first [ apply sure_bind; [|intro]
                  | apply sure_get_this | apply sure_get_engine | exact Sel
                  | apply sure_append | apply sure_edit | apply sure_html ]). }
  assert (Sedges : sure P (forEach es (_renderEdges_each layout))).
  { apply sure_forEach_from. intros j e Hj. simpl. unfold _renderEdges_each.
    assert (Hlt : j < List.length es) by (apply nth_error_Some; congruence).
    repeat (first [ apply sure_bind; [|intro]
                  | exact Sgroup | apply sure_append | apply sure_edit
                  | apply sure_attr_fn;
                    intros eng; exact (routed_edge_path layout _ j eng Hroute Hlt) ]).
    destruct (type e =? "arrow")%string; [apply sure_edit | apply sure_ret]. }
  assert (Ssize : sure P (_setGraphSize (layout_children layout))).
  { unfold _setGraphSize.
    repeat (first [ apply sure_bind; [|intro]
                  | apply sure_get_engine | exact Sel | exact Ssvg | apply sure_edit
                  | apply sure_style_length ]). }
  assert (HP : P (this w)) by (repeat split; assumption).
  unfold _renderNodes_then.
  rewrite (bind_ok _ _ w w ns (defined_some _nodes w ns Hns)).
  destruct (Snodes w HP) as ([] & w1 & Hrun1 & Hthis1).
  rewrite (bind_ok _ _ w w1 tt Hrun1).
  assert (HP1 : P (this w1)) by (now rewrite Hthis1).
  destruct (Sedges w1 HP1) as ([] & w2 & Hrun2 & Hthis2).
  assert (Hedges : _renderEdges layout w1 = (Ok tt, w2)).
  { unfold _renderEdges.
    now rewrite (bind_ok _ _ w1 w1 es (defined_some _edges w1 es (proj1 HP1))). }
  cbv beta. rewrite (bind_ok _ _ w1 w2 tt Hedges).
  assert (HP2 : P (this w2)) by (now rewrite Hthis2).
  destruct (Ssize w2 HP2) as ([] & w3 & Hrun3 & _).
  exists w3. exact Hrun3.
Qed.

(* ================================================================= *)
(** ** The children of an element under the operations of the page *)

Lemma subtree_prefix_deep (d : nat) (l : Dom.Document) (a : Dom.Element) :
  In a (firstn (Dom.subtree_len d l) l) -> d < Dom.depth a.
Proof.
  induction l as [|e rest IH]; simpl; [contradiction|].
  destruct (d <? Dom.depth e)%nat eqn:E; simpl; [|contradiction].
  intros [<-|Hin]; [now apply Nat.ltb_lt | now apply IH].
Qed.

Lemma subtree_len_app_deep (d : nat) (l1 l2 : Dom.Document) :
  (forall a, In a l1 -> d < Dom.depth a) ->
  Dom.subtree_len d (l1 ++ l2) = List.length l1 + Dom.subtree_len d l2.
Proof.
  induction l1 as [|e rest IH]; intros H; simpl; [reflexivity|].
  assert (He : (d <? Dom.depth e)%nat = true)
    by (apply Nat.ltb_lt; apply H; now left).
  rewrite He. f_equal. apply IH. intros a Ha. apply H. now right.
Qed.

Lemma subtree_len_split (d : nat) (l : Dom.Document) (n : nat) :
  (forall a, In a (firstn n l) -> d < Dom.depth a) ->
  n <= List.length l ->
  Dom.subtree_len d l = n + Dom.subtree_len d (skipn n l).
Proof.
  intros H Hn. rewrite <- (firstn_skipn n l) at 1.
  rewrite subtree_len_app_deep by exact H.
  now rewrite firstn_length_le.
Qed.

Lemma filter_none {A : Type} (f : A -> bool) (l : list A) :
  (forall a, In a l -> f a = false) -> filter f l = [].
Proof.
  induction l as [|a rest IH]; intros H; simpl; [reflexivity|].
  rewrite (H a) by (now left). apply IH. intros b Hb. apply H. now right.
Qed.

Lemma firstn_add_skipn {A : Type} (n t : nat) (l : list A) :
  firstn (n + t) l = firstn n l ++ firstn t (skipn n l).
Proof.
  revert l. induction n as [|n IH]; intros l; [reflexivity|].
  destruct l as [|a rest]; simpl; [now rewrite firstn_nil | now rewrite IH].
Qed.

(** The children found in the subtree that starts a list, before and
    after an element is appended somewhere in the list. *)
Lemma subtree_children_insert (p : nat) (c : Dom.Element) (d : nat) (l : Dom.Document) :
  filter (fun x => Dom.depth x =? S d)%nat
    (firstn (Dom.subtree_len d (Dom.insert_child p c l)) (Dom.insert_child p c l))
  = filter (fun x => Dom.depth x =? S d)%nat (firstn (Dom.subtree_len d l) l).
Proof.
  induction l as [|e rest IH]; [reflexivity|]. simpl.
  destruct (Dom.key e =? p)%nat; simpl.
  - destruct (d <? Dom.depth e)%nat eqn:E; simpl; [|reflexivity].
    apply Nat.ltb_lt in E.
    set (m := Dom.subtree_len (Dom.depth e) rest).
    assert (Hdeep : forall a, In a (firstn m rest) -> d < Dom.depth a).
    { intros a Ha. apply subtree_prefix_deep in Ha. lia. }
    assert (Hc : (d <? S (Dom.depth e))%nat = true) by (apply Nat.ltb_lt; lia).
    assert (Hne : (Dom.depth e =? d)%nat = false) by (apply Nat.eqb_neq; lia).
    assert (Heq : filter (fun x => Dom.depth x =? S d)%nat
                    (firstn (Dom.subtree_len d
                               (firstn m rest ++ Dom.place (S (Dom.depth e)) c :: skipn m rest))
                       (firstn m rest ++ Dom.place (S (Dom.depth e)) c :: skipn m rest))
                  = filter (fun x => Dom.depth x =? S d)%nat
                      (firstn (Dom.subtree_len d rest) rest)).
    { rewrite subtree_len_app_deep by exact Hdeep. simpl. rewrite Hc.
      rewrite firstn_app_2. simpl.
      rewrite (subtree_len_split d rest m Hdeep (subtree_len_le _ _)).
      rewrite firstn_add_skipn. rewrite !filter_app. simpl. now rewrite Hne. }
    now rewrite Heq.
  - destruct (d <? Dom.depth e)%nat; simpl; [|reflexivity].
    now rewrite IH.
Qed.

Lemma subtree_stops (d : nat) (c : Dom.Element) (l1 l2 : Dom.Document) :
  Dom.depth c <= d ->
  Dom.subtree_len d l2 = 0 ->
  firstn (Dom.subtree_len d (l1 ++ c :: l2)) (l1 ++ c :: l2)
  = firstn (Dom.subtree_len d (l1 ++ l2)) (l1 ++ l2).
Proof.
  intros Hc Hl2. induction l1 as [|e rest IH]; simpl.
  - assert (E : (d <? Dom.depth c)%nat = false) by (apply Nat.ltb_ge; exact Hc).
    rewrite E, Hl2. now destruct l2.
  - destruct (d <? Dom.depth e)%nat; simpl; [now rewrite IH | reflexivity].
Qed.

Lemma child_elements_skip (k : nat) (c : Dom.Element) (l1 l2 : Dom.Document) :
  Dom.key c <> k ->
  (forall a, In a l1 -> Dom.depth c <= Dom.depth a) ->
  Dom.subtree_len (pred (Dom.depth c)) l2 = 0 ->
  Dom.child_elements k (l1 ++ c :: l2) = Dom.child_elements k (l1 ++ l2).
Proof.
  intros Hc Hdeep Hl2. induction l1 as [|e rest IH]; simpl.
  - apply Nat.eqb_neq in Hc. now rewrite Hc.
  - destruct (Dom.key e =? k)%nat.
    + rewrite subtree_stops; [reflexivity | apply Hdeep; now left |].
      apply (subtree_len_shallower (pred (Dom.depth c))); [|exact Hl2].
      specialize (Hdeep e (or_introl eq_refl)). lia.
    + apply IH. intros a Ha. apply Hdeep. now right.
Qed.

(** Appending under another element leaves the children of [k] as they
    are. *)
Lemma child_elements_insert_other (k p : nat) (c : Dom.Element) (doc : Dom.Document) :
  Dom.key c <> k -> p <> k ->
  Dom.child_elements k (Dom.insert_child p c doc) = Dom.child_elements k doc.
Proof.
  intros Hc Hp. induction doc as [|e rest IH]; [reflexivity|]. simpl.
  destruct (Dom.key e =? p)%nat eqn:Ep; simpl.
  - apply Nat.eqb_eq in Ep.
    assert (Ek : (Dom.key e =? k)%nat = false) by (apply Nat.eqb_neq; congruence).
    rewrite Ek.
    rewrite child_elements_skip.
    + now rewrite firstn_skipn.
    + exact Hc.
    + intros a Ha. apply subtree_prefix_deep in Ha. simpl. lia.
    + simpl. apply subtree_len_rest.
  - destruct (Dom.key e =? k)%nat; [apply subtree_children_insert | exact IH].
Qed.

Lemma update_skeleton (sel : Dom.Selection) (ed : Dom.Edit) (doc : Dom.Document) :
  map skeleton (Dom.update sel ed doc) = map skeleton doc.
Proof.
  destruct sel as [k|]; simpl; [|reflexivity].
  induction doc as [|e rest IH]; simpl; [reflexivity|].
  destruct (Dom.key e =? k)%nat; simpl; [|now rewrite IH].
  unfold skeleton at 1 3. now rewrite apply_edit_key, apply_edit_depth, apply_edit_tag.
Qed.

Lemma subtree_len_skeleton (d : nat) (l l' : Dom.Document) :
  map skeleton l = map skeleton l' -> Dom.subtree_len d l = Dom.subtree_len d l'.
Proof.
  revert l'. induction l as [|e rest IH]; intros [|e' rest'] H; try discriminate;
    [reflexivity|].
  simpl in *. injection H as Hk Hd Ht Hrest. rewrite Hd.
  destruct (d <? Dom.depth e')%nat; [f_equal; now apply IH | reflexivity].
Qed.

Lemma children_skeleton (x n : nat) (l l' : Dom.Document) :
  map skeleton l = map skeleton l' ->
  map skeleton (filter (fun c => Dom.depth c =? x)%nat (firstn n l))
  = map skeleton (filter (fun c => Dom.depth c =? x)%nat (firstn n l')).
Proof.
  revert l l'. induction n as [|n IH]; intros l l' H; [reflexivity|].
  destruct l as [|e rest], l' as [|e' rest']; try discriminate; [reflexivity|].
  simpl in *. injection H as Hk Hd Ht Hrest. rewrite Hd.
  destruct (Dom.depth e' =? x)%nat; simpl.
  - unfold skeleton at 1 3. rewrite Hk, Hd, Ht. f_equal. now apply IH.
  - now apply IH.
Qed.

Lemma child_elements_skeleton (k : nat) (doc doc' : Dom.Document) :
  map skeleton doc = map skeleton doc' ->
  map skeleton (Dom.child_elements k doc) = map skeleton (Dom.child_elements k doc').
Proof.
  revert doc'. induction doc as [|e rest IH]; intros [|e' rest'] H; try discriminate;
    [reflexivity|].
  simpl in *. injection H as Hk Hd Ht Hrest. rewrite Hk, Hd.
  destruct (Dom.key e' =? k)%nat; [|now apply IH].
  rewrite (subtree_len_skeleton (Dom.depth e') rest rest' Hrest).
  now apply children_skeleton.
Qed.

Lemma kids_skeleton (k : nat) (doc : Dom.Document) :
  kids k doc = map (fun s => snd s) (map skeleton (Dom.child_elements k doc)).
Proof. unfold kids. now rewrite map_map. Qed.

Lemma kids_update (k : nat) (sel : Dom.Selection) (ed : Dom.Edit) (doc : Dom.Document) :
  kids k (Dom.update sel ed doc) = kids k doc.
Proof.
  rewrite !kids_skeleton. f_equal.
  apply child_elements_skeleton. apply update_skeleton.
Qed.

Lemma child_elements_cleared (el : nat) (doc : Dom.Document) :
  Dom.child_elements el (Dom.clear_children el doc) = [].
Proof.
  induction doc as [|e rest IH]; [reflexivity|]. simpl.
  destruct (Dom.key e =? el)%nat eqn:E; simpl; rewrite E; [|exact IH].
  now rewrite subtree_len_rest.
Qed.

Lemma child_elements_drop_prefix (k : nat) (l1 l2 : Dom.Document) :
  (forall a, In a l1 -> Dom.key a <> k) ->
  Dom.child_elements k (l1 ++ l2) = Dom.child_elements k l2.
Proof.
  induction l1 as [|e rest IH]; intros H; [reflexivity|]. simpl.
  assert (E : (Dom.key e =? k)%nat = false)
    by (apply Nat.eqb_neq; apply H; now left).
  rewrite E. apply IH. intros a Ha. apply H. now right.
Qed.

Lemma subtree_children_clear (k d : nat) (l : Dom.Document) :
  filter (fun x => Dom.depth x =? S d)%nat
    (firstn (Dom.subtree_len d (Dom.clear_children k l)) (Dom.clear_children k l))
  = filter (fun x => Dom.depth x =? S d)%nat (firstn (Dom.subtree_len d l) l).
Proof.
  induction l as [|e rest IH]; [reflexivity|]. simpl.
  destruct (Dom.key e =? k)%nat; simpl.
  - destruct (d <? Dom.depth e)%nat eqn:E; simpl; [|reflexivity].
    apply Nat.ltb_lt in E.
    set (m := Dom.subtree_len (Dom.depth e) rest).
    assert (Hdeep : forall a, In a (firstn m rest) -> d < Dom.depth a).
    { intros a Ha. apply subtree_prefix_deep in Ha. lia. }
    assert (Heq : filter (fun x => Dom.depth x =? S d)%nat
                    (firstn (Dom.subtree_len d rest) rest)
                  = filter (fun x => Dom.depth x =? S d)%nat
                      (firstn (Dom.subtree_len d (skipn m rest)) (skipn m rest))).
    { rewrite (subtree_len_split d rest m Hdeep (subtree_len_le _ _)).
      rewrite firstn_add_skipn, filter_app.
      rewrite (filter_none _ (firstn m rest)); [reflexivity|].
      intros a Ha. apply subtree_prefix_deep in Ha. apply Nat.eqb_neq. lia. }
    now rewrite Heq.
  - destruct (d <? Dom.depth e)%nat; simpl; [|reflexivity].
    now rewrite IH.
Qed.

Lemma inside_prefix (g : nat) (l : Dom.Document) :
  existsb (fun c => Dom.key c =? g)%nat l = false ->
  forall a, In a l -> Dom.key a <> g.
Proof.
  intros H a Ha Hk.
  assert (Ht : existsb (fun c => Dom.key c =? g)%nat l = true).
  { apply existsb_exists. exists a. split; [exact Ha | now apply Nat.eqb_eq]. }
  congruence.
Qed.

(** Emptying an element leaves the children of an element outside it
    as they are. *)
Lemma child_elements_clear_other (g el : nat) (doc : Dom.Document) :
  el <> g -> inside g el doc = false ->
  Dom.child_elements g (Dom.clear_children el doc) = Dom.child_elements g doc.
Proof.
  intros Hne. induction doc as [|e rest IH]; [reflexivity|]. simpl.
  destruct (Dom.key e =? el)%nat eqn:Eel; simpl.
  - intros Hin. apply Nat.eqb_eq in Eel.
    assert (Eg : (Dom.key e =? g)%nat = false) by (apply Nat.eqb_neq; congruence).
    rewrite Eg.
    rewrite <- (child_elements_drop_prefix g
                  (firstn (Dom.subtree_len (Dom.depth e) rest) rest)
                  (skipn (Dom.subtree_len (Dom.depth e) rest) rest))
      by (now apply inside_prefix).
    now rewrite firstn_skipn.
  - intros Hin. destruct (Dom.key e =? g)%nat; [apply subtree_children_clear | now apply IH].
Qed.

Lemma find_drop_prefix {A : Type} (f : A -> bool) (l1 l2 : list A) :
  (forall a, In a l1 -> f a = false) -> find f (l1 ++ l2) = find f l2.
Proof.
  induction l1 as [|a rest IH]; intros H; [reflexivity|]. simpl.
  rewrite (H a) by (now left). apply IH. intros b Hb. apply H. now right.
Qed.

Lemma lookup_clear_other (g el : nat) (doc : Dom.Document) :
  el <> g -> inside g el doc = false ->
  Dom.lookup g (Dom.clear_children el doc) = Dom.lookup g doc.
Proof.
  intros Hne. unfold Dom.lookup.
  induction doc as [|e rest IH]; [reflexivity|]. simpl.
  destruct (Dom.key e =? el)%nat eqn:Eel; simpl.
  - intros Hin. apply Nat.eqb_eq in Eel.
    assert (Eg : (Dom.key e =? g)%nat = false) by (apply Nat.eqb_neq; congruence).
    rewrite Eg.
    rewrite <- (find_drop_prefix (fun x => Dom.key x =? g)%nat
                  (firstn (Dom.subtree_len (Dom.depth e) rest) rest)
                  (skipn (Dom.subtree_len (Dom.depth e) rest) rest))
      by (intros a Ha; apply Nat.eqb_neq; now apply (inside_prefix g _ Hin)).
    now rewrite firstn_skipn.
  - intros Hin. destruct (Dom.key e =? g)%nat; [reflexivity | now apply IH].
Qed.

Lemma lookup_clear_self (el : nat) (doc : Dom.Document) :
  Dom.lookup el (Dom.clear_children el doc) = Dom.lookup el doc.
Proof.
  unfold Dom.lookup. induction doc as [|e rest IH]; [reflexivity|]. simpl.
  destruct (Dom.key e =? el)%nat eqn:E; simpl; rewrite E; [reflexivity | exact IH].
Qed.

(* ================================================================= *)
(** ** How many visuals [setData] leaves *)

Lemma hoare_bind {A B : Type} (P : World -> Prop) (m : M A) (phi : A -> Prop)
    (Q : World -> Prop) (k : A -> M B) (R : B -> World -> Prop) :
  hoare P m (fun a w => phi a /\ Q w) ->
  (forall a, phi a -> hoare Q (k a) R) ->
  hoare P (bind m k) R.
Proof.
  intros Hm Hk w Hw. destruct (Hm w Hw) as (a & w1 & Hrun & Hphi & HQ).
  destruct (Hk a Hphi w1 HQ) as (b & w2 & Hrun2 & HR).
  exists b, w2. split; [|exact HR]. now rewrite (bind_ok m k w w1 a Hrun).
Qed.

Lemma hoare_ret {A : Type} (P : World -> Prop) (a : A) :
  hoare P (ret a) (fun _ w => P w).
Proof. intros w Hw. exists a, w. split; [reflexivity | exact Hw]. Qed.

Lemma hoare_forEach_from {A : Type} (f : A -> nat -> M unit) (l : list A)
    (I : nat -> World -> Prop) :
  forall i,
    (forall j a, nth_error l j = Some a ->
                 hoare (I j) (f a (i + j)) (fun _ w => True /\ I (S j) w)) ->
    hoare (I 0) (forEach_from i f l) (fun _ w => I (List.length l) w).
Proof.
  revert I. induction l as [|a rest IH]; intros I i Hf; simpl.
  - apply hoare_ret.
  - eapply hoare_bind.
    + specialize (Hf 0 a eq_refl). rewrite Nat.add_0_r in Hf. exact Hf.
    + intros _ _. apply (IH (fun j => I (S j)) (S i)).
      intros j b Hj. replace (S i + j) with (i + S j) by lia. now apply Hf.
Qed.

Lemma present_not_fresh (k : nat) (doc : Dom.Document) :
  Dom.present k doc = true -> Dom.fresh doc <> k.
Proof.
  intros H. apply present_true in H. destruct H as (e & Hin & <-).
  intros Heq. now apply (fresh_absent doc e Hin).
Qed.

(** What the parser adds below an element leaves the children of the
    elements that were in the page before as they are. *)
Lemma child_elements_graft_other (x : nat) (m : Dom.Markup) :
  forall (made : list nat) (root : nat) (doc : Dom.Document),
    root <> x -> (forall k, In k made -> k <> x) ->
    Dom.present x doc = true ->
    Dom.child_elements x (Dom.graft made root m doc) = Dom.child_elements x doc.
Proof.
  induction m as [|[i t] rest IH]; intros made root doc Hr Hm Hx; [reflexivity|].
  assert (Hp : nth i (root :: made) root <> x).
  { destruct (nth_in_or_default i (root :: made) root) as [[Hin|Hin]|Hin].
    - now rewrite <- Hin.
    - now apply Hm.
    - now rewrite Hin. }
  cbn [Dom.graft]. rewrite IH.
  - apply child_elements_insert_other; [|exact Hp].
    simpl. now apply present_not_fresh.
  - exact Hr.
  - intros k Hk. apply in_app_or in Hk. destruct Hk as [Hk|[<-|[]]].
    + now apply Hm.
    + now apply present_not_fresh.
  - now apply present_insert_child.
Qed.

Section Shows.

Variables (d : Diagram) (el g : nat).
Hypothesis el_not_g : el <> g.

Lemma shows_get_this (L1 L2 : list string) :
  hoare (shows d el g L1 L2) get_this (fun a w => a = d /\ shows d el g L1 L2 w).
Proof.
  intros w Hw. exists (this w), w. split; [reflexivity|].
  split; [apply Hw | exact Hw].
Qed.

Lemma shows_defined {A : Type} (field : Diagram -> option A) (a : A) (L1 L2 : list string) :
  field d = Some a ->
  hoare (shows d el g L1 L2) (defined field) (fun r w => r = a /\ shows d el g L1 L2 w).
Proof.
  intros Hf w Hw. exists a, w. split.
  - apply defined_some. destruct Hw as (-> & _). exact Hf.
  - split; [reflexivity | exact Hw].
Qed.

Lemma shows_edit (sel : Dom.Selection) (ed : Dom.Edit) (L1 L2 : list string) :
  hoare (shows d el g L1 L2) (d3_edit sel ed) (fun _ w => True /\ shows d el g L1 L2 w).
Proof.
  intros w (Hd & Hel & Hg & H1 & H2). eexists. eexists. split; [reflexivity|].
  split; [exact I|]. unfold shows; simpl. rewrite !kids_update.
  repeat split; try assumption.
  - destruct sel; simpl; [now rewrite present_update_key | exact Hel].
  - destruct sel; simpl; [now rewrite present_update_key | exact Hg].
Qed.

Lemma shows_style_length (sel : Dom.Selection) (n : string) (f : float)
    (L1 L2 : list string) :
  hoare (shows d el g L1 L2) (d3_style_length sel n f)
        (fun _ w => True /\ shows d el g L1 L2 w).
Proof.
  intros w Hw. unfold d3_style_length. destruct (valid_length f).
  - now apply shows_edit.
  - exists tt, w. split; [reflexivity | split; [exact I | exact Hw]].
Qed.

Lemma shows_get_engine (L1 L2 : list string) :
  hoare (shows d el g L1 L2) get_engine (fun _ w => True /\ shows d el g L1 L2 w).
Proof.
  intros w Hw. exists (engine w), w. split; [reflexivity|].
  split; [exact I | exact Hw].
Qed.

Lemma shows_attr_fn (sel : Dom.Selection) (n : string) (f : Engine -> Result string)
    (L1 L2 : list string) :
  (forall eng, exists v, f eng = Ok v) ->
  hoare (shows d el g L1 L2) (d3_attr_fn sel n f)
        (fun _ w => True /\ shows d el g L1 L2 w).
Proof.
  intros Hf. unfold d3_attr_fn. destruct sel.
  - intros w Hw. destruct (Hf (engine w)) as [v Hv]. rewrite Hv.
    now apply shows_edit.
  - intros w Hw. exists tt, w. split; [reflexivity | split; [exact I | exact Hw]].
Qed.

Lemma shows_append_other (sel : Dom.Selection) (t : string) (L1 L2 : list string) :
  apart el g sel ->
  hoare (shows d el g L1 L2) (d3_append sel t)
        (fun r w => apart el g r /\ shows d el g L1 L2 w).
Proof.
  intros [Hsel1 Hsel2] w (Hd & Hel & Hg & H1 & H2). unfold d3_append, Dom.append.
  destruct sel as [p|].
  - destruct (Dom.present p (document w)) eqn:Hp.
    + eexists. eexists. split; [reflexivity|]. split.
      * split; intros Heq; injection Heq as Heq;
          [now apply (present_not_fresh el (document w)) |
           now apply (present_not_fresh g (document w))].
      * unfold shows, kids; simpl.
        rewrite !child_elements_insert_other.
        -- repeat split; try assumption; now apply present_insert_child.
        -- simpl. now apply present_not_fresh.
        -- congruence.
        -- simpl. now apply present_not_fresh.
        -- congruence.
    + exists None, w. split; [now destruct w|].
      split; [split; discriminate | repeat split; assumption].
  - exists None, w. split; [now destruct w|].
    split; [split; discriminate | repeat split; assumption].
Qed.

Lemma shows_append_el (t : string) (L1 L2 : list string) :
  hoare (shows d el g L1 L2) (d3_append (Some el) t)
        (fun r w => apart el g r /\ shows d el g (L1 ++ [t]) L2 w).
Proof.
  intros w (Hd & Hel & Hg & H1 & H2). unfold d3_append, Dom.append. rewrite Hel.
  destruct (lookup_present el (document w) Hel) as [e0 He0].
  eexists. eexists. split; [reflexivity|]. split.
  - split; intros Heq; injection Heq as Heq;
      [now apply (present_not_fresh el (document w)) |
       now apply (present_not_fresh g (document w))].
  - unfold shows, kids; simpl.
    rewrite (child_elements_insert el _ e0 (document w) He0).
    rewrite child_elements_insert_other.
    + rewrite map_app. simpl. fold (kids el (document w)). rewrite H1.
      repeat split; try assumption; now apply present_insert_child.
    + simpl. now apply present_not_fresh.
    + exact el_not_g.
Qed.

Lemma shows_append_g (t : string) (L1 L2 : list string) :
  hoare (shows d el g L1 L2) (d3_append (Some g) t)
        (fun r w => apart el g r /\ shows d el g L1 (L2 ++ [t]) w).
Proof.
  intros w (Hd & Hel & Hg & H1 & H2). unfold d3_append, Dom.append. rewrite Hg.
  destruct (lookup_present g (document w) Hg) as [e0 He0].
  eexists. eexists. split; [reflexivity|]. split.
  - split; intros Heq; injection Heq as Heq;
      [now apply (present_not_fresh el (document w)) |
       now apply (present_not_fresh g (document w))].
  - unfold shows, kids; simpl.
    rewrite (child_elements_insert g _ e0 (document w) He0).
    rewrite child_elements_insert_other.
    + rewrite map_app. simpl. fold (kids g (document w)). rewrite H2.
      repeat split; try assumption; now apply present_insert_child.
    + simpl. now apply present_not_fresh.
    + congruence.
Qed.

(** [append] and then [html] below an element that is neither the
    diagram element nor the group. *)
Lemma shows_append_html_other (sel : Dom.Selection) (t s : string)
    (L1 L2 : list string) :
  apart el g sel ->
  hoare (shows d el g L1 L2) (bind (d3_append sel t) (fun span => d3_html span s))
        (fun _ w => True /\ shows d el g L1 L2 w).
Proof.
  intros [Hsel1 Hsel2] w (Hd & Hel & Hg & H1 & H2).
  assert (Hsame : shows d el g L1 L2
                    (with_document (document w) (with_document (document w) w)))
    by (repeat split; assumption).
  destruct sel as [p|].
  - destruct (Dom.present p (document w)) eqn:Hp.
    + rewrite (append_html_present p t s w Hp).
      eexists. eexists. split; [reflexivity|]. split; [exact I|].
      unfold shows, kids; simpl.
      rewrite !child_elements_graft_other.
      * rewrite !child_elements_insert_other.
        -- repeat split; try assumption;
             apply graft_keeps; now apply present_insert_child.
        -- simpl. now apply present_not_fresh.
        -- congruence.
        -- simpl. now apply present_not_fresh.
        -- congruence.
      * now apply present_not_fresh.
      * intros k [].
      * now apply present_insert_child.
      * now apply present_not_fresh.
      * intros k [].
      * now apply present_insert_child.
    + rewrite (append_html_absent (Some p) t s w Hp).
      eexists. eexists. split; [reflexivity | split; [exact I | exact Hsame]].
  - rewrite (append_html_absent None t s w I).
    eexists. eexists. split; [reflexivity | split; [exact I | exact Hsame]].
Qed.

Ltac shows_step lem := eapply hoare_bind; [ apply lem | intros ? ? ].

Lemma shows_renderNode (css : StyleSheet) (n : Node) (styles : list (string * float))
    (L1 L2 : list string) :
  _el d = Some (Some el) ->
  hoare (shows d el g L1 L2) (_renderNode css n styles)
        (fun _ w => True /\ shows d el g (L1 ++ ["div"]) L2 w).
Proof.
  intros Hel. unfold _renderNode.
  shows_step shows_get_this.
  shows_step shows_get_engine.
  eapply hoare_bind; [apply (shows_defined _el (Some el)); exact Hel | intros ? ->].
  eapply hoare_bind; [apply shows_append_el | intros nodeEl HnodeEl].
  do 7 (shows_step shows_edit).
  eapply hoare_bind; [apply (shows_append_other nodeEl); exact HnodeEl | intros textEl HtextEl].
  shows_step shows_edit.
  eapply hoare_bind; [apply (shows_append_other textEl); exact HtextEl | intros i Hi].
  do 2 (shows_step shows_edit).
  apply shows_append_html_other. exact HtextEl.
Qed.

Lemma shows_renderEdges_each (layout : Layout) (edge : Edge) (i : nat)
    (L1 L2 : list string) :
  _group d = Some (Some g) ->
  (forall eng, exists p, edge_path layout i eng = Ok p) ->
  hoare (shows d el g L1 L2) (_renderEdges_each layout edge i)
        (fun _ w => True /\ shows d el g L1 (L2 ++ ["path"]) w).
Proof.
  intros Hg Hp. unfold _renderEdges_each.
  eapply hoare_bind; [apply (shows_defined _group (Some g)); exact Hg | intros ? ->].
  eapply hoare_bind; [apply shows_append_g | intros link Hlink].
  do 4 (shows_step shows_edit).
  eapply hoare_bind; [apply shows_attr_fn; exact Hp | intros ? ?].
  destruct (type edge =? "arrow")%string; [apply shows_edit|].
  intros w Hw. exists tt, w. split; [reflexivity | split; [exact I | exact Hw]].
Qed.

Lemma shows_setGraphSize (ns : list LayoutChild) (svg : Dom.Selection)
    (L1 L2 : list string) :
  _el d = Some (Some el) ->
  _svg d = Some svg ->
  hoare (shows d el g L1 L2) (_setGraphSize ns)
        (fun _ w => True /\ shows d el g L1 L2 w).
Proof.
  intros Hel Hsvg. unfold _setGraphSize.
  shows_step shows_get_engine.
  eapply hoare_bind; [apply (shows_defined _el (Some el)); exact Hel | intros ? ->].
  do 2 (shows_step shows_style_length).
  eapply hoare_bind; [apply (shows_defined _svg svg); exact Hsvg | intros ? ->].
  shows_step shows_edit.
  apply shows_edit.
Qed.

End Shows.

Lemma filter_tag_length (t : string) (l : list Dom.Element) :
  List.length (filter (fun e => Dom.tag e =? t)%string l)
  = List.length (filter (fun s => s =? t)%string (map Dom.tag l)).
Proof.
  induction l as [|e rest IH]; [reflexivity|]. simpl.
  destruct (Dom.tag e =? t)%string; simpl; now rewrite IH.
Qed.

Lemma filter_repeat_same (t : string) (n : nat) :
  filter (fun s => s =? t)%string (repeat t n) = repeat t n.
Proof.
  induction n as [|n IH]; [reflexivity|]. simpl.
  now rewrite String.eqb_refl, IH.
Qed.

(** X6. What [setData] and the callback of its layout leave in the page, on
    a rendered widget whose group is not inside its diagram element: as
    many node visuals as the dataset has nodes, and the edge visuals that
    were there before together with one more for every edge of the
    dataset. *)
Lemma setData_resolved_visuals (css : StyleSheet) (w : World) (data : Data)
    (layout : Layout) (c svg : Dom.Selection) (el g : nat) :
  let ns := match nodes data with Some l => l | None => [] end in
  let es := match edges data with Some l => l | None => [] end in
  _container (this w) = Some c ->
  _el (this w) = Some (Some el) ->
  _group (this w) = Some (Some g) ->
  _svg (this w) = Some svg ->
  Dom.present el (document w) = true ->
  Dom.present g (document w) = true ->
  el <> g ->
  inside g el (document w) = false ->
  answers layout ns es ->
  exists w',
    setData_resolved css data layout w = (Ok tt, w') /\
    List.length (node_visuals w') = List.length ns /\
    List.length (edge_visuals w') = List.length (edge_visuals w) + List.length es.
Proof.
  intros ns es Hc Hel Hg Hsvg Pel Pg Hne Hout [Hfit Hroute].
  set (d1 := set_edges es (set_nodes ns (this w))).
  set (w1 := with_this d1 (with_document (Dom.clear_children el (document w)) w)).
  set (L2 := kids g (document w)).
  assert (Hsync : exists graph, setData data w = (Ok graph, w1)).
  { unfold setData, bind, get_this. rewrite Hc. unfold defined. rewrite Hel.
    unfold d3_html_empty, set_this, _renderNodes, _getElkGraph, bind, defined, ret.
    cbn [this with_this with_document document _nodes _edges set_nodes set_edges Dom.empty].
    eexists. reflexivity. }
  destruct Hsync as [graph Hsync].
  assert (H1 : shows d1 el g [] L2 w1).
  { unfold shows, w1; simpl. repeat split.
    - destruct (lookup_present el (document w) Pel) as [e He].
      apply (lookup_is_present el _ e). now rewrite lookup_clear_self.
    - destruct (lookup_present g (document w) Pg) as [e He].
      apply (lookup_is_present g _ e). now rewrite lookup_clear_other.
    - unfold kids. now rewrite child_elements_cleared.
    - unfold kids, L2, kids. now rewrite child_elements_clear_other. }
  assert (Hthen : hoare (shows d1 el g [] L2) (_renderNodes_then css layout)
                    (fun _ w' => shows d1 el g (repeat "div"%string (List.length ns))
                                   (L2 ++ repeat "path"%string (List.length es)) w')).
  { unfold _renderNodes_then.
    eapply hoare_bind; [apply (shows_defined d1 el g _nodes ns); reflexivity | intros ? ->].
    eapply hoare_bind with (phi := fun _ => True)
                           (Q := shows d1 el g (repeat "div"%string (List.length ns)) L2).
    { intros w0 Hw0.
      destruct (hoare_forEach_from (_renderNodes_each css layout) ns
                  (fun j => shows d1 el g (repeat "div"%string j) L2) 0) with (w := w0)
        as (a & w2 & Hrun & HQ); [|exact Hw0|].
      - intros j n Hj. simpl. unfold _renderNodes_each.
        assert (Hlt : j < List.length ns) by (apply nth_error_Some; congruence).
        destruct (nth_error (layout_children layout) j) as [lc|] eqn:Ec;
          [|apply nth_error_None in Ec; lia].
        rewrite repeat_cons.
        apply (shows_renderNode d1 el g Hne css n _ (repeat "div"%string j) L2).
        unfold d1; simpl. exact Hel.
      - exists a, w2. split; [exact Hrun | split; [exact I | exact HQ]]. }
    intros _ _.
    eapply hoare_bind with (phi := fun _ => True)
                           (Q := shows d1 el g (repeat "div"%string (List.length ns))
                                   (L2 ++ repeat "path"%string (List.length es))).
    { unfold _renderEdges.
      eapply hoare_bind; [apply (shows_defined d1 el g _edges es); reflexivity | intros ? ->].
      intros w0 Hw0.
      destruct (hoare_forEach_from (_renderEdges_each layout) es
                  (fun j => shows d1 el g (repeat "div"%string (List.length ns))
                              (L2 ++ repeat "path"%string j)) 0) with (w := w0)
        as (a & w2 & Hrun & HQ).
      - intros j e Hj. simpl.
        assert (Hlt : j < List.length es) by (apply nth_error_Some; congruence).
        rewrite repeat_cons, app_assoc.
        apply (shows_renderEdges_each d1 el g Hne layout e j);
          [|intros eng; exact (routed_edge_path layout _ j eng Hroute Hlt)].
        unfold d1; simpl. exact Hg.
      - simpl. now rewrite app_nil_r.
      - exists a, w2. split; [exact Hrun | split; [exact I | exact HQ]]. }
    intros _ _. intros w0 Hw0.
    destruct (shows_setGraphSize d1 el g (layout_children layout) svg
                (repeat "div"%string (List.length ns))
                (L2 ++ repeat "path"%string (List.length es)))
      with (w := w0) as (a & w2 & Hrun & _ & HQ);
      [unfold d1; simpl; exact Hel | unfold d1; simpl; exact Hsvg | exact Hw0 |].
    exists a, w2. split; [exact Hrun | exact HQ]. }
  destruct (Hthen w1 H1) as ([] & w' & Hrun & Hd & _ & _ & Hkel & Hkg).
  exists w'. split; [|split].
  - unfold setData_resolved. now rewrite (bind_ok _ _ w w1 graph Hsync).
  - unfold node_visuals. rewrite Hd. unfold d1; simpl. rewrite Hel.
    rewrite <- (length_map Dom.tag). fold (kids el (document w')).
    now rewrite Hkel, repeat_length.
  - unfold edge_visuals. rewrite Hd. unfold d1; simpl. rewrite Hg.
    rewrite !filter_tag_length.
    fold (kids g (document w')). fold (kids g (document w)). fold L2.
    rewrite Hkg, filter_app, length_app, filter_repeat_same, repeat_length.
    reflexivity.
Qed.

(* ================================================================= *)
(** * Further properties of the widget *)

(* ================================================================= *)
(** ** Construction *)

Lemma constructor_ok_inv (options : option Options) (d : Diagram) :
  constructor options = Ok d ->
  exists o url,
    options = Some o /\ elkWorkerUrl o = Some url /\ url <> ""%string /\
    _groupColors d = match groupColors o with Some g => g | None => [] end /\
    _nodes d = None /\ _edges d = None /\
    _mouseDownBB d = None /\ _selectedNodeName d = None.
Proof.
  unfold constructor. destruct options as [o|]; [|discriminate].
  destruct (elkWorkerUrl o) as [url|] eqn:Eu; [|discriminate].
  destruct (url =? "")%string eqn:E; [discriminate|].
  intros [= <-]. exists o, url. apply String.eqb_neq in E. repeat split; auto.
Qed.

(** X1. [new Diagram(options)] succeeds exactly when [options] is given
    and its [elkWorkerUrl] is a non-empty string; the new instance is then
    not rendered, has no dataset, and takes [{}] for absent group colors.
    Without [options] the constructor faults on [options.elkWorkerUrl];
    with an absent or empty url it throws its own error. *)
Theorem constructor_requires_worker_url (options : option Options) :
  ((exists d, constructor options = Ok d) <->
   (exists o url, options = Some o /\ elkWorkerUrl o = Some url /\ url <> ""%string)) /\
  (forall d, constructor options = Ok d ->
     _container d = None /\ _nodes d = None /\ _edges d = None /\
     _mouseDownBB d = None /\ _selectedNodeName d = None /\
     (forall o, options = Some o -> groupColors o = None -> _groupColors d = [])) /\
  (options = None -> constructor options = Throw TypeError) /\
  (forall o, options = Some o ->
     elkWorkerUrl o = None \/ elkWorkerUrl o = Some ""%string ->
     constructor options = Throw (Thrown "ELK worker URL has to be specified")).
Proof.
  split; [split|split; [|split]].
  - intros [d Hd]. destruct (constructor_ok_inv options d Hd) as (o & url & H1 & H2 & H3 & _).
    exists o, url. auto.
  - intros (o & url & -> & Hu & Hne). unfold constructor. rewrite Hu.
    apply String.eqb_neq in Hne. rewrite Hne. eauto.
  - intros d Hd.
    destruct (constructor_ok_inv options d Hd)
      as (o & url & H1 & H2 & H3 & Hg & Hn & He & Hb & Hs).
    split; [now apply (constructor_not_rendered options)|].
    repeat (split; [assumption|]).
    intros o' Ho' Hnone. rewrite H1 in Ho'. injection Ho' as <-.
    now rewrite Hg, Hnone.
  - now intros ->.
  - intros o -> [Hu|Hu]; unfold constructor; now rewrite Hu.
Qed.

(* ================================================================= *)
(** ** Pointer handlers and selection, beyond the single pair *)

(** X16. [_onMouseUp] does not consume the box recorded at mousedown: after
    a mouseup on a node whose box still has the recorded top and left, a
    second mouseup on it, with no mousedown in between, fires [nodeClick]
    once more. *)
Theorem mouseUp_keeps_recorded_box (w : World) (nodeName : string) (k : nat) (down : Rect) :
  Dom.getElementById nodeName (document w) = Some k ->
  _mouseDownBB (this w) = Some down ->
  top down = top (client_rects w k) ->
  left down = left (client_rects w k) ->
  let w1 := exec (_onMouseUp nodeName) w in
  let w2 := exec (_onMouseUp nodeName) w1 in
  _mouseDownBB (this w1) = Some down /\
  outcome (_onMouseUp nodeName) w1 = Ok tt /\
  fired w2 = fired w ++ [nodeClick_of w nodeName; nodeClick_of w nodeName].
Proof.
  intros Hk Hbb Ht Hl w1 w2.
  pose proof (onMouseUp_found w nodeName k Hk) as E1. rewrite Hbb in E1.
  apply Z.eqb_eq in Ht, Hl. rewrite Ht, Hl in E1. simpl in E1.
  assert (Hw1 : w1 = with_this (set_dragging false (this w))
                       (with_fired (fired w ++ [nodeClick_of w nodeName]) w))
    by (unfold w1, exec; now rewrite E1).
  assert (Hk1 : Dom.getElementById nodeName (document w1) = Some k)
    by (rewrite Hw1; exact Hk).
  pose proof (onMouseUp_found w1 nodeName k Hk1) as E2.
  assert (Hbb1 : _mouseDownBB (this w1) = Some down) by (rewrite Hw1; exact Hbb).
  rewrite Hbb1 in E2.
  assert (Hr : client_rects w1 k = client_rects w k) by (rewrite Hw1; reflexivity).
  rewrite Hr, Ht, Hl in E2. simpl in E2.
  repeat split.
  - exact Hbb1.
  - unfold outcome. now rewrite E2.
  - unfold w2, exec. rewrite E2. simpl. rewrite Hw1. simpl.
    rewrite <- app_assoc. reflexivity.
Qed.

Lemma mouseUp_keeps_recorded_box_witness :
  fired (exec (_onMouseUp "A")
           (exec (_onMouseUp "A") (exec (_onMouseDown "A") shown_world)))
  = fired (exec (_onMouseDown "A") shown_world)
    ++ [nodeClick_of (exec (_onMouseDown "A") shown_world) "A";
        nodeClick_of (exec (_onMouseDown "A") shown_world) "A"].
Proof.
  apply (mouseUp_keeps_recorded_box (exec (_onMouseDown "A") shown_world) "A" 7 zero_rect).
  - vm_compute. reflexivity.
  - vm_compute. reflexivity.
  - vm_compute. reflexivity.
  - vm_compute. reflexivity.
Defined.

(** X12. [selectNode(name, false)] takes the selected class off whichever
    element has it, be it the element of [name] or another one, and
    leaves the instance, with its [_selectedNodeName], as it was. *)
Theorem selectNode_false_deselects_any (css : StyleSheet) (w : World)
    (nodeName : string) (k : nat) :
  distinct_keys (document w) ->
  List.length (with_class (node_selected css) (document w)) <= 1 ->
  Dom.getElementById nodeName (document w) = Some k ->
  exists w',
    selectNode css nodeName false w = (Ok tt, w') /\
    with_class (node_selected css) (document w') = [] /\
    this w' = this w /\
    fired w' = fired w.
Proof.
  intros Hnd Hone Hk. eexists. split.
  - unfold selectNode, bind, document_getElementById. rewrite Hk. reflexivity.
  - cbn [document this fired with_document d3_select_class d3_edit fst snd].
    split; [now apply classed_off_first | split; reflexivity].
Qed.

Lemma selected_A_world_distinct_keys : distinct_keys (document selected_A_world).
Proof.
  unfold distinct_keys. vm_compute.
  repeat constructor; simpl; intuition discriminate.
Qed.

Lemma selectNode_false_deselects_any_witness :
  exists w',
    selectNode plain_css "B" false selected_A_world = (Ok tt, w') /\
    with_class (node_selected plain_css) (document w') = [] /\
    this w' = this selected_A_world /\
    fired w' = fired selected_A_world.
Proof.
  apply (selectNode_false_deselects_any plain_css selected_A_world "B" 11).
  - exact selected_A_world_distinct_keys.
  - vm_compute. lia.
  - vm_compute. reflexivity.
Defined.

Lemma shown_world_keys_distinct : distinct_keys (document shown_world).
Proof.
  unfold distinct_keys. vm_compute.
  repeat constructor; simpl; intuition discriminate.
Qed.

Lemma selectNode_A_then_B_witness :
  exists w1 w2,
    selectNode plain_css "A" true shown_world = (Ok tt, w1) /\
    selectNode plain_css "B" true w1 = (Ok tt, w2) /\
    map Dom.key (with_class (node_selected plain_css) (document w2)) = [11] /\
    _selectedNodeName (this w2) = Some "B"%string.
Proof.
  apply (selectNode_A_then_B plain_css shown_world "A" "B" 7 11).
  - exact shown_world_keys_distinct.
  - vm_compute. lia.
  - vm_compute. reflexivity.
  - vm_compute. reflexivity.
Defined.

(** X14. For a name with which ["#" + name] is a selector that selects
    nothing (so for a CSS identifier that is the id of no element),
    [highlightNode] past its guard does not throw, as [selectNode] would:
    it takes the highlight class off the element that had it, highlights
    nothing, and still fires [nodeHighlight(name, highlighted)]. *)
Theorem highlightNode_unknown_name (css : StyleSheet) (w : World) (nodeName : string)
    (highlighted : bool) :
  distinct_keys (document w) ->
  List.length (with_class (node_highlighted css) (document w)) <= 1 ->
  unsuppressed w ->
  selected_by_id nodeName w = Ok None ->
  exists w',
    highlightNode css nodeName highlighted w = (Ok tt, w') /\
    with_class (node_highlighted css) (document w') = [] /\
    fired w' = fired w ++ [nodeHighlight_of w nodeName highlighted] /\
    this w' = this w.
Proof.
  intros Hnd Hone Hu Hsel. eexists.
  split; [apply (highlightNode_run css w nodeName highlighted None Hsel Hu)|].
  cbn [document this fired with_fired with_document].
  split; [|split; reflexivity].
  destruct highlighted; simpl; now apply classed_off_first.
Qed.

Lemma highlightNode_unknown_name_witness :
  exists w',
    highlightNode plain_css "Z" true hovering_world = (Ok tt, w') /\
    with_class (node_highlighted plain_css) (document w') = [] /\
    fired w' = fired hovering_world ++ [nodeHighlight_of hovering_world "Z" true] /\
    this w' = this hovering_world.
Proof.
  apply (highlightNode_unknown_name plain_css hovering_world "Z" true).
  - exact hovering_world_distinct_keys.
  - vm_compute. lia.
  - exact hovering_world_unsuppressed.
  - vm_compute. reflexivity.
Defined.

(* ================================================================= *)
(** ** [setData] before its layout arrives *)

(** X5. On a rendered widget whose group is not inside its diagram
    element, [setData] itself, before the layout engine has answered,
    already leaves no node visual in the page, keeps every edge visual,
    stores the dataset ([[]] for an absent list) and fires nothing. *)
Theorem setData_empties_nodes_at_once (w : World) (data : Data)
    (c : Dom.Selection) (el g : nat) :
  _container (this w) = Some c ->
  _el (this w) = Some (Some el) ->
  _group (this w) = Some (Some g) ->
  el <> g ->
  inside g el (document w) = false ->
  exists graph w1,
    setData data w = (Ok graph, w1) /\
    node_visuals w1 = [] /\
    edge_visuals w1 = edge_visuals w /\
    _nodes (this w1) = Some (match nodes data with Some l => l | None => [] end) /\
    _edges (this w1) = Some (match edges data with Some l => l | None => [] end) /\
    fired w1 = fired w.
Proof.
  intros Hc Hel Hg Hne Hout.
  eexists. eexists. split.
  - unfold setData, bind, get_this. rewrite Hc. unfold defined. rewrite Hel.
    unfold d3_html_empty, set_this, _renderNodes, _getElkGraph, bind, defined, ret.
    cbn [this with_this with_document document _nodes _edges set_nodes set_edges Dom.empty].
    reflexivity.
  - unfold node_visuals, edge_visuals.
    cbn [this with_this with_document document fired _el _group _nodes _edges
         set_nodes set_edges].
    rewrite Hel, Hg, child_elements_cleared.
    rewrite (child_elements_clear_other g el (document w) Hne Hout).
    repeat split; reflexivity.
Qed.

Lemma setData_empties_nodes_at_once_witness :
  exists graph w1,
    setData data_mixed shown_world = (Ok graph, w1) /\
    node_visuals w1 = [] /\
    edge_visuals w1 = edge_visuals shown_world /\
    _nodes (this w1) = nodes data_mixed /\
    _edges (this w1) = edges data_mixed /\
    fired w1 = fired shown_world.
Proof.
  apply (setData_empties_nodes_at_once shown_world data_mixed (Some 0) 6 2).
  - vm_compute. reflexivity.
  - vm_compute. reflexivity.
  - vm_compute. reflexivity.
  - discriminate.
  - vm_compute. reflexivity.
Defined.

(* ================================================================= *)
(** ** The callback of the layout, whatever its outcome *)

Lemma building_setGraphSize (ns : list LayoutChild) : building (_setGraphSize ns).
Proof. unfold _setGraphSize. building_steps. Qed.

(** X11. Whether it runs to its end or throws half-way, the callback
    of the layout promise only adds to the page: every element that was
    in the page is still there, no event is fired, and no field of the
    instance is changed. *)
Theorem renderNodes_then_only_builds (css : StyleSheet) (layout : Layout)
    (w w' : World) (r : Result unit) :
  _renderNodes_then css layout w = (r, w') ->
  this w' = this w /\
  fired w' = fired w /\
  forall k, Dom.present k (document w) = true -> Dom.present k (document w') = true.
Proof.
  revert w r w'. change (building (_renderNodes_then css layout)).
  unfold _renderNodes_then.
  apply building_bind; [apply building_defined | intros ns].
  apply building_bind.
  { apply building_forEach_from. apply building_renderNodes_each. }
  intros _. apply building_bind; [apply building_renderEdges | intros _].
  apply building_setGraphSize.
Qed.

Lemma renderNodes_then_only_builds_witness :
  this shown_world = this awaiting_AB_world /\
  fired shown_world = fired awaiting_AB_world /\
  forall k, Dom.present k (document awaiting_AB_world) = true ->
            Dom.present k (document shown_world) = true.
Proof.
  apply (renderNodes_then_only_builds plain_css layout_AB awaiting_AB_world
           shown_world (Ok tt)).
  vm_compute. reflexivity.
Defined.

Lemma forEach_ok_each {A : Type} (f : A -> nat -> M unit) (l : list A) :
  (forall a i, building (f a i)) ->
  forall (i : nat) (w w' : World),
    forEach_from i f l w = (Ok tt, w') ->
    forall j a, nth_error l j = Some a ->
      exists wj wj', grows w wj /\ f a (i + j) wj = (Ok tt, wj').
Proof.
  intros Hf. induction l as [|b rest IH]; intros i w w' Hrun j a Hj.
  - destruct j; discriminate.
  - simpl in Hrun. apply bind_inv_ok in Hrun.
    destruct Hrun as ([] & w1 & Hstep & Hrest).
    destruct j as [|j]; simpl in Hj.
    + injection Hj as <-. exists w, w1. rewrite Nat.add_0_r.
      split; [apply grows_refl | exact Hstep].
    + destruct (IH (S i) w1 w' Hrest j a Hj) as (wj & wj' & Hg & Hok).
      exists wj, wj'. replace (i + S j) with (S i + j) by lia.
      split; [|exact Hok].
      apply (grows_trans w w1 wj); [apply (Hf b i w _ w1 Hstep) | exact Hg].
Qed.

Lemma edit_then {B : Type} (sel : Dom.Selection) (ed : Dom.Edit) (K : unit -> M B)
    (w : World) :
  bind (d3_edit sel ed) K w = K tt (with_document (Dom.update sel ed (document w)) w).
Proof. reflexivity. Qed.

Lemma attr_fn_throws {B : Type} (k : nat) (n : string) (f : Engine -> Result string)
    (e : Exn) (K : unit -> M B) (w : World) :
  f (engine w) = Throw e ->
  bind (d3_attr_fn (Some k) n f) K w = (Throw e, w).
Proof. intros H. unfold bind, d3_attr_fn. now rewrite H. Qed.

Lemma renderEdges_each_needs_route (layout : Layout) (edge : Edge) (i g : nat)
    (w w' : World) :
  _group (this w) = Some (Some g) ->
  Dom.present g (document w) = true ->
  _renderEdges_each layout edge i w = (Ok tt, w') ->
  exists le s, nth_error (layout_edges layout) i = Some le /\
               nth_error (sections le) 0 = Some s.
Proof.
  intros Hg Hp Hrun. unfold _renderEdges_each in Hrun.
  rewrite (bind_ok _ _ w w (Some g) (defined_some _group w (Some g) Hg)) in Hrun.
  rewrite (bind_ok _ _ _ _ _ (append_present g "path" w Hp)) in Hrun.
  rewrite !edit_then in Hrun.
  destruct (edge_path layout i (engine w)) as [p|e] eqn:Ep.
  - unfold edge_path in Ep.
    destruct (nth_error (layout_edges layout) i) as [le|]; [|discriminate].
    destruct (nth_error (sections le) 0) as [s|] eqn:Es; [|discriminate].
    exists le, s. split; [reflexivity | exact Es].
  - rewrite (attr_fn_throws _ _ _ e) in Hrun by exact Ep. discriminate.
Qed.

(** X10. On a widget whose group is in the page, the callback of the
    layout promise runs to its end exactly when the layout has a box for
    every node of the current dataset and a first section for every edge;
    otherwise it throws. *)
Theorem renderNodes_then_succeeds_iff (css : StyleSheet) (w : World) (layout : Layout)
    (ns : list Node) (es : list Edge) (el svg : Dom.Selection) (g : nat) :
  _nodes (this w) = Some ns ->
  _edges (this w) = Some es ->
  _el (this w) = Some el ->
  _svg (this w) = Some svg ->
  _group (this w) = Some (Some g) ->
  Dom.present g (document w) = true ->
  ((exists w', _renderNodes_then css layout w = (Ok tt, w')) <-> answers layout ns es).
Proof.
  intros Hns Hes Hel Hsvg Hg Hp. split.
  - intros [w' Hrun]. unfold _renderNodes_then in Hrun.
    rewrite (bind_ok _ _ w w ns (defined_some _nodes w ns Hns)) in Hrun.
    apply bind_inv_ok in Hrun. destruct Hrun as ([] & w1 & Hnodes & Hrun).
    apply bind_inv_ok in Hrun. destruct Hrun as ([] & w2 & Hedges & _).
    assert (G1 : grows w w1).
    { apply (building_forEach_from (_renderNodes_each css layout) ns
               (building_renderNodes_each css layout) 0 w _ w1 Hnodes). }
    split.
    + destruct (Nat.le_gt_cases (List.length ns) (List.length (layout_children layout)))
        as [Hle|Hgt]; [exact Hle | exfalso].
      destruct (nth_error ns (List.length (layout_children layout))) as [n|] eqn:En;
        [|apply nth_error_None in En; lia].
      destruct (forEach_ok_each (_renderNodes_each css layout) ns
                  (building_renderNodes_each css layout) 0 w w1 Hnodes _ n En)
        as (wj & wj' & _ & Hok).
      simpl in Hok. unfold _renderNodes_each in Hok.
      assert (Hnone : nth_error (layout_children layout)
                        (List.length (layout_children layout)) = None)
        by (apply nth_error_None; lia).
      rewrite Hnone in Hok. discriminate.
    + intros i Hi.
      destruct (nth_error es i) as [e|] eqn:Ee; [|apply nth_error_None in Ee; lia].
      unfold _renderEdges in Hedges.
      destruct G1 as (Hthis1 & _ & Hpres1).
      rewrite (bind_ok _ _ w1 w1 es) in Hedges
        by (apply defined_some; rewrite Hthis1; exact Hes).
      destruct (forEach_ok_each (_renderEdges_each layout) es
                  (building_renderEdges_each layout) 0 w1 w2 Hedges i e Ee)
        as (wj & wj' & (Hthisj & _ & Hpresj) & Hok).
      simpl in Hok.
      apply (renderEdges_each_needs_route layout e i g wj wj'); [| |exact Hok].
      * rewrite Hthisj, Hthis1. exact Hg.
      * apply Hpresj, Hpres1. exact Hp.
  - intros Ha.
    apply (renderNodes_then_succeeds css w layout ns es el svg (Some g)); assumption.
Qed.

Lemma answers_AB : answers layout_AB [node_named "A"; node_named "B"]
                     [{| start := "A"; end_ := "B"; type := "arrow" |}].
Proof.
  split; [simpl; lia|]. intros i Hi.
  destruct i as [|i]; [|simpl in Hi; lia].
  simpl. eexists. eexists. split; reflexivity.
Qed.

Lemma renderNodes_then_succeeds_iff_witness :
  (exists w', _renderNodes_then plain_css layout_AB awaiting_AB_world = (Ok tt, w'))
  <-> answers layout_AB [node_named "A"; node_named "B"]
        [{| start := "A"; end_ := "B"; type := "arrow" |}].
Proof.
  apply (renderNodes_then_succeeds_iff plain_css awaiting_AB_world layout_AB
           [node_named "A"; node_named "B"]
           [{| start := "A"; end_ := "B"; type := "arrow" |}] (Some 6) (Some 1) 2).
  - vm_compute. reflexivity.
  - vm_compute. reflexivity.
  - vm_compute. reflexivity.
  - vm_compute. reflexivity.
  - vm_compute. reflexivity.
  - vm_compute. reflexivity.
Defined.

(** ** What [_renderNode] builds *)

Lemma present_inserted (p : nat) (c : Dom.Element) (doc : Dom.Document) :
  Dom.present p doc = true ->
  Dom.present (Dom.key c) (Dom.insert_child p c doc) = true.
Proof.
  intros Hp. apply present_true.
  exists (Dom.place (S (match Dom.lookup p doc with
                        | Some e => Dom.depth e
                        | None => 0
                        end)) c).
  split; [|reflexivity].
  unfold Dom.present in Hp. unfold Dom.lookup.
  induction doc as [|e rest IH]; simpl in *; [discriminate|].
  destruct (Dom.key e =? p)%nat; simpl.
  - right. apply in_or_app. right. now left.
  - right. apply IH. exact Hp.
Qed.

Lemma child_elements_absent (k : nat) (doc : Dom.Document) :
  (forall e, In e doc -> Dom.key e <> k) -> Dom.child_elements k doc = [].
Proof.
  induction doc as [|e rest IH]; intros H; [reflexivity|]. simpl.
  destruct (Dom.key e =? k)%nat eqn:E.
  - apply Nat.eqb_eq in E. exfalso. apply (H e); [now left | exact E].
  - apply IH. intros a Ha. apply H. now right.
Qed.

Lemma child_elements_past (k : nat) (l1 l2 : Dom.Document) :
  (forall e, In e l1 -> Dom.key e <> k) ->
  Dom.child_elements k (l1 ++ l2) = Dom.child_elements k l2.
Proof.
  induction l1 as [|e rest IH]; intros H; [reflexivity|]. simpl.
  destruct (Dom.key e =? k)%nat eqn:E.
  - apply Nat.eqb_eq in E. exfalso. apply (H e); [now left | exact E].
  - apply IH. intros a Ha. apply H. now right.
Qed.

(** An element that was just appended has no child. *)
Lemma child_elements_new_leaf (p : nat) (c : Dom.Element) (doc : Dom.Document) :
  (forall e, In e doc -> Dom.key e <> Dom.key c) ->
  Dom.child_elements (Dom.key c) (Dom.insert_child p c doc) = [].
Proof.
  induction doc as [|e rest IH]; intros H; [reflexivity|].
  assert (He : (Dom.key e =? Dom.key c)%nat = false)
    by (apply Nat.eqb_neq, H; now left).
  simpl. destruct (Dom.key e =? p)%nat.
  - simpl. rewrite He.
    rewrite child_elements_past.
    + simpl. rewrite Nat.eqb_refl.
      rewrite (subtree_len_shallower (Dom.depth e) (S (Dom.depth e))); [reflexivity | lia |].
      apply subtree_len_rest.
    + intros a Ha. apply H. right. eapply in_firstn_in. exact Ha.
  - simpl. rewrite He. apply IH. intros a Ha. apply H. now right.
Qed.

Lemma lookup_graft (x : nat) (m : Dom.Markup) :
  forall (made : list nat) (root : nat) (doc : Dom.Document),
    Dom.present x doc = true ->
    Dom.lookup x (Dom.graft made root m doc) = Dom.lookup x doc.
Proof.
  induction m as [|[i t] rest IH]; intros made root doc Hx; [reflexivity|].
  cbn [Dom.graft]. rewrite IH by (now apply present_insert_child).
  apply lookup_insert_child. simpl. now apply present_not_fresh.
Qed.

Lemma renderNode_run (css : StyleSheet) (n : Node) (styles : list (string * float))
    (el : nat) (w : World) :
  _el (this w) = Some (Some el) ->
  Dom.present el (document w) = true ->
  _renderNode css n styles w
  = (Ok tt,
     with_document
       (page_with_node css (engine w) (_groupColors (this w)) n styles el (document w)) w).
Proof.
  intros Hel Hp.
  unfold _renderNode.
  rewrite (bind_ok get_this _ w w (this w) eq_refl).
  rewrite (bind_ok get_engine _ w w (engine w) eq_refl).
  rewrite (bind_ok _ _ w w (Some el) (defined_some _el w (Some el) Hel)).
  rewrite (bind_ok _ _ _ _ _ (append_present el "div" w Hp)).
  rewrite !edit_appended by (try (intros e; apply fresh_absent); reflexivity).
  change (Dom.apply_edit (Dom.On "mouseout" _) _)
    with (node_div css (engine w) (_groupColors (this w)) n styles
            (Dom.fresh (document w))).
  unfold page_with_node.
  set (k1 := Dom.fresh (document w)).
  set (doc1 := Dom.insert_child el
                 (node_div css (engine w) (_groupColors (this w)) n styles k1)
                 (document w)).
  assert (H1 : Dom.present k1 (document (with_document doc1 w)) = true).
  { apply (present_inserted el
             (node_div css (engine w) (_groupColors (this w)) n styles k1)).
    exact Hp. }
  rewrite (bind_ok _ _ _ _ _ (append_present k1 "div" (with_document doc1 w) H1)).
  cbn [document with_document].
  rewrite !edit_appended by (try (intros e; apply fresh_absent); reflexivity).
  change (Dom.apply_edit (Dom.SetClassAttr (node_text css)) _)
    with (node_text_div css (Dom.fresh doc1)).
  set (k2 := Dom.fresh doc1).
  set (doc2 := Dom.insert_child k1 (node_text_div css k2) doc1).
  assert (H2 : Dom.present k2 (document (with_document doc2 (with_document doc1 w))) = true).
  { apply (present_inserted k1 (node_text_div css k2)). exact H1. }
  rewrite (bind_ok _ _ _ _ _
             (append_present k2 "i" (with_document doc2 (with_document doc1 w)) H2)).
  cbn [document with_document].
  rewrite !edit_appended by (try (intros e; apply fresh_absent); reflexivity).
  change (Dom.apply_edit (Dom.Classed (icon_class css) true) _)
    with (node_icon css n (Dom.fresh doc2)).
  set (k3 := Dom.fresh doc2).
  set (doc3 := Dom.insert_child k2 (node_icon css n k3) doc2).
  assert (H3 : Dom.present k2
                 (document (with_document doc3
                              (with_document doc2 (with_document doc1 w)))) = true).
  { apply present_insert_child. exact H2. }
  rewrite (append_html_present k2 "span" (name n)
             (with_document doc3 (with_document doc2 (with_document doc1 w))) H3).
  reflexivity.
Qed.

Lemma lookup_inserted (p : nat) (c e0 : Dom.Element) (doc : Dom.Document) :
  (forall e, In e doc -> Dom.key e <> Dom.key c) ->
  Dom.lookup p doc = Some e0 ->
  Dom.lookup (Dom.key c) (Dom.insert_child p c doc)
  = Some (Dom.place (S (Dom.depth e0)) c).
Proof.
  unfold Dom.lookup. induction doc as [|e rest IH]; intros H He0; [discriminate|].
  assert (He : (Dom.key e =? Dom.key c)%nat = false)
    by (apply Nat.eqb_neq, H; now left).
  simpl in *. destruct (Dom.key e =? p)%nat.
  - injection He0 as <-. simpl. rewrite He.
    assert (Hl : forall a, In a (firstn (Dom.subtree_len (Dom.depth e) rest) rest) ->
                           (Dom.key a =? Dom.key c)%nat = false).
    { intros a Ha. apply Nat.eqb_neq, H. right. eapply in_firstn_in. exact Ha. }
    revert Hl.
    generalize (firstn (Dom.subtree_len (Dom.depth e) rest) rest) as l1.
    induction l1 as [|a l1 IHl]; simpl; intros Hl.
    + now rewrite Nat.eqb_refl.
    + rewrite (Hl a) by now left. apply IHl. intros b Hb. apply Hl. now right.
  - simpl. rewrite He. apply IH; [|exact He0].
    intros a Ha. apply H. now right.
Qed.

(** The page after [_renderNode]: the node is the last child of the
    container of the nodes, the text is its only child, the icon and the
    label are the children of the text, and every other element keeps its
    children. *)
Lemma page_with_node_children (css : StyleSheet) (eng : Engine)
    (colors : list (string * string))
    (n : Node) (styles : list (string * float)) (el : nat) (e0 : Dom.Element)
    (doc : Dom.Document) :
  Dom.lookup el doc = Some e0 ->
  let doc' := page_with_node css eng colors n styles el doc in
  let d := Dom.depth e0 in
  exists k1 k2 k3 k4,
    Dom.child_elements el doc'
    = Dom.child_elements el doc
      ++ [Dom.place (S d) (node_div css eng colors n styles k1)] /\
    Dom.child_elements k1 doc' = [Dom.place (S (S d)) (node_text_div css k2)] /\
    Dom.child_elements k2 doc'
    = [Dom.place (S (S (S d))) (node_icon css n k3);
       Dom.place (S (S (S d))) (node_label n k4)] /\
    (forall k, Dom.present k doc = true -> k <> el ->
               Dom.child_elements k doc' = Dom.child_elements k doc) /\
    (forall k, Dom.present k doc = true -> Dom.lookup k doc' = Dom.lookup k doc) /\
    (forall k, Dom.present k doc = true -> Dom.present k doc' = true) /\
    (plain_text (name n) = true -> Dom.child_elements k4 doc' = []).
Proof.
  intros He0 doc' d. unfold page_with_node in doc'.
  set (k1 := Dom.fresh doc) in *.
  set (c1 := node_div css eng colors n styles k1) in *.
  set (doc1 := Dom.insert_child el c1 doc) in *.
  set (k2 := Dom.fresh doc1) in *.
  set (c2 := node_text_div css k2) in *.
  set (doc2 := Dom.insert_child k1 c2 doc1) in *.
  set (k3 := Dom.fresh doc2) in *.
  set (c3 := node_icon css n k3) in *.
  set (doc3 := Dom.insert_child k2 c3 doc2) in *.
  set (k4 := Dom.fresh doc3) in *.
  set (c4 := node_label n k4) in *.
  assert (K1 : Dom.key c1 = k1) by reflexivity.
  assert (K2 : Dom.key c2 = k2) by reflexivity.
  assert (K3 : Dom.key c3 = k3) by reflexivity.
  assert (K4 : Dom.key c4 = k4) by reflexivity.
  assert (P0 : Dom.present el doc = true) by (eapply lookup_is_present; exact He0).
  assert (P1 : Dom.present k1 doc1 = true)
    by (rewrite <- K1; apply present_inserted; exact P0).
  assert (P2 : Dom.present k2 doc2 = true)
    by (rewrite <- K2; apply present_inserted; exact P1).
  assert (P3 : Dom.present k3 doc3 = true)
    by (rewrite <- K3; apply present_inserted; exact P2).
  assert (Q1 : forall k, Dom.present k doc = true -> Dom.present k doc1 = true)
    by (intros; now apply present_insert_child).
  assert (Q2 : forall k, Dom.present k doc1 = true -> Dom.present k doc2 = true)
    by (intros; now apply present_insert_child).
  assert (Q3 : forall k, Dom.present k doc2 = true -> Dom.present k doc3 = true)
    by (intros; now apply present_insert_child).
  assert (F1 : forall k, Dom.present k doc = true -> k1 <> k)
    by (intros; now apply present_not_fresh).
  assert (F2 : forall k, Dom.present k doc1 = true -> k2 <> k)
    by (intros; now apply present_not_fresh).
  assert (F3 : forall k, Dom.present k doc2 = true -> k3 <> k)
    by (intros; now apply present_not_fresh).
  assert (F4 : forall k, Dom.present k doc3 = true -> k4 <> k)
    by (intros; now apply present_not_fresh).
  assert (L1 : Dom.lookup k1 doc1 = Some (Dom.place (S d) c1)).
  { rewrite <- K1. apply lookup_inserted; [|exact He0].
    intros e; apply fresh_absent. }
  assert (L2 : Dom.lookup k2 doc2 = Some (Dom.place (S (S d)) c2)).
  { rewrite <- K2. apply (lookup_inserted k1 c2 (Dom.place (S d) c1) doc1); [|exact L1].
    intros e; apply fresh_absent. }
  assert (L2' : Dom.lookup k2 doc3 = Some (Dom.place (S (S d)) c2)).
  { unfold doc3. rewrite lookup_insert_child; [exact L2|].
    rewrite K3. now apply F3. }
  assert (Side1 : forall k, Dom.present k doc = true ->
                             Dom.key c1 <> k /\ Dom.key c2 <> k /\ Dom.key c3 <> k /\
                             Dom.key c4 <> k).
  { intros k Hk. rewrite K1, K2, K3, K4. repeat split.
    - now apply F1.
    - now apply F2, Q1.
    - now apply F3, Q2, Q1.
    - now apply F4, Q3, Q2, Q1. }
  assert (N21 : k2 <> k1) by now apply F2.
  assert (N31 : Dom.key c3 <> k1) by (rewrite K3; now apply F3, Q2).
  assert (N41 : Dom.key c4 <> k1) by (rewrite K4; now apply F4, Q3, Q2).
  assert (G : forall x, Dom.present x doc3 = true ->
                        Dom.child_elements x
                          (Dom.graft [] k4 (markup_of eng (name n))
                             (Dom.insert_child k2 c4 doc3))
                        = Dom.child_elements x (Dom.insert_child k2 c4 doc3)).
  { intros x Hx. apply child_elements_graft_other.
    - now apply F4.
    - intros k [].
    - now apply present_insert_child. }
  exists k1, k2, k3, k4. subst doc'.
  split; [|split; [|split; [|split; [|split; [|split]]]]].
  - destruct (Side1 el P0) as (S1 & S2 & S3 & S4).
    rewrite G by (now apply Q3, Q2, Q1).
    rewrite (child_elements_insert_other el k2 c4 doc3) by (auto; now apply F2, Q1).
    unfold doc3.
    rewrite (child_elements_insert_other el k2 c3 doc2) by (auto; now apply F2, Q1).
    unfold doc2.
    rewrite (child_elements_insert_other el k1 c2 doc1) by (auto; now apply F1).
    exact (child_elements_insert el c1 e0 doc He0).
  - rewrite G by (now apply Q3, Q2).
    rewrite (child_elements_insert_other k1 k2 c4 doc3) by auto.
    unfold doc3.
    rewrite (child_elements_insert_other k1 k2 c3 doc2) by auto.
    unfold doc2. rewrite (child_elements_insert k1 c2 (Dom.place (S d) c1) doc1 L1).
    unfold doc1. rewrite <- K1 at 1.
    rewrite child_elements_new_leaf; [reflexivity|].
    intros e; apply fresh_absent.
  - rewrite G by (now apply Q3).
    rewrite (child_elements_insert k2 c4 (Dom.place (S (S d)) c2) doc3 L2').
    unfold doc3. rewrite (child_elements_insert k2 c3 (Dom.place (S (S d)) c2) doc2 L2).
    unfold doc2. rewrite <- K2 at 1.
    rewrite child_elements_new_leaf; [reflexivity|].
    intros e; apply fresh_absent.
  - intros k Hk Hne. destruct (Side1 k Hk) as (S1 & S2 & S3 & S4).
    rewrite G by (now apply Q3, Q2, Q1).
    rewrite (child_elements_insert_other k k2 c4 doc3) by (auto; now apply F2, Q1).
    unfold doc3.
    rewrite (child_elements_insert_other k k2 c3 doc2) by (auto; now apply F2, Q1).
    unfold doc2.
    rewrite (child_elements_insert_other k k1 c2 doc1) by (auto; now apply F1).
    unfold doc1.
    now rewrite (child_elements_insert_other k el c1 doc) by auto.
  - intros k Hk. destruct (Side1 k Hk) as (S1 & S2 & S3 & S4).
    rewrite lookup_graft by (apply present_insert_child; now apply Q3, Q2, Q1).
    rewrite (lookup_insert_child k k2 c4 doc3) by auto.
    unfold doc3. rewrite (lookup_insert_child k k2 c3 doc2) by auto.
    unfold doc2. rewrite (lookup_insert_child k k1 c2 doc1) by auto.
    unfold doc1. now rewrite (lookup_insert_child k el c1 doc) by auto.
  - intros k Hk. apply graft_keeps, present_insert_child. now apply Q3, Q2, Q1.
  - intros Hplain. unfold markup_of. rewrite Hplain. cbn [Dom.graft].
    rewrite <- K4. apply child_elements_new_leaf.
    intros e. rewrite K4. apply fresh_absent.
Qed.

Lemma has_class_classed_keeps (c c' : string) (e : Dom.Element) :
  Dom.has_class c' e = true ->
  Dom.has_class c' (Dom.apply_edit (Dom.Classed c true) e) = true.
Proof.
  unfold Dom.has_class at 1 2. simpl. intros H.
  destruct (Dom.has_class c e); [exact H|].
  rewrite existsb_app, H. reflexivity.
Qed.

(** X8. [_renderNode] appends one visual to the container of the nodes, as
    its last child: a [div] whose id is the name of the node, whose class
    is the class of nodes, whose style is the given box, each number as
    JavaScript prints it, followed by the color that the lookup of the
    group in the group colors gives, and which listens to the four mouse
    events with the name of the node.  Its only child is the text, whose
    children are the icon and the label; the icon of a node without icon
    carries the class [undefined]; the label was given the name of the
    node as its HTML, and holds no element when the name has no markup
    in it. *)
Theorem renderNode_builds_visual (css : StyleSheet) (n : Node)
    (styles : list (string * float)) (el : nat) (e0 : Dom.Element) (w : World) :
  _el (this w) = Some (Some el) ->
  Dom.lookup el (document w) = Some e0 ->
  exists w' nodeEl textEl iconEl labelEl,
    _renderNode css n styles w = (Ok tt, w') /\
    this w' = this w /\
    fired w' = fired w /\
    Dom.child_elements el (document w')
    = Dom.child_elements el (document w) ++ [nodeEl] /\
    Dom.child_elements (Dom.key nodeEl) (document w') = [textEl] /\
    Dom.child_elements (Dom.key textEl) (document w') = [iconEl; labelEl] /\
    Dom.tag nodeEl = "div" /\
    Dom.id_of nodeEl = Some (name n) /\
    Dom.classes nodeEl = class_tokens (node css) /\
    assoc_get "style" (Dom.attrs nodeEl)
    = Some (join ";" (map (fun kv => fst kv ++ ":" ++ number_text (engine w) (snd kv)
                                     ++ "px")
                          styles)
            ++ "; background-color:"
            ++ node_color (engine w) (_groupColors (this w)) n)%string /\
    assoc_get "mousedown" (Dom.listeners nodeEl) = Some (CallOnMouseDown (name n)) /\
    assoc_get "mouseup" (Dom.listeners nodeEl) = Some (CallOnMouseUp (name n)) /\
    assoc_get "mouseover" (Dom.listeners nodeEl)
    = Some (CallHighlightNode (name n) true) /\
    assoc_get "mouseout" (Dom.listeners nodeEl)
    = Some (CallHighlightNode (name n) false) /\
    Dom.tag textEl = "div" /\
    Dom.classes textEl = class_tokens (node_text css) /\
    Dom.tag iconEl = "i" /\
    Dom.has_class "zmdi" iconEl = true /\
    Dom.has_class (icon_class css) iconEl = true /\
    (icon n = None -> Dom.has_class "undefined" iconEl = true) /\
    Dom.tag labelEl = "span" /\
    Dom.html labelEl = name n /\
    (plain_text (name n) = true ->
     Dom.child_elements (Dom.key labelEl) (document w') = []).
Proof.
  intros Hel He0.
  pose proof (renderNode_run css n styles el w Hel
                (lookup_is_present el (document w) e0 He0)) as Hrun.
  destruct (page_with_node_children css (engine w) (_groupColors (this w)) n styles
              el e0 (document w) He0)
    as (k1 & k2 & k3 & k4 & C0 & C1 & C2 & _ & _ & _ & C4).
  eexists. eexists. eexists. eexists. eexists.
  split; [exact Hrun|].
  split; [reflexivity|]. split; [reflexivity|].
  split; [exact C0|]. split; [exact C1|]. split; [exact C2|].
  split; [reflexivity|]. split; [reflexivity|]. split; [reflexivity|].
  split; [reflexivity|]. split; [reflexivity|]. split; [reflexivity|].
  split; [reflexivity|]. split; [reflexivity|]. split; [reflexivity|].
  split; [reflexivity|]. split; [reflexivity|].
  split; [|split; [|split; [|split; [reflexivity|split; [reflexivity|exact C4]]]]].
  - apply (has_class_classed_keeps (icon_class css) "zmdi"). reflexivity.
  - apply (has_class_classed_on (icon_class css)).
  - intros Hi. apply (has_class_classed_keeps (icon_class css) "undefined").
    unfold Dom.has_class. simpl. rewrite Hi. reflexivity.
Qed.

Lemma renderNode_builds_visual_witness :
  exists w' nodeEl textEl iconEl labelEl,
    _renderNode plain_css (node_named "A") [("top", 12%float); ("left", 34%float)]
      rendered_world
    = (Ok tt, w') /\
    this w' = this rendered_world /\
    fired w' = fired rendered_world /\
    Dom.child_elements 6 (document w')
    = Dom.child_elements 6 (document rendered_world) ++ [nodeEl] /\
    Dom.child_elements (Dom.key nodeEl) (document w') = [textEl] /\
    Dom.child_elements (Dom.key textEl) (document w') = [iconEl; labelEl] /\
    Dom.tag nodeEl = "div" /\
    Dom.id_of nodeEl = Some "A" /\
    Dom.classes nodeEl = class_tokens (node plain_css) /\
    assoc_get "style" (Dom.attrs nodeEl)
    = Some "top:12px;left:34px; background-color:#2196F3" /\
    assoc_get "mousedown" (Dom.listeners nodeEl) = Some (CallOnMouseDown "A") /\
    assoc_get "mouseup" (Dom.listeners nodeEl) = Some (CallOnMouseUp "A") /\
    assoc_get "mouseover" (Dom.listeners nodeEl) = Some (CallHighlightNode "A" true) /\
    assoc_get "mouseout" (Dom.listeners nodeEl) = Some (CallHighlightNode "A" false) /\
    Dom.tag textEl = "div" /\
    Dom.classes textEl = class_tokens (node_text plain_css) /\
    Dom.tag iconEl = "i" /\
    Dom.has_class "zmdi" iconEl = true /\
    Dom.has_class (icon_class plain_css) iconEl = true /\
    (icon (node_named "A") = None -> Dom.has_class "undefined" iconEl = true) /\
    Dom.tag labelEl = "span" /\
    Dom.html labelEl = "A" /\
    (plain_text "A" = true ->
     Dom.child_elements (Dom.key labelEl) (document w') = []).
Proof.
  eapply (renderNode_builds_visual plain_css (node_named "A")
            [("top", 12%float); ("left", 34%float)] 6 _ rendered_world).
  - vm_compute. reflexivity.
  - vm_compute. reflexivity.
Defined.

(* ================================================================= *)
(** ** Node [i] is drawn in the box [layout.children[i]] *)

Lemma string_append_assoc (a b c : string) :
  ((a ++ b) ++ c = a ++ (b ++ c))%string.
Proof. induction a as [|ch a IH]; simpl; [reflexivity | now rewrite IH]. Qed.

Lemma node_style_joined (eng : Engine) (c : LayoutChild) (color : string) :
  (join ";" (map (fun kv => fst kv ++ ":" ++ number_text eng (snd kv) ++ "px")
               [("top", y c); ("left", x c); ("width", width c); ("height", height c)])
   ++ "; background-color:" ++ color)%string
  = node_style eng (y c) (x c) (width c) (height c) color.
Proof.
  unfold node_style. simpl.
  repeat (rewrite string_append_assoc; simpl).
  reflexivity.
Qed.

Lemma node_div_shown (css : StyleSheet) (eng : Engine) (colors : list (string * string))
    (n : Node) (c : LayoutChild) (k d : nat) :
  node_shown css eng colors (n, c)
    (node_view (Dom.place d
                  (node_div css eng colors n
                     [("top", y c); ("left", x c); ("width", width c);
                      ("height", height c)] k))).
Proof.
  unfold node_shown.
  split; [reflexivity|]. split; [reflexivity|].
  split; [|repeat split].
  cbn [snd fst]. rewrite <- node_style_joined. reflexivity.
Qed.

Lemma skipn_nth_error {A : Type} (l : list A) (i : nat) (a : A) :
  nth_error l i = Some a -> skipn i l = a :: skipn (S i) l.
Proof.
  revert l. induction i as [|i IH]; intros [|b l] H; try discriminate.
  - injection H as ->. reflexivity.
  - simpl in H. simpl. rewrite (IH l H). reflexivity.
Qed.

(** The loop of [_renderNodes]: the visuals of the nodes become the last
    children of the container, in the order of the nodes, each in the
    box that the layout has at its index. *)
Lemma renderNodes_loop (css : StyleSheet) (layout : Layout) (el : nat)
    (e0 : Dom.Element) (ns : list Node) :
  forall (i : nat) (w : World),
    _el (this w) = Some (Some el) ->
    Dom.lookup el (document w) = Some e0 ->
    i + List.length ns <= List.length (layout_children layout) ->
    exists w' news,
      forEach_from i (_renderNodes_each css layout) ns w = (Ok tt, w') /\
      this w' = this w /\
      Dom.lookup el (document w') = Some e0 /\
      (forall k, Dom.present k (document w) = true -> k <> el ->
                 Dom.child_elements k (document w') = Dom.child_elements k (document w)) /\
      (forall k, Dom.present k (document w) = true ->
                 Dom.lookup k (document w') = Dom.lookup k (document w)) /\
      Dom.child_elements el (document w')
      = Dom.child_elements el (document w) ++ news /\
      Forall2 (node_shown css (engine w) (_groupColors (this w)))
        (combine ns (skipn i (layout_children layout))) (map node_view news) /\
      engine w' = engine w.
Proof.
  induction ns as [|n rest IH]; intros i w Hel He0 Hfit.
  - exists w, []. simpl. rewrite app_nil_r. repeat split; auto.
  - simpl in Hfit.
    destruct (nth_error (layout_children layout) i) as [c|] eqn:Ec;
      [|apply nth_error_None in Ec; lia].
    assert (Pel : Dom.present el (document w) = true)
      by (eapply lookup_is_present; exact He0).
    set (styles := [("top", y c); ("left", x c); ("width", width c);
                    ("height", height c)]).
    assert (Hstep : _renderNodes_each css layout n i w
                    = (Ok tt,
                       with_document
                         (page_with_node css (engine w) (_groupColors (this w)) n styles
                            el (document w)) w)).
    { unfold _renderNodes_each. rewrite Ec. now apply renderNode_run. }
    destruct (page_with_node_children css (engine w) (_groupColors (this w)) n styles
                el e0 (document w) He0)
      as (k1 & k2 & k3 & k4 & C0 & _ & _ & Cother & Clook & Cpres & _).
    set (doc1 := page_with_node css (engine w) (_groupColors (this w)) n styles el
                   (document w)) in *.
    set (w1 := with_document doc1 w) in *.
    destruct (IH (S i) w1) as (w' & news & Hrun & Hthis & Hlook & Hother & Hlooks
                               & Hkids & Hshown & Heng).
    + exact Hel.
    + unfold w1; simpl. rewrite Clook by exact Pel. exact He0.
    + lia.
    + exists w', (Dom.place (S (Dom.depth e0))
                    (node_div css (engine w) (_groupColors (this w)) n styles k1) :: news).
      simpl. rewrite (bind_ok _ _ w w1 tt Hstep).
      split; [exact Hrun|]. split; [exact Hthis|]. split; [exact Hlook|].
      split; [|split; [|split; [|split; [|exact Heng]]]].
      * intros k Hk Hne. rewrite Hother; [now apply Cother | now apply Cpres | exact Hne].
      * intros k Hk. rewrite Hlooks; [now apply Clook | now apply Cpres].
      * rewrite Hkids. unfold w1; simpl. rewrite C0, <- app_assoc. reflexivity.
      * rewrite (skipn_nth_error _ i c Ec). simpl. constructor.
        -- apply node_div_shown.
        -- exact Hshown.
Qed.

(** The loop of [_renderEdges] leaves the children of every element
    other than the group as they are. *)
Lemma renderEdges_loop_keeps (layout : Layout) (g k : nat) (e0 : Dom.Element)
    (es : list Edge) :
  k <> g ->
  forall (i : nat) (w w' : World),
    _group (this w) = Some (Some g) ->
    Dom.lookup g (document w) = Some e0 ->
    Dom.present k (document w) = true ->
    (forall j, j < List.length es ->
               exists p, edge_path layout (i + j) (engine w) = Ok p) ->
    forEach_from i (_renderEdges_each layout) es w = (Ok tt, w') ->
    Dom.child_elements k (document w') = Dom.child_elements k (document w).
Proof.
  intros Hne. induction es as [|edge rest IH]; intros i w w' Hg He0 Pk Hroute Hrun.
  - simpl in Hrun. injection Hrun as <-. reflexivity.
  - destruct (Hroute 0) as [p Hp]; [simpl; lia|]. rewrite Nat.add_0_r in Hp.
    pose proof (renderEdges_each_run layout edge i g w e0 p Hg He0 Hp) as Hstep.
    simpl in Hrun. rewrite (bind_ok _ _ _ _ tt Hstep) in Hrun.
    set (c := path_element (Dom.fresh (document w)) p edge) in *.
    assert (Kc : Dom.key c = Dom.fresh (document w)).
    { unfold c, path_element. destruct (type edge =? "arrow"); reflexivity. }
    set (w1 := with_document (Dom.insert_child g c (document w)) w) in *.
    assert (Pg : Dom.present g (document w) = true)
      by (eapply lookup_is_present; exact He0).
    assert (E : Dom.child_elements k (document w') = Dom.child_elements k (document w1)).
    { apply (IH (S i) w1 w' Hg).
      - unfold w1; simpl. rewrite lookup_insert_child; [exact He0|].
        rewrite Kc. now apply present_not_fresh.
      - unfold w1; simpl. now apply present_insert_child.
      - intros j Hj. replace (S i + j) with (i + S j) by lia. apply Hroute. simpl. lia.
      - exact Hrun. }
    rewrite E. unfold w1; simpl.
    apply child_elements_insert_other; [|congruence].
    rewrite Kc. now apply present_not_fresh.
Qed.

(** *** What shows of the elements is kept by [_setGraphSize] *)

#[local] Arguments node_view : simpl never.

Lemma placed_view_cons (e e' : Dom.Element) (l l' : Dom.Document) :
  map placed_view (e :: l) = map placed_view (e' :: l') ->
  Dom.key e = Dom.key e' /\ Dom.depth e = Dom.depth e' /\ node_view e = node_view e' /\
  map placed_view l = map placed_view l'.
Proof.
  intros H.
  pose proof (f_equal (fun m => match m with
                                | v :: _ => v
                                | [] => placed_view e
                                end) H) as Hv.
  pose proof (f_equal (@tl _) H) as Hrest.
  cbn [map tl] in Hv, Hrest.
  split; [exact (f_equal (fun t => fst (fst t)) Hv)|].
  split; [exact (f_equal (fun t => snd (fst t)) Hv)|].
  split; [exact (f_equal snd Hv) | exact Hrest].
Qed.

Lemma subtree_len_view (d : nat) (l l' : Dom.Document) :
  map placed_view l = map placed_view l' -> Dom.subtree_len d l = Dom.subtree_len d l'.
Proof.
  revert l'. induction l as [|e rest IH]; intros [|e' rest'] H; try discriminate;
    [reflexivity|].
  destruct (placed_view_cons e e' rest rest' H) as (Hk & Hd & Hv & Hrest).
  simpl. rewrite Hd.
  destruct (d <? Dom.depth e')%nat; [f_equal; now apply IH | reflexivity].
Qed.

Lemma children_view (x n : nat) (l l' : Dom.Document) :
  map placed_view l = map placed_view l' ->
  map placed_view (filter (fun c => Dom.depth c =? x)%nat (firstn n l))
  = map placed_view (filter (fun c => Dom.depth c =? x)%nat (firstn n l')).
Proof.
  revert l l'. induction n as [|n IH]; intros l l' H; [reflexivity|].
  destruct l as [|e rest], l' as [|e' rest']; try discriminate; [reflexivity|].
  destruct (placed_view_cons e e' rest rest' H) as (Hk & Hd & Hv & Hrest).
  simpl. rewrite Hd.
  destruct (Dom.depth e' =? x)%nat; simpl.
  - unfold placed_view at 1 3. rewrite Hk, Hd, Hv. f_equal. now apply IH.
  - now apply IH.
Qed.

Lemma child_elements_view (k : nat) (doc doc' : Dom.Document) :
  map placed_view doc = map placed_view doc' ->
  map placed_view (Dom.child_elements k doc) = map placed_view (Dom.child_elements k doc').
Proof.
  revert doc'. induction doc as [|e rest IH]; intros [|e' rest'] H; try discriminate;
    [reflexivity|].
  destruct (placed_view_cons e e' rest rest' H) as (Hk & Hd & Hv & Hrest).
  simpl. rewrite Hk, Hd.
  destruct (Dom.key e' =? k)%nat; [|now apply IH].
  rewrite (subtree_len_view (Dom.depth e') rest rest' Hrest).
  now apply children_view.
Qed.

Lemma update_view (sel : Dom.Selection) (ed : Dom.Edit) (doc : Dom.Document) :
  (forall e, node_view (Dom.apply_edit ed e) = node_view e) ->
  map placed_view (Dom.update sel ed doc) = map placed_view doc.
Proof.
  intros Hed. destruct sel as [k|]; simpl; [|reflexivity].
  induction doc as [|e rest IH]; simpl; [reflexivity|].
  destruct (Dom.key e =? k)%nat; simpl; [|now rewrite IH].
  unfold placed_view at 1 3.
  now rewrite apply_edit_key, apply_edit_depth, Hed.
Qed.

Lemma setGraphSize_view (ns : list LayoutChild) (w w' : World) (r : Result unit) :
  _setGraphSize ns w = (r, w') ->
  map placed_view (document w') = map placed_view (document w).
Proof.
  assert (Hattr : forall n v e, (n =? "id")%string = false ->
                                (n =? "style")%string = false ->
                                node_view (Dom.apply_edit (Dom.SetAttr n v) e) = node_view e).
  { intros n v e Hid Hstyle. unfold node_view, Dom.id_of. simpl.
    now rewrite !assoc_get_set_other by assumption. }
  unfold _setGraphSize, bind, get_engine, defined, d3_style_length, d3_edit.
  destruct (_el (this w)) as [el|]; [|intros H; now injection H as _ <-].
  destruct (valid_length _), (valid_length _);
    cbn [this with_document document];
    (destruct (_svg (this w)) as [svg|]; intros H; injection H as _ <-;
     cbn [this with_document document]);
    rewrite ?update_view; try reflexivity;
    intros e; now apply Hattr.
Qed.

Lemma setGraphSize_ok (ns : list LayoutChild) (el svg : Dom.Selection) (w : World) :
  _el (this w) = Some el ->
  _svg (this w) = Some svg ->
  exists w', _setGraphSize ns w = (Ok tt, w') /\ this w' = this w.
Proof.
  intros Hel Hsvg.
  unfold _setGraphSize, bind, get_engine, defined, d3_style_length, d3_edit.
  rewrite Hel.
  destruct (valid_length _), (valid_length _);
    cbn [this with_document document]; rewrite Hsvg;
    eexists; split; reflexivity.
Qed.

Lemma node_view_of_placed (l : Dom.Document) :
  map node_view l = map snd (map placed_view l).
Proof. rewrite map_map. reflexivity. Qed.

Lemma tags_of_placed (l : Dom.Document) :
  map Dom.tag l = map (fun v => view_tag (snd v)) (map placed_view l).
Proof. rewrite map_map. reflexivity. Qed.

Lemma edge_shown_tags (es : list Edge) (paths : list Dom.Element) :
  Forall2 edge_shown es paths -> map Dom.tag paths = repeat "path"%string (List.length es).
Proof.
  induction 1 as [|e p es' ps' Hp _ IH]; [reflexivity|].
  simpl. destruct Hp as [-> _]. now rewrite IH.
Qed.

Lemma building_renderNodes_then (css : StyleSheet) (layout : Layout) :
  building (_renderNodes_then css layout).
Proof.
  unfold _renderNodes_then.
  apply building_bind; [apply building_defined | intros ns].
  apply building_bind; [apply building_forEach_from, building_renderNodes_each | intros _].
  apply building_bind; [apply building_renderEdges | intros _].
  apply building_setGraphSize.
Qed.

(** The callback of [_renderNodes], from an instance that holds its
    nodes and edges and whose container and group are in the page. *)
Lemma renderNodes_then_run (css : StyleSheet) (w : World) (layout : Layout)
    (ns : list Node) (es : list Edge) (el g : nat) (svg : Dom.Selection) :
  _nodes (this w) = Some ns ->
  _edges (this w) = Some es ->
  _el (this w) = Some (Some el) ->
  _group (this w) = Some (Some g) ->
  _svg (this w) = Some svg ->
  Dom.present el (document w) = true ->
  Dom.present g (document w) = true ->
  el <> g ->
  answers layout ns es ->
  exists w' news,
    _renderNodes_then css layout w = (Ok tt, w') /\
    this w' = this w /\
    map node_view (Dom.child_elements el (document w'))
    = map node_view (Dom.child_elements el (document w)) ++ news /\
    Forall2 (node_shown css (engine w) (_groupColors (this w)))
      (combine ns (layout_children layout)) news /\
    kids g (document w') = kids g (document w) ++ repeat "path"%string (List.length es) /\
    (forall k, Dom.present k (document w) = true -> Dom.present k (document w') = true).
Proof.
  intros Hns Hes Hel Hg Hsvg Pel Pg Hne [Hfit Hroute].
  destruct (lookup_present el (document w) Pel) as [e0 He0].
  destruct (lookup_present g (document w) Pg) as [eg Heg].
  destruct (renderNodes_loop css layout el e0 ns 0 w Hel He0 Hfit)
    as (w1 & news & Hrun1 & Hthis1 & Hlook1 & Hother1 & Hlooks1 & Hkids1 & Hshown & _).
  assert (Hg1 : _group (this w1) = Some (Some g)) by (rewrite Hthis1; exact Hg).
  assert (Heg1 : Dom.lookup g (document w1) = Some eg)
    by (rewrite Hlooks1 by exact Pg; exact Heg).
  assert (Hroute1 : forall j, j < List.length es ->
                              exists p, edge_path layout (0 + j) (engine w1) = Ok p).
  { intros j Hj. now apply (routed_edge_path layout (List.length es)). }
  destruct (renderEdges_loop layout g eg es 0 w1 Hg1 Heg1 Hroute1)
    as (w2 & paths & Hrun2 & Hthis2 & _ & _ & Hpaths & Hpshown).
  assert (Hkids2 : Dom.child_elements el (document w2)
                   = Dom.child_elements el (document w1)).
  { apply (renderEdges_loop_keeps layout g el eg es Hne 0 w1 w2 Hg1 Heg1); auto.
    eapply lookup_is_present. exact Hlook1. }
  assert (Hedges : _renderEdges layout w1 = (Ok tt, w2)).
  { unfold _renderEdges.
    rewrite (bind_ok _ _ w1 w1 es); [exact Hrun2|].
    apply defined_some. rewrite Hthis1. exact Hes. }
  destruct (setGraphSize_ok (layout_children layout) (Some el) svg w2)
    as (w3 & Hrun3 & Hthis3).
  { rewrite Hthis2, Hthis1. exact Hel. }
  { rewrite Hthis2, Hthis1. exact Hsvg. }
  pose proof (setGraphSize_view _ w2 w3 (Ok tt) Hrun3) as Hview.
  assert (Hrun : _renderNodes_then css layout w = (Ok tt, w3)).
  { unfold _renderNodes_then.
    rewrite (bind_ok _ _ w w ns (defined_some _nodes w ns Hns)).
    unfold forEach. rewrite (bind_ok _ _ w w1 tt Hrun1).
    rewrite (bind_ok _ _ w1 w2 tt Hedges).
    exact Hrun3. }
  exists w3, (map node_view news).
  split; [exact Hrun|].
  split; [|split; [|split; [|split]]];
    [| | | |exact (proj2 (proj2 (building_renderNodes_then css layout w (Ok tt) w3 Hrun)))].
  - now rewrite Hthis3, Hthis2, Hthis1.
  - rewrite (node_view_of_placed (Dom.child_elements el (document w3))).
    rewrite (child_elements_view el (document w3) (document w2) Hview).
    rewrite <- node_view_of_placed.
    rewrite Hkids2, Hkids1. apply map_app.
  - exact Hshown.
  - unfold kids.
    rewrite (tags_of_placed (Dom.child_elements g (document w3))).
    rewrite (child_elements_view g (document w3) (document w2) Hview).
    rewrite <- tags_of_placed.
    rewrite Hpaths, map_app, (edge_shown_tags es paths Hpshown).
    rewrite Hother1; [reflexivity | exact Pg | congruence].
Qed.

(** X9. When the layout answers a request with a box for every node and
    a route for every edge, the callback of [_renderNodes] runs to its
    end and appends one visual per node to the container, in the order
    of the nodes: the visual of the node of index [i] has the name of
    that node as its id, the class of nodes, the four mouse listeners
    with that name, and the style made of the box [layout.children[i]],
    its four doubles as JavaScript prints them, and of the color that the
    lookup of the group of the node in the group colors gives.  The edges
    and the size of the graph, which are rendered afterwards, change
    nothing of this. *)
Theorem renderNodes_then_places_nodes (css : StyleSheet) (w : World) (layout : Layout)
    (ns : list Node) (es : list Edge) (el g : nat) (svg : Dom.Selection) :
  _nodes (this w) = Some ns ->
  _edges (this w) = Some es ->
  _el (this w) = Some (Some el) ->
  _group (this w) = Some (Some g) ->
  _svg (this w) = Some svg ->
  Dom.present el (document w) = true ->
  Dom.present g (document w) = true ->
  el <> g ->
  answers layout ns es ->
  exists w' news,
    _renderNodes_then css layout w = (Ok tt, w') /\
    map node_view (node_visuals w') = map node_view (node_visuals w) ++ news /\
    Forall2 (node_shown css (engine w) (_groupColors (this w)))
      (combine ns (layout_children layout)) news.
Proof.
  intros Hns Hes Hel Hg Hsvg Pel Pg Hne Hans.
  destruct (renderNodes_then_run css w layout ns es el g svg
              Hns Hes Hel Hg Hsvg Pel Pg Hne Hans)
    as (w' & news & Hrun & Hthis & Hnodes & Hshown & _ & _).
  exists w', news. split; [exact Hrun|]. split; [|exact Hshown].
  unfold node_visuals. rewrite Hthis, Hel. exact Hnodes.
Qed.

Lemma renderNodes_then_places_nodes_witness :
  exists w' news,
    _renderNodes_then plain_css layout_AB awaiting_AB_world = (Ok tt, w') /\
    map node_view (node_visuals w') = map node_view (node_visuals awaiting_AB_world) ++ news /\
    Forall2 (node_shown plain_css (engine awaiting_AB_world)
               (_groupColors (this awaiting_AB_world)))
      (combine [node_named "A"; node_named "B"] (layout_children layout_AB)) news.
Proof.
  apply (renderNodes_then_places_nodes plain_css awaiting_AB_world layout_AB
           [node_named "A"; node_named "B"]
           [{| start := "A"; end_ := "B"; type := "arrow" |}] 6 2 (Some 1)).
  - vm_compute. reflexivity.
  - vm_compute. reflexivity.
  - vm_compute. reflexivity.
  - vm_compute. reflexivity.
  - vm_compute. reflexivity.
  - vm_compute. reflexivity.
  - vm_compute. reflexivity.
  - discriminate.
  - exact answers_AB.
Defined.

(* ================================================================= *)
(** ** Two calls of [setData] before the layouts answer *)

(** The part of [setData] that runs at once. *)
Lemma setData_run (data : Data) (c el : Dom.Selection) (w : World) :
  _container (this w) = Some c ->
  _el (this w) = Some el ->
  exists graph,
    setData data w
    = (Ok graph,
       with_this (set_edges (match edges data with Some l => l | None => [] end)
                    (set_nodes (match nodes data with Some l => l | None => [] end)
                       (this w)))
         (with_document (Dom.empty el (document w)) w)).
Proof.
  intros Hc Hel. unfold setData, bind, get_this. rewrite Hc. unfold defined. rewrite Hel.
  unfold d3_html_empty, set_this, _renderNodes, _getElkGraph, bind, defined, ret.
  cbn [this with_this with_document document _nodes _edges set_nodes set_edges].
  eexists. reflexivity.
Qed.

Lemma inside_cleared (g el : nat) (doc : Dom.Document) :
  inside g el (Dom.clear_children el doc) = false.
Proof.
  induction doc as [|e rest IH]; [reflexivity|]. simpl.
  destruct (Dom.key e =? el)%nat eqn:E; simpl; rewrite E.
  - now rewrite subtree_len_rest.
  - exact IH.
Qed.

Lemma names_of_shown (css : StyleSheet) (eng : Engine) (colors : list (string * string))
    (ns : list Node) (cs : list LayoutChild) (news : list NodeView) :
  List.length ns <= List.length cs ->
  Forall2 (node_shown css eng colors) (combine ns cs) news ->
  map view_id news = map (fun n => Some (name n)) ns.
Proof.
  revert cs news. induction ns as [|n rest IH]; intros cs news Hlen H.
  - inversion H. reflexivity.
  - destruct cs as [|c cs]; [simpl in Hlen; lia|].
    simpl in H. inversion H as [|? v ? vs Hv Hrest]; subst.
    simpl. destruct Hv as (_ & -> & _). f_equal.
    apply (IH cs); [simpl in Hlen; lia | exact Hrest].
Qed.

(** After the part of [setData] that runs at once: the instance holds
    the new nodes and edges, the container of the nodes is empty, and
    the group is as it was. *)
Lemma setData_prepares (data : Data) (c : Dom.Selection) (el g : nat) (w : World) :
  _container (this w) = Some c ->
  _el (this w) = Some (Some el) ->
  Dom.present el (document w) = true ->
  Dom.present g (document w) = true ->
  el <> g ->
  inside g el (document w) = false ->
  exists graph w1,
    setData data w = (Ok graph, w1) /\
    this w1 = set_edges (match edges data with Some l => l | None => [] end)
                (set_nodes (match nodes data with Some l => l | None => [] end) (this w)) /\
    Dom.present el (document w1) = true /\
    Dom.present g (document w1) = true /\
    inside g el (document w1) = false /\
    Dom.child_elements el (document w1) = [] /\
    Dom.child_elements g (document w1) = Dom.child_elements g (document w).
Proof.
  intros Hc Hel Pel Pg Hne Hout.
  destruct (setData_run data c (Some el) w Hc Hel) as [graph Hrun].
  eexists. eexists. split; [exact Hrun|].
  cbn [this document with_this with_document Dom.empty].
  split; [reflexivity|].
  split; [|split; [|split; [|split]]].
  - destruct (lookup_present el (document w) Pel) as [e He].
    apply (lookup_is_present el _ e). now rewrite lookup_clear_self.
  - destruct (lookup_present g (document w) Pg) as [e He].
    apply (lookup_is_present g _ e). now rewrite lookup_clear_other.
  - apply inside_cleared.
  - apply child_elements_cleared.
  - now apply child_elements_clear_other.
Qed.

(** X7. [setData(A)] then [setData(B)] before either layout has answered:
    each callback renders the nodes and edges the instance holds when it
    runs, which are those of B.  When both layouts have a box for every
    node of B and a route for every edge of B, both callbacks run to
    their end, and the widget then shows every node of B twice and no
    node of A; every edge of B has been added twice. *)
Theorem setData_twice_renders_last_twice (css : StyleSheet) (w : World)
    (dataA dataB : Data) (layoutA layoutB : Layout) (c svg : Dom.Selection)
    (el g : nat) :
  let nsB := match nodes dataB with Some l => l | None => [] end in
  let esB := match edges dataB with Some l => l | None => [] end in
  _container (this w) = Some c ->
  _el (this w) = Some (Some el) ->
  _group (this w) = Some (Some g) ->
  _svg (this w) = Some svg ->
  Dom.present el (document w) = true ->
  Dom.present g (document w) = true ->
  el <> g ->
  inside g el (document w) = false ->
  answers layoutA nsB esB ->
  answers layoutB nsB esB ->
  exists w',
    (setData dataA ;; setData dataB ;;
     _renderNodes_then css layoutA ;; _renderNodes_then css layoutB) w = (Ok tt, w') /\
    map Dom.id_of (node_visuals w') = map (fun n => Some (name n)) (nsB ++ nsB) /\
    List.length (edge_visuals w')
    = List.length (edge_visuals w) + List.length esB + List.length esB.
Proof.
  intros nsB esB Hc Hel Hg Hsvg Pel Pg Hne Hout HansA HansB.
  destruct (setData_prepares dataA c el g w Hc Hel Pel Pg Hne Hout)
    as (gA & w1 & Hrun1 & Hthis1 & Pel1 & Pg1 & Hout1 & _ & Hg1).
  assert (Hc1 : _container (this w1) = Some c) by (rewrite Hthis1; exact Hc).
  assert (Hel1 : _el (this w1) = Some (Some el)) by (rewrite Hthis1; exact Hel).
  destruct (setData_prepares dataB c el g w1 Hc1 Hel1 Pel1 Pg1 Hne Hout1)
    as (gB & w2 & Hrun2 & Hthis2 & Pel2 & Pg2 & _ & Hel2 & Hg2).
  assert (F2 : _nodes (this w2) = Some nsB /\ _edges (this w2) = Some esB /\
               _el (this w2) = Some (Some el) /\ _group (this w2) = Some (Some g) /\
               _svg (this w2) = Some svg /\ _groupColors (this w2) = _groupColors (this w)).
  { rewrite Hthis2, Hthis1. simpl. repeat split; assumption. }
  destruct F2 as (Hn2 & He2 & Hl2 & Hgr2 & Hs2 & Hcol2).
  destruct (renderNodes_then_run css w2 layoutA nsB esB el g svg
              Hn2 He2 Hl2 Hgr2 Hs2 Pel2 Pg2 Hne HansA)
    as (w3 & newsA & Hrun3 & Hthis3 & Hnodes3 & HshownA & Hkids3 & Hpres3).
  destruct (renderNodes_then_run css w3 layoutB nsB esB el g svg)
    as (w4 & newsB & Hrun4 & Hthis4 & Hnodes4 & HshownB & Hkids4 & _);
    try (rewrite Hthis3; assumption); auto.
  exists w4. split; [|split].
  - rewrite (bind_ok _ _ w w1 gA Hrun1).
    rewrite (bind_ok _ _ w1 w2 gB Hrun2).
    rewrite (bind_ok _ _ w2 w3 tt Hrun3).
    exact Hrun4.
  - unfold node_visuals. rewrite Hthis4, Hthis3, Hl2.
    change (map Dom.id_of (Dom.child_elements el (document w4)))
      with (map (fun e => view_id (node_view e)) (Dom.child_elements el (document w4))).
    rewrite <- (map_map node_view view_id).
    rewrite Hnodes4, Hnodes3, Hel2. simpl.
    rewrite !map_app.
    rewrite (names_of_shown css _ _ nsB (layout_children layoutA) newsA (proj1 HansA) HshownA).
    rewrite (names_of_shown css _ _ nsB (layout_children layoutB) newsB (proj1 HansB) HshownB).
    reflexivity.
  - unfold edge_visuals. rewrite Hthis4, Hthis3, Hgr2, Hg.
    rewrite !filter_tag_length.
    fold (kids g (document w4)). fold (kids g (document w)).
    rewrite Hkids4, Hkids3. unfold kids at 1. rewrite Hg2, Hg1.
    fold (kids g (document w)).
    rewrite !filter_app, !length_app, !filter_repeat_same, !repeat_length.
    reflexivity.
Qed.

Lemma answers_mixed_AB : answers layout_mixed [node_named "A"; node_named "B"]
                           [{| start := "A"; end_ := "B"; type := "arrow" |}].
Proof.
  split; [simpl; lia|]. intros i Hi.
  destruct i as [|i]; [|simpl in Hi; lia].
  simpl. eexists. eexists. split; reflexivity.
Qed.

Lemma setData_twice_renders_last_twice_witness :
  exists w',
    (setData data_mixed ;; setData data_AB ;;
     _renderNodes_then plain_css layout_mixed ;; _renderNodes_then plain_css layout_AB)
      rendered_world = (Ok tt, w') /\
    map Dom.id_of (node_visuals w')
    = map (fun n => Some (name n))
        ([node_named "A"; node_named "B"] ++ [node_named "A"; node_named "B"]) /\
    List.length (edge_visuals w') = List.length (edge_visuals rendered_world) + 1 + 1.
Proof.
  apply (setData_twice_renders_last_twice plain_css rendered_world data_mixed data_AB
           layout_mixed layout_AB (Some 0) (Some 1) 6 2).
  - vm_compute. reflexivity.
  - vm_compute. reflexivity.
  - vm_compute. reflexivity.
  - vm_compute. reflexivity.
  - vm_compute. reflexivity.
  - vm_compute. reflexivity.
  - discriminate.
  - vm_compute. reflexivity.
  - exact answers_mixed_AB.
  - exact answers_AB.
Defined.

(* ================================================================= *)
(** ** What [render] builds *)

Lemma set_this_then {B : Type} (f : Diagram -> Diagram) (K : unit -> M B) (w : World) :
  bind (set_this f) K w = K tt (with_this (f (this w)) w).
Proof. reflexivity. Qed.

Lemma render_run (css : StyleSheet) (k : nat) (w : World) :
  Dom.present k (document w) = true ->
  let sc := scaffold css k (document w) in
  render css (Mount k) w
  = (Ok tt,
     with_this (set_el (Some (el_key sc))
                  (set_group (Some (group_key sc))
                     (set_svg (Some (svg_key sc))
                        (set_container (Some k) (this w)))))
       (with_document (page sc) w)).
Proof.
  intros Hp sc.
  unfold render, d3_select.
  rewrite (bind_ok (ret (Some k)) _ w w (Some k) eq_refl).
  rewrite set_this_then.
  set (w0 := with_this (set_container (Some k) (this w)) w).
  rewrite (bind_ok _ _ _ _ _ (append_present k "svg" w0 Hp)). cbv beta.
  rewrite !edit_appended by (try (intros e; apply fresh_absent); reflexivity).
  change (Dom.apply_edit (Dom.SetAttr "pointer-events" "none") _)
    with (svg_element (Dom.fresh (document w0))).
  set (k1 := Dom.fresh (document w0)).
  set (doc1 := Dom.insert_child k (svg_element k1) (document w0)).
  rewrite set_this_then.
  set (w1 := with_this _ (with_document doc1 w0)).
  assert (P1 : Dom.present k1 (document w1) = true)
    by exact (present_inserted k (svg_element k1) (document w0) Hp).
  rewrite (bind_ok _ _ _ _ _ (append_present k1 "g" w1 P1)). cbv beta.
  change (document w1) with doc1.
  set (k2 := Dom.fresh doc1).
  set (doc2 := Dom.insert_child k1 (Dom.create k2 0 "g") doc1).
  rewrite set_this_then.
  set (w2 := with_this _ (with_document doc2 w1)).
  assert (P2 : Dom.present k2 (document w2) = true)
    by exact (present_inserted k1 (Dom.create k2 0 "g") doc1 P1).
  rewrite (bind_ok _ _ _ _ _ (append_present k2 "defs" w2 P2)). cbv beta.
  change (document w2) with doc2.
  set (k3 := Dom.fresh doc2).
  set (doc3 := Dom.insert_child k2 (Dom.create k3 0 "defs") doc2).
  set (w3 := with_document doc3 w2).
  assert (P3 : Dom.present k3 (document w3) = true)
    by exact (present_inserted k2 (Dom.create k3 0 "defs") doc2 P2).
  rewrite (bind_ok _ _ _ _ _ (append_present k3 "marker" w3 P3)). cbv beta.
  change (document w3) with doc3.
  rewrite !edit_appended by (try (intros e; apply fresh_absent); reflexivity).
  change (Dom.apply_edit (Dom.SetStyle "stroke-opacity" "0.6") _)
    with (marker_element (Dom.fresh doc3)).
  set (k4 := Dom.fresh doc3).
  set (doc4 := Dom.insert_child k3 (marker_element k4) doc3).
  set (w4 := with_document doc4 w3).
  assert (P4 : Dom.present k4 (document w4) = true)
    by exact (present_inserted k3 (marker_element k4) doc3 P3).
  rewrite (bind_ok _ _ _ _ _ (append_present k4 "path" w4 P4)). cbv beta.
  change (document w4) with doc4.
  rewrite !edit_appended by (try (intros e; apply fresh_absent); reflexivity).
  change (Dom.apply_edit (Dom.SetAttr "d" "M0,-5L10,0L0,5") _)
    with (marker_path (Dom.fresh doc4)).
  set (k5 := Dom.fresh doc4).
  set (doc5 := Dom.insert_child k4 (marker_path k5) doc4).
  set (w5 := with_document doc5 w4).
  assert (P5 : Dom.present k (document w5) = true).
  { change (document w5) with doc5.
    unfold doc5, doc4, doc3, doc2, doc1.
    repeat apply present_insert_child. exact Hp. }
  rewrite (bind_ok _ _ _ _ _ (append_present k "div" w5 P5)). cbv beta.
  change (document w5) with doc5.
  rewrite !edit_appended by (try (intros e; apply fresh_absent); reflexivity).
  reflexivity.
Qed.

Lemma inside_absent (g el : nat) (doc : Dom.Document) :
  (forall e, In e doc -> Dom.key e <> el) -> inside g el doc = false.
Proof.
  induction doc as [|e rest IH]; intros H; [reflexivity|]. simpl.
  destruct (Dom.key e =? el)%nat eqn:E.
  - apply Nat.eqb_eq in E. exfalso. apply (H e); [now left | exact E].
  - apply IH. intros a Ha. apply H. now right.
Qed.

Lemma inside_past (g el : nat) (l1 l2 : Dom.Document) :
  (forall e, In e l1 -> Dom.key e <> el) ->
  inside g el (l1 ++ l2) = inside g el l2.
Proof.
  induction l1 as [|e rest IH]; intros H; [reflexivity|]. simpl.
  destruct (Dom.key e =? el)%nat eqn:E.
  - apply Nat.eqb_eq in E. exfalso. apply (H e); [now left | exact E].
  - apply IH. intros a Ha. apply H. now right.
Qed.

(** Nothing lies inside an element that was just appended. *)
Lemma inside_new_leaf (g p : nat) (c : Dom.Element) (doc : Dom.Document) :
  (forall e, In e doc -> Dom.key e <> Dom.key c) ->
  inside g (Dom.key c) (Dom.insert_child p c doc) = false.
Proof.
  induction doc as [|e rest IH]; intros H; [reflexivity|].
  assert (He : (Dom.key e =? Dom.key c)%nat = false)
    by (apply Nat.eqb_neq, H; now left).
  simpl. destruct (Dom.key e =? p)%nat.
  - simpl. rewrite He.
    rewrite inside_past.
    + simpl. rewrite Nat.eqb_refl.
      rewrite (subtree_len_shallower (Dom.depth e) (S (Dom.depth e))); [reflexivity | lia |].
      apply subtree_len_rest.
    + intros a Ha. apply H. right. eapply in_firstn_in. exact Ha.
  - simpl. rewrite He. apply IH. intros a Ha. apply H. now right.
Qed.

(** Two keys differ when one of them was fresh for a page that held the
    other. *)
Ltac fresh_step :=
  match goal with
  | F : forall x, Dom.present x _ = true -> ?k <> x |- ?k <> _ => solve [apply F; auto 8]
  end.

Ltac fresh_ne :=
  repeat match goal with
         | K : Dom.key ?c = _ |- context [Dom.key ?c] => rewrite K
         end;
  first [assumption | fresh_step | apply not_eq_sym; first [assumption | fresh_step]].

(** The page after [render]: the [svg] and the container of the nodes
    are the last two children of the mount point; the group is the only
    child of the [svg], and holds the arrowhead marker in its [defs];
    the container of the nodes is empty. *)
Lemma scaffold_children (css : StyleSheet) (k : nat) (e0 : Dom.Element)
    (doc : Dom.Document) :
  Dom.lookup k doc = Some e0 ->
  let sc := scaffold css k doc in
  let d := Dom.depth e0 in
  Dom.child_elements k (page sc)
  = Dom.child_elements k doc
    ++ [Dom.place (S d) (svg_element (svg_key sc));
        Dom.place (S d) (diagram_element css (el_key sc))] /\
  Dom.child_elements (svg_key sc) (page sc)
  = [Dom.place (S (S d)) (Dom.create (group_key sc) 0 "g")] /\
  Dom.child_elements (group_key sc) (page sc)
  = [Dom.place (S (S (S d))) (Dom.create (defs_key sc) 0 "defs")] /\
  Dom.child_elements (defs_key sc) (page sc)
  = [Dom.place (S (S (S (S d)))) (marker_element (marker_key sc))] /\
  Dom.child_elements (marker_key sc) (page sc)
  = [Dom.place (S (S (S (S (S d))))) (marker_path (path_key sc))] /\
  Dom.child_elements (el_key sc) (page sc) = [] /\
  Dom.present (svg_key sc) (page sc) = true /\
  Dom.present (group_key sc) (page sc) = true /\
  Dom.present (el_key sc) (page sc) = true /\
  el_key sc <> group_key sc /\
  inside (group_key sc) (el_key sc) (page sc) = false /\
  (forall x, Dom.present x doc = true -> Dom.present x (page sc) = true) /\
  (forall x, Dom.present x doc = true -> Dom.lookup x (page sc) = Dom.lookup x doc) /\
  (forall x, Dom.present x doc = true -> x <> k ->
             Dom.child_elements x (page sc) = Dom.child_elements x doc).
Proof.
  intros He0 sc d. unfold scaffold in sc.
  set (k1 := Dom.fresh doc) in *.
  set (c1 := svg_element k1) in *.
  set (doc1 := Dom.insert_child k c1 doc) in *.
  set (k2 := Dom.fresh doc1) in *.
  set (c2 := Dom.create k2 0 "g") in *.
  set (doc2 := Dom.insert_child k1 c2 doc1) in *.
  set (k3 := Dom.fresh doc2) in *.
  set (c3 := Dom.create k3 0 "defs") in *.
  set (doc3 := Dom.insert_child k2 c3 doc2) in *.
  set (k4 := Dom.fresh doc3) in *.
  set (c4 := marker_element k4) in *.
  set (doc4 := Dom.insert_child k3 c4 doc3) in *.
  set (k5 := Dom.fresh doc4) in *.
  set (c5 := marker_path k5) in *.
  set (doc5 := Dom.insert_child k4 c5 doc4) in *.
  set (k6 := Dom.fresh doc5) in *.
  set (c6 := diagram_element css k6) in *.
  set (doc6 := Dom.insert_child k c6 doc5) in *.
  subst sc. cbn [svg_key group_key defs_key marker_key path_key el_key page].
  fold c1 c2 c3 c4 c5 c6.
  assert (K1 : Dom.key c1 = k1) by reflexivity.
  assert (K2 : Dom.key c2 = k2) by reflexivity.
  assert (K3 : Dom.key c3 = k3) by reflexivity.
  assert (K4 : Dom.key c4 = k4) by reflexivity.
  assert (K5 : Dom.key c5 = k5) by reflexivity.
  assert (K6 : Dom.key c6 = k6) by reflexivity.
  assert (P0 : Dom.present k doc = true) by (eapply lookup_is_present; exact He0).
  assert (Q1 : forall x, Dom.present x doc = true -> Dom.present x doc1 = true)
    by (intros; now apply present_insert_child).
  assert (Q2 : forall x, Dom.present x doc1 = true -> Dom.present x doc2 = true)
    by (intros; now apply present_insert_child).
  assert (Q3 : forall x, Dom.present x doc2 = true -> Dom.present x doc3 = true)
    by (intros; now apply present_insert_child).
  assert (Q4 : forall x, Dom.present x doc3 = true -> Dom.present x doc4 = true)
    by (intros; now apply present_insert_child).
  assert (Q5 : forall x, Dom.present x doc4 = true -> Dom.present x doc5 = true)
    by (intros; now apply present_insert_child).
  assert (Q6 : forall x, Dom.present x doc5 = true -> Dom.present x doc6 = true)
    by (intros; now apply present_insert_child).
  assert (P1 : Dom.present k1 doc1 = true)
    by (rewrite <- K1; apply present_inserted; exact P0).
  assert (P2 : Dom.present k2 doc2 = true)
    by (rewrite <- K2; apply present_inserted; exact P1).
  assert (P3 : Dom.present k3 doc3 = true)
    by (rewrite <- K3; apply present_inserted; exact P2).
  assert (P4 : Dom.present k4 doc4 = true)
    by (rewrite <- K4; apply present_inserted; exact P3).
  assert (P5 : Dom.present k5 doc5 = true)
    by (rewrite <- K5; apply present_inserted; exact P4).
  assert (P6 : Dom.present k6 doc6 = true)
    by (rewrite <- K6; apply present_inserted; auto 8).
  assert (F1 : forall x, Dom.present x doc = true -> k1 <> x)
    by (intros; now apply present_not_fresh).
  assert (F2 : forall x, Dom.present x doc1 = true -> k2 <> x)
    by (intros; now apply present_not_fresh).
  assert (F3 : forall x, Dom.present x doc2 = true -> k3 <> x)
    by (intros; now apply present_not_fresh).
  assert (F4 : forall x, Dom.present x doc3 = true -> k4 <> x)
    by (intros; now apply present_not_fresh).
  assert (F5 : forall x, Dom.present x doc4 = true -> k5 <> x)
    by (intros; now apply present_not_fresh).
  assert (F6 : forall x, Dom.present x doc5 = true -> k6 <> x)
    by (intros; now apply present_not_fresh).
  assert (L0 : forall x, Dom.present x doc = true -> Dom.lookup x doc6 = Dom.lookup x doc).
  { intros x Hx. unfold doc6, doc5, doc4, doc3, doc2, doc1.
    rewrite !lookup_insert_child by fresh_ne. reflexivity. }
  assert (L1 : Dom.lookup k1 doc1 = Some (Dom.place (S d) c1)).
  { rewrite <- K1. apply lookup_inserted; [|exact He0].
    intros e; apply fresh_absent. }
  assert (L2 : Dom.lookup k2 doc2 = Some (Dom.place (S (S d)) c2)).
  { rewrite <- K2. apply (lookup_inserted k1 c2 (Dom.place (S d) c1) doc1); [|exact L1].
    intros e; apply fresh_absent. }
  assert (L3 : Dom.lookup k3 doc3 = Some (Dom.place (S (S (S d))) c3)).
  { rewrite <- K3.
    apply (lookup_inserted k2 c3 (Dom.place (S (S d)) c2) doc2); [|exact L2].
    intros e; apply fresh_absent. }
  assert (L4 : Dom.lookup k4 doc4 = Some (Dom.place (S (S (S (S d)))) c4)).
  { rewrite <- K4.
    apply (lookup_inserted k3 c4 (Dom.place (S (S (S d))) c3) doc3); [|exact L3].
    intros e; apply fresh_absent. }
  assert (L5 : Dom.lookup k doc5 = Some e0).
  { unfold doc5, doc4, doc3, doc2, doc1.
    rewrite !lookup_insert_child by fresh_ne. exact He0. }
  assert (Other : forall x p c dd,
             Dom.key c <> x -> p <> x ->
             Dom.child_elements x (Dom.insert_child p c dd) = Dom.child_elements x dd)
    by (intros; now apply child_elements_insert_other).
  split.
  { unfold doc6. rewrite (child_elements_insert k c6 e0 doc5 L5).
    unfold doc5. rewrite Other by fresh_ne.
    unfold doc4. rewrite Other by fresh_ne.
    unfold doc3. rewrite Other by fresh_ne.
    unfold doc2. rewrite Other by fresh_ne.
    unfold doc1. rewrite (child_elements_insert k c1 e0 doc He0).
    rewrite <- app_assoc. reflexivity. }
  split.
  { unfold doc6.
    rewrite Other by fresh_ne.
    unfold doc5. rewrite Other by fresh_ne.
    unfold doc4. rewrite Other by fresh_ne.
    unfold doc3. rewrite Other by fresh_ne.
    unfold doc2. rewrite (child_elements_insert k1 c2 (Dom.place (S d) c1) doc1 L1).
    unfold doc1. rewrite <- K1 at 1.
    rewrite child_elements_new_leaf; [reflexivity|].
    intros e; apply fresh_absent. }
  split.
  { unfold doc6.
    rewrite Other by fresh_ne.
    unfold doc5. rewrite Other by fresh_ne.
    unfold doc4. rewrite Other by fresh_ne.
    unfold doc3. rewrite (child_elements_insert k2 c3 (Dom.place (S (S d)) c2) doc2 L2).
    unfold doc2. rewrite <- K2 at 1.
    rewrite child_elements_new_leaf; [reflexivity|].
    intros e; apply fresh_absent. }
  split.
  { unfold doc6.
    rewrite Other by fresh_ne.
    unfold doc5. rewrite Other by fresh_ne.
    unfold doc4. rewrite (child_elements_insert k3 c4 (Dom.place (S (S (S d))) c3) doc3 L3).
    unfold doc3. rewrite <- K3 at 1.
    rewrite child_elements_new_leaf; [reflexivity|].
    intros e; apply fresh_absent. }
  split.
  { unfold doc6.
    rewrite Other by fresh_ne.
    unfold doc5.
    rewrite (child_elements_insert k4 c5 (Dom.place (S (S (S (S d)))) c4) doc4 L4).
    unfold doc4. rewrite <- K4 at 1.
    rewrite child_elements_new_leaf; [reflexivity|].
    intros e; apply fresh_absent. }
  split.
  { unfold doc6. rewrite <- K6 at 1. apply child_elements_new_leaf.
    intros e; apply fresh_absent. }
  split.
  { auto 8. }
  split.
  { auto 8. }
  split.
  { exact P6. }
  split.
  { apply F6. auto 8. }
  split.
  { unfold doc6. rewrite <- K6. apply inside_new_leaf.
    intros e; apply fresh_absent. }
  split.
  { intros x Hx. auto 8. }
  split.
  { exact L0. }
  intros x Hx Hne. unfold doc6.
    rewrite Other by fresh_ne.
    unfold doc5. rewrite Other by fresh_ne.
    unfold doc4. rewrite Other by fresh_ne.
    unfold doc3. rewrite Other by fresh_ne.
    unfold doc2. rewrite Other by fresh_ne.
    unfold doc1. rewrite Other by fresh_ne.
    reflexivity.
Qed.

(** X2. [render] on a mount point that is in the page ends normally.  It
    appends an [svg] and then a [div] to the mount point, after the
    children it has; the [svg] is absolutely positioned, ignores the
    pointer and holds one group, whose only child is a [defs] with the
    arrowhead marker of id [end] and its path; the [div] carries the
    class of the diagram and is empty.  The instance now holds the mount
    point, the [svg], the group and the [div], and nothing else of it
    has changed; every element the page had is still there, with the
    children it had. *)
Theorem render_builds_widget (css : StyleSheet) (k : nat) (e0 : Dom.Element) (w : World) :
  Dom.lookup k (document w) = Some e0 ->
  exists w' svgEl gEl defsEl markerEl pathEl divEl,
    render css (Mount k) w = (Ok tt, w') /\
    this w' = set_el (Some (Dom.key divEl))
                (set_group (Some (Dom.key gEl))
                   (set_svg (Some (Dom.key svgEl))
                      (set_container (Some k) (this w)))) /\
    fired w' = fired w /\
    Dom.child_elements k (document w')
    = Dom.child_elements k (document w) ++ [svgEl; divEl] /\
    Dom.child_elements (Dom.key svgEl) (document w') = [gEl] /\
    Dom.child_elements (Dom.key gEl) (document w') = [defsEl] /\
    Dom.child_elements (Dom.key defsEl) (document w') = [markerEl] /\
    Dom.child_elements (Dom.key markerEl) (document w') = [pathEl] /\
    Dom.child_elements (Dom.key divEl) (document w') = [] /\
    Dom.tag svgEl = "svg" /\
    assoc_get "position" (Dom.styles svgEl) = Some "absolute" /\
    assoc_get "pointer-events" (Dom.attrs svgEl) = Some "none" /\
    Dom.tag gEl = "g" /\
    Dom.tag defsEl = "defs" /\
    Dom.tag markerEl = "marker" /\
    Dom.id_of markerEl = Some "end" /\
    Dom.tag pathEl = "path" /\
    assoc_get "d" (Dom.attrs pathEl) = Some "M0,-5L10,0L0,5" /\
    Dom.tag divEl = "div" /\
    Dom.has_class (diagram css) divEl = true /\
    (forall x, Dom.present x (document w) = true ->
               Dom.lookup x (document w') = Dom.lookup x (document w)) /\
    (forall x, Dom.present x (document w) = true -> x <> k ->
               Dom.child_elements x (document w') = Dom.child_elements x (document w)).
Proof.
  intros He0.
  pose proof (render_run css k w (lookup_is_present k (document w) e0 He0)) as Hrun.
  destruct (scaffold_children css k e0 (document w) He0)
    as (C0 & C1 & C2 & C3 & C4 & C6 & _ & _ & _ & _ & _ & _ & Hlook & Hother).
  cbv zeta in Hrun.
  set (sc := scaffold css k (document w)) in *.
  exists (with_this (set_el (Some (el_key sc))
                       (set_group (Some (group_key sc))
                          (set_svg (Some (svg_key sc))
                             (set_container (Some k) (this w)))))
            (with_document (page sc) w)).
  eexists. eexists. eexists. eexists. eexists. eexists.
  split; [exact Hrun|].
  cbn [this document fired with_this with_document].
  split; [|split; [reflexivity|]].
  2:{ split; [exact C0|]. split; [exact C1|]. split; [exact C2|].
      split; [exact C3|]. split; [exact C4|]. split; [exact C6|].
      split; [reflexivity|]. split; [reflexivity|]. split; [reflexivity|].
      split; [reflexivity|]. split; [reflexivity|]. split; [reflexivity|].
      split; [reflexivity|]. split; [reflexivity|]. split; [reflexivity|].
      split; [reflexivity|]. split; [apply has_class_classed_on|].
      split; [exact Hlook | exact Hother]. }
  reflexivity.
Qed.

Lemma render_builds_widget_witness :
  exists w' svgEl gEl defsEl markerEl pathEl divEl,
    render plain_css (Mount 0) (new_world new_diagram) = (Ok tt, w') /\
    this w' = set_el (Some (Dom.key divEl))
                (set_group (Some (Dom.key gEl))
                   (set_svg (Some (Dom.key svgEl))
                      (set_container (Some 0) (this (new_world new_diagram))))) /\
    fired w' = fired (new_world new_diagram) /\
    Dom.child_elements 0 (document w')
    = Dom.child_elements 0 (document (new_world new_diagram)) ++ [svgEl; divEl] /\
    Dom.child_elements (Dom.key svgEl) (document w') = [gEl] /\
    Dom.child_elements (Dom.key gEl) (document w') = [defsEl] /\
    Dom.child_elements (Dom.key defsEl) (document w') = [markerEl] /\
    Dom.child_elements (Dom.key markerEl) (document w') = [pathEl] /\
    Dom.child_elements (Dom.key divEl) (document w') = [] /\
    Dom.tag svgEl = "svg" /\
    assoc_get "position" (Dom.styles svgEl) = Some "absolute" /\
    assoc_get "pointer-events" (Dom.attrs svgEl) = Some "none" /\
    Dom.tag gEl = "g" /\
    Dom.tag defsEl = "defs" /\
    Dom.tag markerEl = "marker" /\
    Dom.id_of markerEl = Some "end" /\
    Dom.tag pathEl = "path" /\
    assoc_get "d" (Dom.attrs pathEl) = Some "M0,-5L10,0L0,5" /\
    Dom.tag divEl = "div" /\
    Dom.has_class (diagram plain_css) divEl = true /\
    (forall x, Dom.present x (document (new_world new_diagram)) = true ->
               Dom.lookup x (document w') = Dom.lookup x (document (new_world new_diagram))) /\
    (forall x, Dom.present x (document (new_world new_diagram)) = true -> x <> 0 ->
               Dom.child_elements x (document w')
               = Dom.child_elements x (document (new_world new_diagram))).
Proof.
  eapply (render_builds_widget plain_css 0 _ (new_world new_diagram)).
  vm_compute. reflexivity.
Defined.

(* ================================================================= *)
(** ** From [render] to the first picture *)

(** X4. On any instance, [render] on a mount point of the page, then
    [setData], then the answer of the layout with a box for every node
    and a route for every edge: everything ends normally, and the widget
    shows one visual per node, in the order of the nodes and with their
    names as ids, and exactly one path per edge. *)
Theorem render_setData_shows_data (css : StyleSheet) (k : nat) (w : World)
    (data : Data) (layout : Layout) :
  let ns := match nodes data with Some l => l | None => [] end in
  let es := match edges data with Some l => l | None => [] end in
  Dom.present k (document w) = true ->
  answers layout ns es ->
  exists w',
    (render css (Mount k) ;; setData data ;; _renderNodes_then css layout) w = (Ok tt, w') /\
    map Dom.id_of (node_visuals w') = map (fun n => Some (name n)) ns /\
    List.length (edge_visuals w') = List.length es.
Proof.
  intros ns es Pk Hans.
  destruct (lookup_present k (document w) Pk) as [e0 He0].
  pose proof (render_run css k w Pk) as Hrun1. cbv zeta in Hrun1.
  destruct (scaffold_children css k e0 (document w) He0)
    as (_ & _ & C2 & _ & _ & _ & _ & Pg & Pel & Hne & Hout & _).
  cbv zeta in C2, Pg, Pel, Hne, Hout.
  set (sc := scaffold css k (document w)) in *.
  set (w1 := with_this _ (with_document (page sc) w)) in Hrun1.
  destruct (setData_prepares data (Some k) (el_key sc) (group_key sc) w1)
    as (graph & w2 & Hrun2 & Hthis2 & Pel2 & Pg2 & _ & Hel2 & Hg2);
    try reflexivity; try assumption.
  assert (F2 : _nodes (this w2) = Some ns /\ _edges (this w2) = Some es /\
               _el (this w2) = Some (Some (el_key sc)) /\
               _group (this w2) = Some (Some (group_key sc)) /\
               _svg (this w2) = Some (Some (svg_key sc))).
  { rewrite Hthis2. repeat split. }
  destruct F2 as (Hn & He & Hl & Hgr & Hs).
  destruct (renderNodes_then_run css w2 layout ns es (el_key sc) (group_key sc)
              (Some (svg_key sc)) Hn He Hl Hgr Hs Pel2 Pg2 Hne Hans)
    as (w3 & news & Hrun3 & Hthis3 & Hnodes & Hshown & Hkids & _).
  exists w3. split; [|split].
  - rewrite (bind_ok _ _ w w1 tt Hrun1).
    rewrite (bind_ok _ _ w1 w2 graph Hrun2).
    exact Hrun3.
  - unfold node_visuals. rewrite Hthis3, Hl.
    change (map Dom.id_of (Dom.child_elements (el_key sc) (document w3)))
      with (map (fun e => view_id (node_view e))
              (Dom.child_elements (el_key sc) (document w3))).
    rewrite <- (map_map node_view view_id).
    rewrite Hnodes, Hel2. simpl.
    apply (names_of_shown css _ _ ns (layout_children layout) news (proj1 Hans) Hshown).
  - unfold edge_visuals. rewrite Hthis3, Hgr.
    rewrite filter_tag_length. fold (kids (group_key sc) (document w3)).
    rewrite Hkids. unfold kids. rewrite Hg2.
    change (document w1) with (page sc). rewrite C2. simpl.
    now rewrite filter_repeat_same, repeat_length.
Qed.

Lemma render_setData_shows_data_witness :
  exists w',
    (render plain_css (Mount 0) ;; setData data_AB ;; _renderNodes_then plain_css layout_AB)
      (new_world new_diagram) = (Ok tt, w') /\
    map Dom.id_of (node_visuals w')
    = map (fun n => Some (name n)) [node_named "A"; node_named "B"] /\
    List.length (edge_visuals w') = 1.
Proof.
  apply (render_setData_shows_data plain_css 0 (new_world new_diagram) data_AB layout_AB).
  - vm_compute. reflexivity.
  - exact answers_AB.
Defined.

(* ================================================================= *)
(** ** [destroy] *)

Lemma present_false (k : nat) (doc : Dom.Document) :
  Dom.present k doc = false <-> ~ In k (map Dom.key doc).
Proof.
  split.
  - intros H Hin. apply in_map_iff in Hin. destruct Hin as (e & He & Hin).
    assert (Dom.present k doc = true) by (apply present_true; now exists e).
    congruence.
  - intros H. destruct (Dom.present k doc) eqn:E; [|reflexivity].
    apply present_true in E. destruct E as (e & Hin & He).
    exfalso. apply H. rewrite <- He. now apply in_map.
Qed.

Lemma removed_absent (k : nat) (doc : Dom.Document) :
  distinct_keys doc -> Dom.present k (Dom.remove_subtree k doc) = false.
Proof.
  unfold distinct_keys. intros Hd. apply present_false.
  induction doc as [|e rest IH]; simpl; [auto|].
  inversion Hd as [|? ? Hnotin Hrest]; subst.
  destruct (Dom.key e =? k)%nat eqn:E; simpl.
  - apply Nat.eqb_eq in E. subst k. intros Hin. apply Hnotin.
    rewrite <- skipn_map in Hin.
    rewrite <- (firstn_skipn (Dom.subtree_len (Dom.depth e) rest) (map Dom.key rest)).
    apply in_or_app. now right.
  - apply Nat.eqb_neq in E. intros [Hin|Hin]; [congruence | now apply IH].
Qed.

Lemma absent_remove (k : nat) (sel : Dom.Selection) (doc : Dom.Document) :
  Dom.present k doc = false -> Dom.present k (Dom.remove sel doc) = false.
Proof.
  destruct sel as [k'|]; simpl; [|auto].
  rewrite !present_false. intros H Hin. apply H.
  now apply (remove_subtree_keys_in k').
Qed.

Lemma absent_childless (k : nat) (doc : Dom.Document) :
  Dom.present k doc = false -> Dom.child_elements k doc = [].
Proof.
  intros H. apply child_elements_absent. intros e Hin He.
  assert (Dom.present k doc = true) by (apply present_true; now exists e).
  congruence.
Qed.

(** X17. [destroy] on a rendered widget ends normally: the container of
    the nodes and the group leave the page with all they contain, so that
    no node visual and no edge visual is left, and nothing is added to
    the page.  The instance keeps its fields but for the event registry,
    which is destroyed. *)
Theorem destroy_removes_visuals (w : World) (el g : Dom.Selection) :
  distinct_keys (document w) ->
  _el (this w) = Some el ->
  _group (this w) = Some g ->
  exists w',
    destroy w = (Ok tt, w') /\
    this w' = set_observable (Observable.destroy (_observable (this w))) (this w) /\
    fired w' = fired w /\
    (forall k, el = Some k \/ g = Some k -> Dom.present k (document w') = false) /\
    node_visuals w' = [] /\
    edge_visuals w' = [] /\
    (forall k, Dom.present k (document w') = true -> Dom.present k (document w) = true).
Proof.
  intros Hd Hel Hg.
  exists (with_this (set_observable (Observable.destroy (_observable (this w))) (this w))
            (with_document (Dom.remove g (Dom.remove el (document w))) w)).
  assert (Hgone : forall k, el = Some k \/ g = Some k ->
                            Dom.present k (Dom.remove g (Dom.remove el (document w))) = false).
  { intros k [->| ->].
    - apply absent_remove. simpl. now apply removed_absent.
    - simpl. apply removed_absent. now apply distinct_keys_remove. }
  split; [|split; [reflexivity|split; [reflexivity|split; [exact Hgone|split; [|split]]]]].
  - unfold destroy, bind, set_this, defined, d3_remove.
    cbn [this document with_this with_document _el _group set_observable].
    rewrite Hel.
    cbn [this document with_this with_document _el _group set_observable].
    rewrite Hg. reflexivity.
  - unfold node_visuals. cbn [this document with_this with_document _el set_observable].
    rewrite Hel. destruct el as [k|]; [|reflexivity].
    apply absent_childless, Hgone. now left.
  - unfold edge_visuals. cbn [this document with_this with_document _group set_observable].
    rewrite Hg. destruct g as [k|]; [|reflexivity].
    rewrite absent_childless; [reflexivity|]. apply Hgone. now right.
  - cbn [document with_this with_document]. intros k Hk.
    destruct (Dom.present k (document w)) eqn:E; [reflexivity|].
    rewrite (absent_remove k g _ (absent_remove k el _ E)) in Hk. discriminate.
Qed.

Lemma destroy_removes_visuals_witness :
  exists w',
    destroy shown_world = (Ok tt, w') /\
    this w' = set_observable (Observable.destroy (_observable (this shown_world)))
                (this shown_world) /\
    fired w' = fired shown_world /\
    (forall k, Some 6 = Some k \/ Some 2 = Some k -> Dom.present k (document w') = false) /\
    node_visuals w' = [] /\
    edge_visuals w' = [] /\
    (forall k, Dom.present k (document w') = true ->
               Dom.present k (document shown_world) = true).
Proof.
  apply (destroy_removes_visuals shown_world (Some 6) (Some 2)).
  - exact shown_world_keys_distinct.
  - vm_compute. reflexivity.
  - vm_compute. reflexivity.
Defined.

(** X18. [destroy] on a widget that was never rendered throws a
    [TypeError], as [_el] is undefined; by then the event registry has
    been destroyed.  The page is left as it was. *)
Theorem destroy_before_render_throws (options : option Options) (w : World) :
  constructor options = Ok (this w) ->
  exists w',
    destroy w = (Throw TypeError, w') /\
    this w' = set_observable (Observable.destroy (_observable (this w))) (this w) /\
    document w' = document w /\
    fired w' = fired w.
Proof.
  intros Hc.
  assert (Hel : _el (this w) = None).
  { unfold constructor in Hc. destruct options as [o|]; [|discriminate].
    destruct (elkWorkerUrl o) as [url|]; [|discriminate].
    destruct (url =? "")%string; [discriminate|].
    injection Hc as Hc. rewrite <- Hc. reflexivity. }
  eexists. split.
  - unfold destroy, bind, set_this, defined.
    cbn [this document with_this with_document _el set_observable].
    rewrite Hel. reflexivity.
  - repeat split.
Qed.

Lemma destroy_before_render_throws_witness :
  exists w',
    destroy (new_world new_diagram) = (Throw TypeError, w') /\
    this w' = set_observable (Observable.destroy (_observable (this (new_world new_diagram))))
                (this (new_world new_diagram)) /\
    document w' = document (new_world new_diagram) /\
    fired w' = fired (new_world new_diagram).
Proof.
  apply (destroy_before_render_throws (Some some_options) (new_world new_diagram)).
  vm_compute. reflexivity.
Defined.

(* ================================================================= *)
(** ** A selector that matches nothing *)

Lemma renderNode_nowhere (css : StyleSheet) (n : Node) (styles : list (string * float))
    (doc : Dom.Document) (log : list Fired) (d : Diagram) :
  _el d = Some None ->
  hoare (still doc log d) (_renderNode css n styles)
        (fun _ w => True /\ still doc log d w).
Proof.
  intros Hel w (Hdoc & Hlog & Hd).
  unfold _renderNode, bind, get_this, get_engine, defined. rewrite Hd, Hel.
  cbn [d3_append Dom.append d3_edit Dom.update d3_html Dom.set_html document
       with_document].
  eexists. eexists. split; [reflexivity|].
  split; [exact I|]. repeat split; assumption.
Qed.

Lemma renderEdges_each_nowhere (layout : Layout) (edge : Edge) (i : nat)
    (doc : Dom.Document) (log : list Fired) (d : Diagram) :
  _group d = Some None ->
  hoare (still doc log d) (_renderEdges_each layout edge i)
        (fun _ w => True /\ still doc log d w).
Proof.
  intros Hg w (Hdoc & Hlog & Hd).
  unfold _renderEdges_each, bind, defined. rewrite Hd, Hg.
  cbn [d3_append Dom.append d3_edit Dom.update d3_attr_fn ret document with_document].
  destruct (type edge =? "arrow")%string;
    (eexists; eexists; split; [reflexivity|]; split; [exact I|];
     repeat split; assumption).
Qed.

Lemma setGraphSize_nowhere (ns : list LayoutChild)
    (doc : Dom.Document) (log : list Fired) (d : Diagram) :
  _el d = Some None ->
  _svg d = Some None ->
  hoare (still doc log d) (_setGraphSize ns) (fun _ w => still doc log d w).
Proof.
  intros Hel Hsvg w (Hdoc & Hlog & Hd).
  unfold _setGraphSize, bind, get_engine, defined, d3_style_length. rewrite Hd, Hel.
  destruct (valid_length _), (valid_length _);
    cbn [d3_edit Dom.update document with_document this]; rewrite Hd, Hsvg;
    (eexists; eexists; split; [reflexivity|]);
    repeat split; assumption.
Qed.

(** X3. [render] with a selector that matches no element ends normally
    and records an empty selection as the container; [setData] then does
    not complain that the diagram is not rendered, and when the layout
    answers with a box for every node the callback runs to its end; no
    element is added to the page and no event is fired: the widget
    silently shows nothing. *)
Theorem render_unmatched_shows_nothing (css : StyleSheet) (w : World) (data : Data)
    (layout : Layout) :
  let ns := match nodes data with Some l => l | None => [] end in
  List.length ns <= List.length (layout_children layout) ->
  exists w',
    (render css Unmatched ;; setData data ;; _renderNodes_then css layout) w
    = (Ok tt, w') /\
    _container (this w') = Some None /\
    document w' = document w /\
    fired w' = fired w.
Proof.
  intros ns Hfit.
  set (es := match edges data with Some l => l | None => [] end).
  set (d1 := set_el None (set_group None (set_svg None (set_container None (this w))))).
  set (d2 := set_edges es (set_nodes ns d1)).
  assert (Hrun1 : exists w1, render css Unmatched w = (Ok tt, w1) /\
                             still (document w) (fired w) d1 w1).
  { unfold render, bind, d3_select, ret, set_this.
    cbn [d3_append Dom.append d3_edit Dom.update document with_document with_this this].
    eexists. split; [reflexivity|]. repeat split. }
  destruct Hrun1 as (w1 & Hrun1 & Hdoc1 & Hlog1 & Hd1).
  destruct (setData_run data None None w1) as [graph Hrun2];
    [rewrite Hd1; reflexivity | rewrite Hd1; reflexivity |].
  set (w2 := with_this _ _) in Hrun2.
  assert (H2 : still (document w) (fired w) d2 w2).
  { unfold w2. cbn [document fired this with_this with_document Dom.empty].
    rewrite Hd1. repeat split; assumption. }
  assert (Hthen : hoare (still (document w) (fired w) d2) (_renderNodes_then css layout)
                    (fun _ w' => still (document w) (fired w) d2 w')).
  { unfold _renderNodes_then.
    eapply hoare_bind with (phi := fun r => r = ns) (Q := still (document w) (fired w) d2).
    { intros w0 (Hdoc & Hlog & Hd). exists ns, w0. unfold defined. rewrite Hd.
      split; [reflexivity|]. split; [reflexivity|]. repeat split; assumption. }
    intros ? ->.
    eapply hoare_bind with (phi := fun _ => True) (Q := still (document w) (fired w) d2).
    { intros w0 Hw0.
      destruct (hoare_forEach_from (_renderNodes_each css layout) ns
                  (fun _ => still (document w) (fired w) d2) 0) with (w := w0)
        as (a & w3 & Hrun & HQ); [|exact Hw0|].
      - intros j n Hj. simpl. unfold _renderNodes_each.
        assert (Hlt : j < List.length ns) by (apply nth_error_Some; congruence).
        destruct (nth_error (layout_children layout) j) as [lc|] eqn:Ec;
          [|apply nth_error_None in Ec; lia].
        now apply renderNode_nowhere.
      - exists a, w3. split; [exact Hrun | split; [exact I | exact HQ]]. }
    intros _ _.
    eapply hoare_bind with (phi := fun _ => True) (Q := still (document w) (fired w) d2).
    { unfold _renderEdges.
      eapply hoare_bind with (phi := fun r => r = es)
                             (Q := still (document w) (fired w) d2).
      { intros w0 (Hdoc & Hlog & Hd). exists es, w0. unfold defined. rewrite Hd.
        split; [reflexivity|]. split; [reflexivity|]. repeat split; assumption. }
      intros ? ->. intros w0 Hw0.
      destruct (hoare_forEach_from (_renderEdges_each layout) es
                  (fun _ => still (document w) (fired w) d2) 0) with (w := w0)
        as (a & w3 & Hrun & HQ); [|exact Hw0|].
      - intros j e Hj. simpl. now apply renderEdges_each_nowhere.
      - exists a, w3. split; [exact Hrun | split; [exact I | exact HQ]]. }
    intros _ _. now apply setGraphSize_nowhere. }
  destruct (Hthen w2 H2) as ([] & w3 & Hrun3 & Hdoc3 & Hlog3 & Hd3).
  exists w3. split; [|split; [|split]].
  - rewrite (bind_ok _ _ w w1 tt Hrun1).
    rewrite (bind_ok _ _ w1 w2 graph Hrun2).
    exact Hrun3.
  - rewrite Hd3. reflexivity.
  - exact Hdoc3.
  - exact Hlog3.
Qed.

Lemma render_unmatched_shows_nothing_witness :
  exists w',
    (render plain_css Unmatched ;; setData data_AB ;; _renderNodes_then plain_css layout_AB)
      (new_world new_diagram) = (Ok tt, w') /\
    _container (this w') = Some None /\
    document w' = document (new_world new_diagram) /\
    fired w' = fired (new_world new_diagram).
Proof.
  apply (render_unmatched_shows_nothing plain_css (new_world new_diagram) data_AB layout_AB).
  simpl. lia.
Defined.

(* ================================================================= *)
(** ** What a resolved [setData] leaves in the page *)

Lemma setData_resolved_visuals_witness :
  exists w',
    setData_resolved plain_css data_mixed layout_mixed shown_world = (Ok tt, w') /\
    List.length (node_visuals w') = 3 /\
    List.length (edge_visuals w') = List.length (edge_visuals shown_world) + 3.
Proof.
  apply (setData_resolved_visuals plain_css shown_world data_mixed layout_mixed
           (Some 0) (Some 1) 6 2).
  - vm_compute. reflexivity.
  - vm_compute. reflexivity.
  - vm_compute. reflexivity.
  - vm_compute. reflexivity.
  - vm_compute. reflexivity.
  - vm_compute. reflexivity.
  - discriminate.
  - vm_compute. reflexivity.
  - split; [simpl; lia | exact routed_mixed].
Defined.

(* ================================================================= *)
(** ** [highlightNode] called by the application during a drag *)

(** X15. Once the [mousedown] listener of a node has run, and until a
    [mouseup] listener runs, [highlightNode] called outside of any d3
    event, with a name that ["#" + name] is a selector with, throws a
    [TypeError] and changes nothing: [_dragging] is true and the guard
    reads [d3.event.relatedTarget] when there is no [d3.event].  (With a
    name that makes no selector, the call has ended before, with the
    exception of the selector engine.) *)
Theorem highlightNode_throws_after_mousedown (css : StyleSheet) (w : World)
    (k k' : nat) (e : Dom.Element) (ev : PointerEvent) (pressed nodeName : string)
    (highlighted : bool) (sel : Dom.Selection) :
  d3_event w = None ->
  Dom.lookup k (document w) = Some e ->
  assoc_get "mousedown" (Dom.listeners e) = Some (CallOnMouseDown pressed) ->
  Dom.getElementById pressed (document w) = Some k' ->
  selected_by_id nodeName w = Ok sel ->
  exists w1,
    dispatch css "mousedown" k ev w = (Ok tt, w1) /\
    _dragging (this w1) = Some true /\
    document w1 = document w /\
    selected_by_id nodeName w1 = Ok sel /\
    highlightNode css nodeName highlighted w1 = (Throw TypeError, w1).
Proof.
  intros Hev He Hl Hk' Hsel.
  eexists. split; [|split; [|split; [|split]]].
  - unfold dispatch. rewrite He, Hl. unfold run_listener.
    rewrite (onMouseDown_found (with_d3_event (Some ev) w) pressed k' Hk').
    reflexivity.
  - reflexivity.
  - reflexivity.
  - exact Hsel.
  - unfold highlightNode, bind, d3_select_id.
    match goal with
    | |- context [selected_by_id nodeName ?w1] =>
        change (selected_by_id nodeName w1) with (selected_by_id nodeName w)
    end.
    rewrite Hsel. unfold highlight_suppressed.
    cbn [this d3_event document with_d3_event with_this _dragging set_mouseDownBB
         set_dragging truthy].
    rewrite Hev. reflexivity.
Qed.

Lemma highlightNode_throws_after_mousedown_witness :
  exists w1,
    dispatch plain_css "mousedown" 7 {| relatedTarget := None |} shown_world = (Ok tt, w1) /\
    _dragging (this w1) = Some true /\
    document w1 = document shown_world /\
    selected_by_id "B" w1 = Ok (Some 11) /\
    highlightNode plain_css "B" true w1 = (Throw TypeError, w1).
Proof.
  eapply (highlightNode_throws_after_mousedown plain_css shown_world 7 _ _
            {| relatedTarget := None |} "A" "B" true (Some 11)).
  - vm_compute. reflexivity.
  - vm_compute. reflexivity.
  - vm_compute. reflexivity.
  - vm_compute. reflexivity.
  - vm_compute. reflexivity.
Defined.
